(** * EmbeddedCompositeHost and MobileSidebarWidget

    A shallow embedding of the two classes of
    [vs/workbench/contrib/files/browser/views]: the host that renders pane
    composites into a caller-chosen DOM element, and the mobile sidebar that
    switches between viewlets with a row of icon buttons.

    The classes are stateful and call into code that is not theirs (the
    composites, the registry, the DOM).  The embedding passes the state
    explicitly: a heap of DOM elements, a heap of disposable stores, the
    application storage and the trace of the calls made on foreign objects.
    Whether a foreign call throws is decided by an environment, which every
    theorem quantifies over; the disposal of a composite by its store is
    such a call.  Console output is not part of the model.

    Of the host, every method is embedded; [openComposite] is cut at its one
    [await], so that what happens while a composite is under creation can be
    stated.  Of the widget, the embedding covers [getPinnedViewletIds],
    [createActivityBar] with the handlers of its buttons, [showViewlet],
    [showPlaceholder], [updateActiveButton] and [dispose]; its constructor
    up to the call of [restoreLastActiveViewlet]; the viewlet that
    [restoreLastActiveViewlet] and [refresh] choose to show; and the element
    that [focus] focuses.  [layout] of the widget, which computes with
    JavaScript numbers and writes them into style texts, is not embedded. *)

From stdpp Require Import gmap strings list pretty.
From Stdlib Require Import ZArith Ascii String.

Open Scope string_scope.
Open Scope list_scope.

(** ** References and plain data *)

Abbreviation CompositeRef := nat.
Abbreviation ElemRef := nat.
Abbreviation StoreRef := nat.
Abbreviation Descriptor := nat.

(** [Dimension] of base/browser/dom.  The sizes are JavaScript numbers; the
    code embedded here passes them on and computes nothing with them, and
    they are taken as integers. *)
Record Dimension := { width : Z; height : Z }.

Inductive ViewContainerLocation := Sidebar | Panel | AuxiliaryBar.

(** The registry ids of [PaneCompositeExtensions]. *)
Inductive RegistryId := Viewlets | Panels | Auxiliary.

#[global] Instance Dimension_eq_dec : EqDecision Dimension.
Proof. solve_decision. Defined.

(** ** Calls on foreign objects *)

Inductive Event :=
| EvInstantiate (d : Descriptor)
| EvCreate (c : CompositeRef) (parent : ElemRef)
| EvUpdateStyles (c : CompositeRef)
| EvSetVisible (c : CompositeRef) (visible : bool)
| EvLayout (c : CompositeRef) (d : Dimension)
| EvDispose (c : CompositeRef)
| EvCreateHost (parent : ElemRef)
| EvFire.

#[global] Instance Event_eq_dec : EqDecision Event.
Proof. solve_decision. Defined.

(** What [descriptor.instantiate] does: it throws, or it yields a value that
    the host tests for truthiness. *)
Inductive InstResult :=
| InstThrows
| InstUndefined
| InstComposite (c : CompositeRef).

(** The environment of the host.  [throws t ev] says whether the foreign call
    [ev], made after the calls [t], throws. *)
Record Env := {
  getPaneComposite : RegistryId -> string -> option Descriptor;
  instantiate : list Event -> Descriptor -> InstResult;
  throws : list Event -> Event -> bool;
  getBoundingClientRect : ElemRef -> Dimension
}.

(** ** The DOM *)

(** A listener registered by the widget on one of its buttons. *)
Inductive Listener :=
| OnClick (viewletId : string)
| OnKeydown (viewletId : string).

Record Element := {
  className : list string;
  elemId : string;
  style : gmap string string;
  attributes : gmap string string;
  parentElement : option ElemRef;
  children : list ElemRef;
  innerHTML : string;
  listeners : list Listener
}.

Definition blankElement : Element :=
  {| className := []; elemId := ""; style := ∅; attributes := ∅;
     parentElement := None; children := []; innerHTML := ""; listeners := [] |}.

Definition set_className (cs : list string) (e : Element) : Element :=
  {| className := cs; elemId := elemId e; style := style e;
     attributes := attributes e; parentElement := parentElement e;
     children := children e; innerHTML := innerHTML e; listeners := listeners e |}.

Definition set_elemId (i : string) (e : Element) : Element :=
  {| className := className e; elemId := i; style := style e;
     attributes := attributes e; parentElement := parentElement e;
     children := children e; innerHTML := innerHTML e; listeners := listeners e |}.

(** The declarations that the two classes assign to [el.style]: literals
    all of them, each a value that CSS takes for its property, so that no
    assignment is dropped as invalid. *)
Inductive Declaration :=
| DisplayNone
| DisplayBlock
| DisplayFlex
| FlexDirectionRow
| FlexDirectionColumn
| WidthFull
| HeightFull
| PositionRelative
| FlexOne.

(** What a declaration sets: its own property, and for the shorthand
    [flex: 1] the three longhands it stands for, with the values that
    Chromium, the engine of the workbench, gives them. *)
Definition longhands (decl : Declaration) : list (string * string) :=
  match decl with
  | DisplayNone => [("display", "none")]
  | DisplayBlock => [("display", "block")]
  | DisplayFlex => [("display", "flex")]
  | FlexDirectionRow => [("flex-direction", "row")]
  | FlexDirectionColumn => [("flex-direction", "column")]
  | WidthFull => [("width", "100%")]
  | HeightFull => [("height", "100%")]
  | PositionRelative => [("position", "relative")]
  | FlexOne => [("flex-grow", "1"); ("flex-shrink", "1"); ("flex-basis", "0%")]
  end.

(** [el.style.property = value] *)
Definition set_style (decl : Declaration) (e : Element) : Element :=
  {| className := className e; elemId := elemId e;
     style := foldl (fun st kv => <[kv.1 := kv.2]> st) (style e) (longhands decl);
     attributes := attributes e; parentElement := parentElement e;
     children := children e; innerHTML := innerHTML e; listeners := listeners e |}.

Definition set_attribute (k v : string) (e : Element) : Element :=
  {| className := className e; elemId := elemId e; style := style e;
     attributes := <[k := v]> (attributes e); parentElement := parentElement e;
     children := children e; innerHTML := innerHTML e; listeners := listeners e |}.

Definition set_parentElement (p : option ElemRef) (e : Element) : Element :=
  {| className := className e; elemId := elemId e; style := style e;
     attributes := attributes e; parentElement := p;
     children := children e; innerHTML := innerHTML e; listeners := listeners e |}.

Definition set_children (cs : list ElemRef) (e : Element) : Element :=
  {| className := className e; elemId := elemId e; style := style e;
     attributes := attributes e; parentElement := parentElement e;
     children := cs; innerHTML := innerHTML e; listeners := listeners e |}.

Definition set_markup (s : string) (e : Element) : Element :=
  {| className := className e; elemId := elemId e; style := style e;
     attributes := attributes e; parentElement := parentElement e;
     children := children e; innerHTML := s; listeners := listeners e |}.

Definition add_listener (l : Listener) (e : Element) : Element :=
  {| className := className e; elemId := elemId e; style := style e;
     attributes := attributes e; parentElement := parentElement e;
     children := children e; innerHTML := innerHTML e;
     listeners := listeners e ++ [l] |}.

(** [classList.add] and [classList.remove]. *)
Definition classList_add (c : string) (e : Element) : Element :=
  if bool_decide (c ∈ className e) then e else set_className (className e ++ [c]) e.

Definition classList_remove (c : string) (e : Element) : Element :=
  set_className (filter (fun x => x ≠ c) (className e)) e.

Module Dom.

Abbreviation t := (list Element).

Definition createElement (d : t) : ElemRef * t := (List.length d, d ++ [blankElement]).

Definition update (r : ElemRef) (f : Element -> Element) (d : t) : t := alter f r d.

Definition parentOf (d : t) (r : ElemRef) : option ElemRef :=
  match d !! r with Some e => parentElement e | None => None end.

Definition childrenOf (d : t) (r : ElemRef) : list ElemRef :=
  match d !! r with Some e => children e | None => [] end.

Definition displayOf (d : t) (r : ElemRef) : option string :=
  match d !! r with Some e => style e !! "display" | None => None end.

(** [el.remove()]: nothing happens to an element without a parent. *)
Definition remove (r : ElemRef) (d : t) : t :=
  match parentOf d r with
  | None => d
  | Some p =>
      update r (set_parentElement None)
        (update p (fun e => set_children (filter (fun x => x ≠ r) (children e)) e) d)
  end.

(** [parent.appendChild(child)]: the child leaves its former parent. *)
Definition appendChild (p c : ElemRef) (d : t) : t :=
  let d1 := remove c d in
  update c (set_parentElement (Some p))
    (update p (fun e => set_children (children e ++ [c]) e) d1).

(** [el.innerHTML = s]: the former children are detached; the markup is
    kept as text and not parsed into elements. *)
Definition set_innerHTML (r : ElemRef) (s : string) (d : t) : t :=
  let d1 := foldr (fun c acc => update c (set_parentElement None) acc) d (childrenOf d r) in
  update r (fun e => set_markup s (set_children [] e)) d1.

End Dom.

(** ** Disposable stores *)

(** Modelled from the spec: [DisposableStore] of base/common/lifecycle is not
    among the sources.  A store holds the disposables added to it; disposing
    it once marks it disposed and disposes what it holds, and disposing it
    again does nothing.  Every disposable it holds is disposed, also when
    one of them throws; what they threw is thrown once all are disposed. *)
Record DisposableStore := {
  isDisposed : bool;
  toDispose : list CompositeRef
}.

(** ** The world *)

Record World := {
  trace : list Event;
  dom : Dom.t;
  stores : list DisposableStore;
  storage : gmap string string
}.

Definition with_trace (t : list Event) (w : World) : World :=
  {| trace := t; dom := dom w; stores := stores w; storage := storage w |}.
Definition with_dom (d : Dom.t) (w : World) : World :=
  {| trace := trace w; dom := d; stores := stores w; storage := storage w |}.
Definition with_stores (s : list DisposableStore) (w : World) : World :=
  {| trace := trace w; dom := dom w; stores := s; storage := storage w |}.
Definition with_storage (s : gmap string string) (w : World) : World :=
  {| trace := trace w; dom := dom w; stores := stores w; storage := s |}.

Definition emptyWorld : World :=
  {| trace := []; dom := []; stores := []; storage := ∅ |}.

Definition storeDisposed (w : World) (r : StoreRef) : bool :=
  match stores w !! r with Some s => isDisposed s | None => false end.

(** [new DisposableStore()] *)
Definition allocStore (w : World) : World :=
  with_stores (stores w ++ [{| isDisposed := false; toDispose := [] |}]) w.

(** [store.add(c)]: a disposed store takes nothing in. *)
Definition addToStore (r : StoreRef) (c : CompositeRef) (w : World) : World :=
  with_stores
    (alter (fun st => if isDisposed st then st
                      else {| isDisposed := false; toDispose := toDispose st ++ [c] |})
           r (stores w)) w.

(** [store.dispose()]: the world it leaves. *)
Definition disposeStore (r : StoreRef) (w : World) : World :=
  match stores w !! r with
  | Some st =>
      if isDisposed st then w
      else with_trace (trace w ++ map EvDispose (toDispose st))
             (with_stores (<[r := {| isDisposed := true; toDispose := [] |}]> (stores w)) w)
  | None => w
  end.

(** The calls of [dispose] that throw when the disposables [cs] are disposed
    one after the other, [t] being the calls made so far. *)
Fixpoint disposeAll (env : Env) (t : list Event) (cs : list CompositeRef) : list Event :=
  match cs with
  | [] => []
  | c :: cs' =>
      (if throws env t (EvDispose c) then [EvDispose c] else [])
      ++ disposeAll env (t ++ [EvDispose c]) cs'
  end.

(** [store.dispose()]: the calls that throw in it. *)
Definition disposeErrors (env : Env) (r : StoreRef) (w : World) : list Event :=
  match stores w !! r with
  | Some st => if isDisposed st then [] else disposeAll env (trace w) (toDispose st)
  | None => []
  end.

(** ** A state and exception monad *)

(** What a [throw] carries: the foreign call that threw, the
    [AggregateError] that a store makes of several, or the [TypeError] of a
    method call on [undefined]. *)
Inductive Error :=
| Thrown (by_call : Event)
| Aggregate (by_calls : list Event)
| TypeError.

Inductive Res (A : Type) :=
| Ret (a : A)
| Exn (e : Error).
Arguments Ret {A} a.
Arguments Exn {A} e.

Definition M (S A : Type) := S -> Res A * S.

Definition ret {S A} (a : A) : M S A := fun s => (Ret a, s).

Definition bind {S A B} (m : M S A) (k : A -> M S B) : M S B :=
  fun s => match m s with
           | (Ret a, s') => k a s'
           | (Exn e, s') => (Exn e, s')
           end.

Definition throw {S A} (e : Error) : M S A := fun s => (Exn e, s).

Definition try_catch {S A} (m : M S A) (handler : Error -> M S A) : M S A :=
  fun s => match m s with
           | (Ret a, s') => (Ret a, s')
           | (Exn e, s') => handler e s'
           end.

(** [try { m } finally { fin }]: [fin] runs in both cases and its own
    exception, if any, wins. *)
Definition try_finally {S A} (m : M S A) (fin : M S unit) : M S A :=
  fun s => match m s with
           | (r, s') => match fin s' with
                        | (Ret _, s'') => (r, s'')
                        | (Exn e, s'') => (Exn e, s'')
                        end
           end.

Definition gets {S A} (f : S -> A) : M S A := fun s => (Ret (f s), s).
Definition modify {S} (f : S -> S) : M S unit := fun s => (Ret tt, f s).

Declare Scope js_scope.
Delimit Scope js_scope with js.
Notation "x <- m ;; k" := (bind m (fun x => k))
  (at level 100, m at next level, right associativity) : js_scope.
Notation "m ;; k" := (bind m (fun _ => k))
  (at level 100, right associativity) : js_scope.
Open Scope js_scope.

(** JavaScript truthiness of a [string | undefined]. *)
Definition truthy (o : option string) : bool :=
  match o with
  | Some s => negb (String.eqb s "")
  | None => false
  end.

(** ** An insertion-ordered [Map<string, V>] *)

Module JsMap.
Section ops.
Context {V : Type}.

Definition t := list (string * V).

Fixpoint get (k : string) (m : t) : option V :=
  match m with
  | [] => None
  | (k', v) :: m' => if String.eqb k' k then Some v else get k m'
  end.

(** [set] overwrites in place and appends a new key at the end. *)
Fixpoint set (k : string) (v : V) (m : t) : t :=
  match m with
  | [] => [(k, v)]
  | (k', v') :: m' =>
      if String.eqb k' k then (k', v) :: m' else (k', v') :: set k v m'
  end.

Fixpoint delete (k : string) (m : t) : t :=
  match m with
  | [] => []
  | (k', v') :: m' =>
      if String.eqb k' k then delete k m' else (k', v') :: delete k m'
  end.

Definition values (m : t) : list V := map snd m.
End ops.
Arguments t V : clear implicits.
End JsMap.

(** ** EmbeddedCompositeHost *)

Module Entry.
Record t := {
  composite : CompositeRef;
  container : ElemRef;
  disposables : StoreRef
}.
End Entry.

(** What a call of [openComposite] has reached when it first gives up
    control: its result, or the settled promise of [createComposite] that its
    one [await] waits for. *)
Inductive Opened :=
| Done (r : option CompositeRef)
| Pending (p : InstResult).

Module EmbeddedCompositeHost.

Record t := {
  composites : JsMap.t Entry.t;
  currentCompositeId : option string;
  creatingComposites : gset string;
  container : ElemRef;
  location : ViewContainerLocation;
  superDisposed : bool
}.

Definition with_composites (m : JsMap.t Entry.t) (h : t) : t :=
  {| composites := m; currentCompositeId := currentCompositeId h;
     creatingComposites := creatingComposites h; container := container h;
     location := location h; superDisposed := superDisposed h |}.
Definition with_current (c : option string) (h : t) : t :=
  {| composites := composites h; currentCompositeId := c;
     creatingComposites := creatingComposites h; container := container h;
     location := location h; superDisposed := superDisposed h |}.
Definition with_creating (s : gset string) (h : t) : t :=
  {| composites := composites h; currentCompositeId := currentCompositeId h;
     creatingComposites := s; container := container h;
     location := location h; superDisposed := superDisposed h |}.
Definition with_superDisposed (b : bool) (h : t) : t :=
  {| composites := composites h; currentCompositeId := currentCompositeId h;
     creatingComposites := creatingComposites h; container := container h;
     location := location h; superDisposed := b |}.

(** The state the methods run in: the host object and the world. *)
Definition St : Type := t * World.

Definition getH {A} (f : t -> A) : M St A := gets (fun s => f (fst s)).
Definition getW {A} (f : World -> A) : M St A := gets (fun s => f (snd s)).
Definition modH (f : t -> t) : M St unit := modify (fun s => (f (fst s), snd s)).
Definition modW (f : World -> World) : M St unit := modify (fun s => (fst s, f (snd s))).
Definition modDom (f : Dom.t -> Dom.t) : M St unit := modW (fun w => with_dom (f (dom w)) w).

(** A call on a foreign object: it is recorded, and throws when the
    environment says so. *)
Definition call (env : Env) (ev : Event) : M St unit :=
  fun s =>
    let w := snd s in
    let s' := (fst s, with_trace (trace w ++ [ev]) w) in
    if throws env (trace w) ev then (Exn (Thrown ev), s') else (Ret tt, s').

(** [new DisposableStore()], [store.add(c)] and [store.dispose()]. *)
Definition newStore : M St StoreRef :=
  fun s => (Ret (List.length (stores (snd s))), (fst s, allocStore (snd s))).

Definition storeAdd (r : StoreRef) (c : CompositeRef) : M St unit :=
  modW (addToStore r c).

Definition storeDispose (env : Env) (r : StoreRef) : M St unit :=
  fun s =>
    let w := snd s in
    let s' := (fst s, disposeStore r w) in
    match disposeErrors env r w with
    | [] => (Ret tt, s')
    | [ev] => (Exn (Thrown ev), s')
    | evs => (Exn (Aggregate evs), s')
    end.

(** The constructor: the caller chooses the container. *)
Definition create (container : ElemRef) (location : ViewContainerLocation)
    (w : World) : t * World :=
  ({| composites := []; currentCompositeId := None; creatingComposites := ∅;
      container := container; location := location; superDisposed := false |},
   with_dom (Dom.update container (classList_add "embedded-composite-host") (dom w)) w).

Definition hideComposite (env : Env) (compositeId : string) : M St unit :=
  entry <- getH (fun h => JsMap.get compositeId (composites h));;
  match entry with
  | None => ret tt
  | Some entry =>
      call env (EvSetVisible (Entry.composite entry) false);;
      modDom (Dom.update (Entry.container entry) (set_style DisplayNone))
  end.

Definition showComposite (env : Env) (compositeId : string) : M St unit :=
  entry <- getH (fun h => JsMap.get compositeId (composites h));;
  match entry with
  | None => ret tt
  | Some entry =>
      current <- getH currentCompositeId;;
      (if truthy current && negb (bool_decide (current = Some compositeId))
       then hideComposite env (default "" current)
       else ret tt);;
      modDom (Dom.update (Entry.container entry) (set_style DisplayBlock));;
      modDom (Dom.update (Entry.container entry) (set_style HeightFull));;
      call env (EvSetVisible (Entry.composite entry) true);;
      host <- getH container;;
      let bounds := getBoundingClientRect env host in
      call env (EvLayout (Entry.composite entry)
                  {| width := width bounds; height := height bounds |});;
      modH (with_current (Some compositeId))
  end.

Definition registryOf (l : ViewContainerLocation) : RegistryId :=
  match l with
  | Panel => Panels
  | AuxiliaryBar => Auxiliary
  | Sidebar => Viewlets
  end.

(** The test the source makes twice: an entry that is not disposed is shown
    and its composite returned; a disposed one is dropped from the map. *)
Definition reuseExisting (env : Env) (compositeId : string) : M St (option CompositeRef) :=
  existing <- getH (fun h => JsMap.get compositeId (composites h));;
  match existing with
  | None => ret None
  | Some existing =>
      disposed <- getW (fun w => storeDisposed w (Entry.disposables existing));;
      if negb disposed then
        showComposite env compositeId;;
        ret (Some (Entry.composite existing))
      else
        modH (fun h => with_composites (JsMap.delete compositeId (composites h)) h);;
        ret None
  end.

(** [createComposite] is async: what [descriptor.instantiate] throws
    rejects the promise instead of leaving the call. *)
Definition createComposite (env : Env) (descriptor : Descriptor) : M St InstResult :=
  fun s =>
    let w := snd s in
    (Ret (instantiate env (trace w) descriptor),
     (fst s, with_trace (trace w ++ [EvInstantiate descriptor]) w)).

(** [openComposite] up to its [await]. *)
Definition openComposite_begin (env : Env) (compositeId : string) : M St Opened :=
  creating <- getH creatingComposites;;
  if bool_decide (compositeId ∈ creating) then ret (Done None)
  else
    current <- getH currentCompositeId;;
    same <- (if bool_decide (current = Some compositeId)
             then reuseExisting env compositeId
             else ret None);;
    match same with
    | Some c => ret (Done (Some c))
    | None =>
        current <- getH currentCompositeId;;
        (if truthy current then hideComposite env (default "" current) else ret tt);;
        registryId <- getH (fun h => registryOf (location h));;
        existing <- reuseExisting env compositeId;;
        match existing with
        | Some c => ret (Done (Some c))
        | None =>
            match getPaneComposite env registryId compositeId with
            | None => ret (Done None)
            | Some descriptor =>
                modH (fun h => with_creating ({[compositeId]} ∪ creatingComposites h) h);;
                p <- createComposite env descriptor;;
                ret (Pending p)
            end
        end
    end.

(** The [catch] block of [openComposite], given what the locals
    [disposables] and [compositeContainer] hold when it is entered. *)
Definition cleanUp (env : Env) (disposables : option StoreRef)
    (compositeContainer : option ElemRef) : M St (option CompositeRef) :=
  match disposables with Some d => storeDispose env d | None => ret tt end;;
  match compositeContainer with
  | Some el =>
      p <- getW (fun w => Dom.parentOf (dom w) el);;
      if bool_decide (is_Some p) then modDom (Dom.remove el) else ret tt
  | None => ret tt
  end;;
  ret None.

(** [openComposite] from its [await] on, [p] being the settled promise. *)
Definition openComposite_resume (env : Env) (compositeId : string) (p : InstResult)
    : M St (option CompositeRef) :=
  try_finally
    match p with
    | InstThrows => cleanUp env None None
    | InstUndefined => ret None
    | InstComposite composite =>
        disposables <- newStore;;
        storeAdd disposables composite;;
        compositeContainer <- (fun s =>
          let '(r, d) := Dom.createElement (dom (snd s)) in
          (Ret r, (fst s, with_dom d (snd s))));;
        modDom (Dom.update compositeContainer (set_className ["composite"; "embedded-composite"]));;
        modDom (Dom.update compositeContainer (set_elemId compositeId));;
        modDom (Dom.update compositeContainer (set_style DisplayNone));;
        try_catch
          (try_catch
             (call env (EvCreate composite compositeContainer);;
              call env (EvUpdateStyles composite))
             (fun createError =>
                storeDispose env disposables;;
                modDom (Dom.remove compositeContainer);;
                throw createError);;
           host <- getH container;;
           modDom (Dom.appendChild host compositeContainer);;
           modH (fun h => with_composites
                  (JsMap.set compositeId
                     {| Entry.composite := composite;
                        Entry.container := compositeContainer;
                        Entry.disposables := disposables |}
                     (composites h)) h);;
           showComposite env compositeId;;
           ret (Some composite))
          (fun _ => cleanUp env (Some disposables) (Some compositeContainer))
    end
    (modH (fun h => with_creating (creatingComposites h ∖ {[compositeId]}) h)).

(** A call of [openComposite] that nothing else interleaves with. *)
Definition openComposite (env : Env) (compositeId : string) : M St (option CompositeRef) :=
  r <- openComposite_begin env compositeId;;
  match r with
  | Done v => ret v
  | Pending p => openComposite_resume env compositeId p
  end.

Definition disposeComposite (env : Env) (compositeId : string) : M St unit :=
  entry <- getH (fun h => JsMap.get compositeId (composites h));;
  match entry with
  | None => ret tt
  | Some entry =>
      current <- getH currentCompositeId;;
      (if bool_decide (current = Some compositeId) then
         hideComposite env compositeId;;
         modH (with_current None)
       else ret tt);;
      call env (EvSetVisible (Entry.composite entry) false);;
      storeDispose env (Entry.disposables entry);;
      modDom (Dom.remove (Entry.container entry));;
      modH (fun h => with_composites (JsMap.delete compositeId (composites h)) h)
  end.

Definition layout (env : Env) (dimension : Dimension) : M St unit :=
  current <- getH currentCompositeId;;
  if truthy current then
    entry <- getH (fun h => JsMap.get (default "" current) (composites h));;
    match entry with
    | Some entry => call env (EvLayout (Entry.composite entry) dimension)
    | None => ret tt
    end
  else ret tt.

(** The body of the loop of [dispose], for one entry. *)
Definition disposeEntry (env : Env) (entry : Entry.t) : M St unit :=
  call env (EvSetVisible (Entry.composite entry) false);;
  storeDispose env (Entry.disposables entry);;
  modDom (Dom.remove (Entry.container entry)).

Fixpoint forEach {A} (f : A -> M St unit) (l : list A) : M St unit :=
  match l with
  | [] => ret tt
  | x :: l' => f x;; forEach f l'
  end.

Definition dispose (env : Env) : M St unit :=
  entries <- getH (fun h => JsMap.values (composites h));;
  forEach (disposeEntry env) entries;;
  modH (with_composites []);;
  modH (with_superDisposed true).

End EmbeddedCompositeHost.

(** ** MobileSidebarWidget *)

(** The values [JSON.parse] yields. *)
#[warnings="-register-all"]
Inductive JValue :=
| JNull
| JBool (b : bool)
| JNumber (n : Z)
| JString (s : string)
| JArray (items : list JValue)
| JObject (fields : list (string * JValue)).

(** The icon of a view container: absent, a string, an object with an [id]
    (a theme icon), or another object. *)
Inductive Icon :=
| IconNone
| IconString (s : string)
| IconWithId (id : string)
| IconOther.

Record ViewContainer := {
  vc_id : string;
  vc_title : string;
  vc_icon : Icon
}.

(** The services the widget asks: the sidebar's view containers, the lookup
    of a container by id, and [JSON.parse], which yields [None] where it
    throws. *)
Record Services := {
  sidebarContainers : list ViewContainer;
  getViewContainerById : string -> option ViewContainer;
  JSON_parse : string -> option JValue
}.

Inductive DomEvent :=
| Click
| Keydown (key : string).

Definition quote : string := String "034"%char EmptyString.
Definition newline : string := String "010"%char EmptyString.
Definition tab : string := String "009"%char EmptyString.

Module MobileSidebarWidget.

Definition LAST_ACTIVE_VIEWLET_KEY : string := "workbench.mobileSidebar.lastActiveViewlet".
Definition PINNED_VIEWLETS_KEY : string := "workbench.activity.pinnedViewlets2".

Record t := {
  container : ElemRef;
  activityBarContainer : ElemRef;
  contentContainer : ElemRef;
  currentViewletId : option string;
  embeddedHost : option EmbeddedCompositeHost.t
}.

Definition with_currentViewletId (c : option string) (x : t) : t :=
  {| container := container x; activityBarContainer := activityBarContainer x;
     contentContainer := contentContainer x; currentViewletId := c;
     embeddedHost := embeddedHost x |}.
Definition with_embeddedHost (h : option EmbeddedCompositeHost.t) (x : t) : t :=
  {| container := container x; activityBarContainer := activityBarContainer x;
     contentContainer := contentContainer x; currentViewletId := currentViewletId x;
     embeddedHost := h |}.

Definition St : Type := t * World.

Definition getT {A} (f : t -> A) : M St A := gets (fun s => f (fst s)).
Definition getW {A} (f : World -> A) : M St A := gets (fun s => f (snd s)).
Definition modT (f : t -> t) : M St unit := modify (fun s => (f (fst s), snd s)).
Definition modW (f : World -> World) : M St unit := modify (fun s => (fst s, f (snd s))).
Definition modDom (f : Dom.t -> Dom.t) : M St unit := modW (fun w => with_dom (f (dom w)) w).

Definition call (env : Env) (ev : Event) : M St unit :=
  fun s =>
    let w := snd s in
    let s' := (fst s, with_trace (trace w ++ [ev]) w) in
    if throws env (trace w) ev then (Exn (Thrown ev), s') else (Ret tt, s').

(** [emitter.fire()]: the emitter keeps what its listeners throw from
    the caller. *)
Definition fire (ev : Event) : M St unit :=
  modW (fun w => with_trace (trace w ++ [ev]) w).

Definition createElement : M St ElemRef :=
  fun s =>
    let '(r, d) := Dom.createElement (dom (snd s)) in
    (Ret r, (fst s, with_dom d (snd s))).

(** A method call on [this.embeddedHost]. *)
Definition onHost {A} (m : M EmbeddedCompositeHost.St A) : M St A :=
  fun s =>
    match embeddedHost (fst s) with
    | None => (Exn TypeError, s)
    | Some h =>
        let '(r, (h', w')) := m (h, snd s) in
        (r, (with_embeddedHost (Some h') (fst s), w'))
    end.

(** A promise that nobody awaits: its rejection reaches no caller. *)
Definition detached (m : M St unit) : M St unit :=
  fun s => (Ret tt, snd (m s)).

Definition defaultViewlets : list JValue :=
  [JString "workbench.view.explorer"; JString "workbench.view.search";
   JString "workbench.view.scm"; JString "workbench.view.debug";
   JString "workbench.view.extensions"].

Definition getPinnedViewletIds (svc : Services) (w : World) : list JValue :=
  let pinnedString := default "[]" (storage w !! PINNED_VIEWLETS_KEY) in
  match JSON_parse svc pinnedString with
  | Some (JArray (x :: l)) => x :: l
  | _ => defaultViewlets
  end.

(** [allContainers.find(c => c.id === id)]: only a string is strictly
    equal to an id. *)
Definition findContainer (allContainers : list ViewContainer) (id : JValue)
    : option ViewContainer :=
  match id with
  | JString s => List.find (fun c => String.eqb (vc_id c) s) allContainers
  | _ => None
  end.

(** The containers the activity bar shows, as [createActivityBar] and
    [updateActiveButton] both compute them. *)
Definition displayedContainers (svc : Services) (w : World) : list ViewContainer :=
  let pinnedViewletIds := getPinnedViewletIds svc w in
  let allContainers := sidebarContainers svc in
  let viewContainers := omap (findContainer allContainers) pinnedViewletIds in
  if bool_decide (List.length viewContainers = 0) then allContainers else viewContainers.

(** The own properties of the object literal [iconMap]. *)
Definition iconMap : gmap string string :=
  list_to_map
    [("workbench.view.explorer", "files"); ("workbench.view.search", "search");
     ("workbench.view.scm", "source-control"); ("workbench.view.debug", "debug-alt");
     ("workbench.view.extensions", "extensions")].

(** The text that a template literal makes of a built-in function. *)
Definition nativeFunction (name : string) : string :=
  "function " +:+ name +:+ "() { [native code] }".

(** The properties that [iconMap] inherits from [Object.prototype], each
    with the text that the template literal of [createActivityBar] makes of
    its value: built-in functions, and for [__proto__] the prototype itself.
    All of these values are truthy. *)
Definition inheritedFunctions : list string :=
  ["__defineGetter__"; "__defineSetter__"; "hasOwnProperty"; "__lookupGetter__";
   "__lookupSetter__"; "isPrototypeOf"; "propertyIsEnumerable"; "toString";
   "valueOf"; "toLocaleString"].

Definition inherited (key : string) : option string :=
  if String.eqb key "constructor" then Some (nativeFunction "Object")
  else if String.eqb key "__proto__" then Some "[object Object]"
  else if existsb (String.eqb key) inheritedFunctions then Some (nativeFunction key)
  else None.

(** [iconMap[key]], as text; a mapped string is falsy when it is empty. *)
Definition iconMapAt (key : string) : option string :=
  match iconMap !! key with
  | Some mapped => if String.eqb mapped "" then None else Some mapped
  | None => inherited key
  end.

Definition iconClassOf (c : ViewContainer) : string :=
  let fromIcon :=
    match vc_icon c with
    | IconString s => if String.eqb s "" then "files" else s
    | IconWithId id => id
    | IconNone | IconOther => "files"
    end in
  match iconMapAt (vc_id c) with
  | Some mapped => mapped
  | None => fromIcon
  end.

(** The classes of an element whose [className] is set to a text: the
    pieces of the text between white space. *)
Definition isSpace (ch : ascii) : bool :=
  existsb (Ascii.eqb ch) [" "; "009"; "010"; "012"; "013"]%char.

Fixpoint classesFrom (current : string) (text : string) : list string :=
  match text with
  | EmptyString => if String.eqb current "" then [] else [current]
  | String ch rest =>
      if isSpace ch
      then (if String.eqb current "" then [] else [current]) ++ classesFrom "" rest
      else classesFrom (current +:+ String ch EmptyString) rest
  end.

Definition classesOf (text : string) : list string := classesFrom "" text.

Arguments classesOf : simpl never.

(** One turn of the loop of [createActivityBar]: the button of a
    container, appended to the action bar. *)
Definition createButton (actionBar : ElemRef) (c : ViewContainer) : M St unit :=
  button <- createElement;;
  modDom (Dom.update button (set_className ["action-item"]));;
  modDom (Dom.update button (set_attribute "role" "button"));;
  modDom (Dom.update button (set_attribute "aria-label" (vc_title c)));;
  modDom (Dom.update button (set_attribute "tabindex" "0"));;
  iconContainer <- createElement;;
  modDom (Dom.update iconContainer (set_className ["action-label"]));;
  icon <- createElement;;
  modDom (Dom.update icon (set_className (classesOf ("codicon codicon-" +:+ iconClassOf c))));;
  modDom (Dom.appendChild iconContainer icon);;
  modDom (Dom.appendChild button iconContainer);;
  modDom (Dom.update button (add_listener (OnClick (vc_id c))));;
  modDom (Dom.update button (add_listener (OnKeydown (vc_id c))));;
  modDom (Dom.appendChild actionBar button).

Fixpoint forEach {A} (f : A -> M St unit) (l : list A) : M St unit :=
  match l with
  | [] => ret tt
  | x :: l' => f x;; forEach f l'
  end.

Definition createActivityBar (svc : Services) : M St unit :=
  viewContainers <- getW (displayedContainers svc);;
  actionBar <- createElement;;
  modDom (Dom.update actionBar (set_className ["mobile-activity-actions"]));;
  modDom (Dom.update actionBar (set_style DisplayFlex));;
  modDom (Dom.update actionBar (set_style FlexDirectionRow));;
  bar <- getT activityBarContainer;;
  modDom (Dom.appendChild bar actionBar);;
  forEach (createButton actionBar) viewContainers.

Definition placeholder (title : string) : string :=
  newline +:+ tab +:+ tab +:+ tab +:+ tab
  +:+ "<div style=" +:+ quote +:+ "padding: 20px;" +:+ quote +:+ ">"
  +:+ newline +:+ tab +:+ tab +:+ tab +:+ tab +:+ tab
  +:+ "<h3>" +:+ title +:+ "</h3>"
  +:+ newline +:+ tab +:+ tab +:+ tab +:+ tab +:+ tab
  +:+ "<p style=" +:+ quote +:+ "color: var(--vscode-descriptionForeground);" +:+ quote
  +:+ ">Unable to load viewlet</p>"
  +:+ newline +:+ tab +:+ tab +:+ tab +:+ tab
  +:+ "</div>"
  +:+ newline +:+ tab +:+ tab +:+ tab.

Definition showPlaceholder (svc : Services) (wrapper : ElemRef) (viewletId : string)
    : M St unit :=
  match getViewContainerById svc viewletId with
  | Some viewContainer =>
      modDom (Dom.set_innerHTML wrapper (placeholder (vc_title viewContainer)))
  | None => ret tt
  end.

(** The descendants of an element in document order; the fuel bounds the
    depth, which the number of elements bounds in a tree. *)
Fixpoint descendants (fuel : nat) (d : Dom.t) (r : ElemRef) : list ElemRef :=
  match fuel with
  | 0 => []
  | S fuel' => flat_map (fun c => c :: descendants fuel' d c) (Dom.childrenOf d r)
  end.

(** [el.querySelectorAll('.' + cls)]. *)
Definition querySelectorAll (d : Dom.t) (r : ElemRef) (cls : string) : list ElemRef :=
  List.filter (fun x => match d !! x with
                        | Some e => bool_decide (cls ∈ className e)
                        | None => false
                        end)
              (descendants (List.length d) d r).

Definition updateActiveButton (svc : Services) (viewletId : string) : M St unit :=
  bar <- getT activityBarContainer;;
  buttons <- getW (fun w => querySelectorAll (dom w) bar "action-item");;
  viewContainers <- getW (displayedContainers svc);;
  forEach (fun '(index, button) =>
             modDom (Dom.update button (classList_remove "checked"));;
             match viewContainers !! index with
             | Some c =>
                 if String.eqb (vc_id c) viewletId
                 then modDom (Dom.update button (classList_add "checked"))
                 else ret tt
             | None => ret tt
             end)
          (imap (fun index button => (index, button)) buttons).

(** The part of [showViewlet] before its [try]: it yields the wrapper. *)
Definition prepareContent (env : Env) (viewletId : string) : M St ElemRef :=
  modT (with_currentViewletId (Some viewletId));;
  modW (fun w => with_storage (<[LAST_ACTIVE_VIEWLET_KEY := viewletId]> (storage w)) w);;
  content <- getT contentContainer;;
  modDom (Dom.set_innerHTML content "");;
  host <- getT embeddedHost;;
  match host with
  | Some _ =>
      onHost (EmbeddedCompositeHost.dispose env);;
      modT (with_embeddedHost None)
  | None => ret tt
  end;;
  wrapper <- createElement;;
  modDom (Dom.update wrapper (set_className ["mobile-sidebar-viewlet-content"]));;
  modDom (Dom.update wrapper (set_style WidthFull));;
  modDom (Dom.update wrapper (set_style HeightFull));;
  modDom (Dom.update wrapper (set_style PositionRelative));;
  modDom (Dom.appendChild content wrapper);;
  ret wrapper.

(** The body of the [try] of [showViewlet]. *)
Definition renderComposite (svc : Services) (env : Env) (wrapper : ElemRef)
    (viewletId : string) : M St unit :=
  call env (EvCreateHost wrapper);;
  (fun s =>
     let '(h, w) := EmbeddedCompositeHost.create wrapper Sidebar (snd s) in
     (Ret tt, (with_embeddedHost (Some h) (fst s), w)));;
  composite <- onHost (EmbeddedCompositeHost.openComposite env viewletId);;
  match composite with
  | Some _ =>
      let bounds := getBoundingClientRect env wrapper in
      onHost (EmbeddedCompositeHost.layout env
                {| width := width bounds; height := height bounds |})
  | None => showPlaceholder svc wrapper viewletId
  end.

(** [showViewlet], its [await] resuming before anything else runs. *)
Definition showViewlet (svc : Services) (env : Env) (viewletId : string) : M St unit :=
  current <- getT currentViewletId;;
  if bool_decide (current = Some viewletId) then ret tt
  else
    wrapper <- prepareContent env viewletId;;
    try_catch (renderComposite svc env wrapper viewletId)
              (fun _ => showPlaceholder svc wrapper viewletId);;
    updateActiveButton svc viewletId;;
    fire EvFire.

(** The listeners of a button. *)
Definition handle (svc : Services) (env : Env) (l : Listener) (e : DomEvent) : M St unit :=
  match l, e with
  | OnClick viewletId, Click => detached (showViewlet svc env viewletId)
  | OnKeydown viewletId, Keydown key =>
      if String.eqb key "Enter" || String.eqb key " "
      then detached (showViewlet svc env viewletId)
      else ret tt
  | _, _ => ret tt
  end.


(** The constructor, up to its last statement, which is the call of
    [restoreLastActiveViewlet]: the container of the widget in the parent,
    the activity bar and the content in the container, and the buttons in
    the activity bar. *)
Definition create (svc : Services) (parent : ElemRef) (w : World) : St :=
  let '(container, d) := Dom.createElement (dom w) in
  let d := Dom.update container (set_className ["mobile-sidebar-widget"]) d in
  let d := Dom.update container (set_style DisplayFlex) d in
  let d := Dom.update container (set_style FlexDirectionColumn) d in
  let d := Dom.update container (set_style WidthFull) d in
  let d := Dom.update container (set_style HeightFull) d in
  let d := Dom.appendChild parent container d in
  let '(activityBarContainer, d) := Dom.createElement d in
  let d := Dom.update activityBarContainer (set_className ["mobile-sidebar-activity-bar"]) d in
  let d := Dom.appendChild container activityBarContainer d in
  let '(contentContainer, d) := Dom.createElement d in
  let d := Dom.update contentContainer (set_className ["mobile-sidebar-content"]) d in
  let d := Dom.update contentContainer (set_style FlexOne) d in
  let d := Dom.appendChild container contentContainer d in
  snd (createActivityBar svc
         ({| container := container; activityBarContainer := activityBarContainer;
             contentContainer := contentContainer; currentViewletId := None;
             embeddedHost := None |},
          with_dom d w)).

(** The viewlet stored as the last active one, when it is a non-empty id of
    a sidebar container: what [restoreLastActiveViewlet] and [refresh] both
    look for first. *)
Definition lastActiveViewlet (svc : Services) (w : World) : option string :=
  let lastActiveViewlet := storage w !! LAST_ACTIVE_VIEWLET_KEY in
  if truthy lastActiveViewlet then
    let isValid :=
      existsb (fun container => String.eqb (vc_id container) (default "" lastActiveViewlet))
              (sidebarContainers svc) in
    if isValid then lastActiveViewlet else None
  else None.

(** The end of [restoreLastActiveViewlet] and of [refresh]: the first pinned
    id, or the id of the first sidebar container when no id is pinned. *)
Definition firstPinnedViewlet (svc : Services) (w : World) : option JValue :=
  match getPinnedViewletIds svc w with
  | first :: _ => Some first
  | [] =>
      match sidebarContainers svc with
      | first :: _ => Some (JString (vc_id first))
      | [] => None
      end
  end.

(** [restoreLastActiveViewlet] does nothing but choose a viewlet and call
    [showViewlet] with it, without awaiting the call: the embedding yields
    the argument of that call, and [None] when no call is made.  The
    argument is what [JSON.parse] gave when it is a pinned id, which need
    not be a string. *)
Definition restoreLastActiveViewlet (svc : Services) (w : World) : option JValue :=
  match lastActiveViewlet svc w with
  | Some id => Some (JString id)
  | None => firstPinnedViewlet svc w
  end.

(** [refresh], in the same way; [activeComposite] is the id of the active
    pane composite of the sidebar, if there is one. *)
Definition refresh (svc : Services) (activeComposite : option string) (w : World)
    : option JValue :=
  match lastActiveViewlet svc w with
  | Some id => Some (JString id)
  | None =>
      match activeComposite with
      | Some activeViewletId => Some (JString activeViewletId)
      | None => firstPinnedViewlet svc w
      end
  end.

(** [focus]: the element that receives the focus, which is the first button
    of the activity bar in document order, if there is one. *)
Definition focus (x : t) (w : World) : option ElemRef :=
  head (querySelectorAll (dom w) (activityBarContainer x) "action-item").

(** [dispose]; the emitter that [super.dispose()] disposes has no state in
    the embedding. *)
Definition dispose (env : Env) : M St unit :=
  host <- getT embeddedHost;;
  match host with
  | Some _ => onHost (EmbeddedCompositeHost.dispose env)
  | None => ret tt
  end.

End MobileSidebarWidget.

(** ** A small scene, for evaluating the model on concrete inputs *)

Module Scene.

(** Four registered composites, one of them under the empty id; each
    instantiation yields a composite of its own. *)
Definition registry (_ : RegistryId) (id : string) : option Descriptor :=
  if String.eqb id "explorer" then Some 0
  else if String.eqb id "search" then Some 1
  else if String.eqb id "broken" then Some 2
  else if String.eqb id "" then Some 3
  else None.

Definition bounds (_ : ElemRef) : Dimension := {| width := 300; height := 400 |}.

(** Nothing throws. *)
Definition calm : Env :=
  {| getPaneComposite := registry;
     instantiate := fun t _ => InstComposite (List.length t);
     throws := fun _ _ => false;
     getBoundingClientRect := bounds |}.



(** A document of one element, and a host constructed on it. *)
Definition document : World := with_dom [blankElement] emptyWorld.
Definition fresh : EmbeddedCompositeHost.St :=
  Eval vm_compute in EmbeddedCompositeHost.create 0 Sidebar document.

(** The host after "explorer" was opened; while "explorer" is being
    opened; after the composite of the empty id was opened; and after
    "search" was opened next to "explorer". *)
Definition explorerOpen : EmbeddedCompositeHost.St :=
  Eval vm_compute in snd (EmbeddedCompositeHost.openComposite calm "explorer" fresh).
Definition explorerPending : EmbeddedCompositeHost.St :=
  Eval vm_compute in snd (EmbeddedCompositeHost.openComposite_begin calm "explorer" fresh).
Definition emptyIdOpen : EmbeddedCompositeHost.St :=
  Eval vm_compute in snd (EmbeddedCompositeHost.openComposite calm "" fresh).
Definition bothOpen : EmbeddedCompositeHost.St :=
  Eval vm_compute in snd (EmbeddedCompositeHost.openComposite calm "search" explorerOpen).

(** The view containers of the sidebar, and the services that know them. *)
Definition explorerContainer : ViewContainer :=
  {| vc_id := "explorer"; vc_title := "Explorer"; vc_icon := IconNone |}.
Definition searchContainer : ViewContainer :=
  {| vc_id := "search"; vc_title := "Search"; vc_icon := IconWithId "search" |}.
Definition brokenContainer : ViewContainer :=
  {| vc_id := "broken"; vc_title := "Broken"; vc_icon := IconString "bug" |}.
Definition containers : list ViewContainer :=
  [explorerContainer; searchContainer; brokenContainer].

(** A reader of arrays of plain strings, which stands for [JSON.parse] on
    the texts of the scene. *)
Fixpoint readString (s : string) : option (string * string) :=
  match s with
  | EmptyString => None
  | String c rest =>
      if Ascii.eqb c "034" then Some (EmptyString, rest)
      else match readString rest with
           | Some (str, rest') => Some (String c str, rest')
           | None => None
           end
  end.

Fixpoint readItems (fuel : nat) (s : string) : option (list JValue) :=
  match fuel, s with
  | S fuel', String q rest =>
      if Ascii.eqb q "034" then
        match readString rest with
        | Some (str, String c rest') =>
            if Ascii.eqb c ","
            then option_map (cons (JString str)) (readItems fuel' rest')
            else if Ascii.eqb c "]"
                 then match rest' with
                      | EmptyString => Some [JString str]
                      | _ => None
                      end
                 else None
        | _ => None
        end
      else None
  | _, _ => None
  end.

Definition parse (s : string) : option JValue :=
  match s with
  | String "[" (String "]" EmptyString) => Some (JArray [])
  | String "[" rest => option_map JArray (readItems (String.length rest) rest)
  | _ => None
  end.

Definition services : Services :=
  {| sidebarContainers := containers;
     getViewContainerById :=
       fun id => List.find (fun c => String.eqb (vc_id c) id) containers;
     JSON_parse := parse |}.

(** The text ["search","explorer"]. *)
Definition pinnedText : string :=
  "[" +:+ quote +:+ "search" +:+ quote +:+ "," +:+ quote +:+ "explorer" +:+ quote +:+ "]".

(** A widget on a page of three elements: its container, the activity
    bar and the content, with the pinned viewlets in the storage. *)
Definition widget : MobileSidebarWidget.t :=
  {| MobileSidebarWidget.container := 0;
     MobileSidebarWidget.activityBarContainer := 1;
     MobileSidebarWidget.contentContainer := 2;
     MobileSidebarWidget.currentViewletId := None;
     MobileSidebarWidget.embeddedHost := None |}.

Definition page : World :=
  with_storage (<[MobileSidebarWidget.PINNED_VIEWLETS_KEY := pinnedText]> ∅)
    (with_dom [set_children [1; 2] blankElement;
               set_parentElement (Some 0) blankElement;
               set_parentElement (Some 0) blankElement] emptyWorld).

(** The widget once its activity bar is made. *)
Definition mounted : MobileSidebarWidget.St :=
  Eval vm_compute in snd (MobileSidebarWidget.createActivityBar services (widget, page)).

(** [setVisible(false)] throws on the composite of "search", which is the
    composite 6 once "explorer" and "search" are open. *)
Definition hideFails : Env :=
  {| getPaneComposite := registry;
     instantiate := fun t _ => InstComposite (List.length t);
     throws := fun _ ev => match ev with EvSetVisible 6 false => true | _ => false end;
     getBoundingClientRect := bounds |}.

(** [dispose] throws on that composite. *)
Definition disposeFails : Env :=
  {| getPaneComposite := registry;
     instantiate := fun t _ => InstComposite (List.length t);
     throws := fun _ ev => match ev with EvDispose 6 => true | _ => false end;
     getBoundingClientRect := bounds |}.


(** The host of "explorer" and "search" once disposed. *)
Definition disposed : EmbeddedCompositeHost.St :=
  Eval vm_compute in snd (EmbeddedCompositeHost.dispose calm bothOpen).

Definition explorerShown : MobileSidebarWidget.St :=
  Eval vm_compute in snd (MobileSidebarWidget.showViewlet services calm "explorer" mounted).

(** A widget on the element 0 whose host holds "explorer" and "search". *)
Definition crowded : MobileSidebarWidget.St :=
  ({| MobileSidebarWidget.container := 0;
      MobileSidebarWidget.activityBarContainer := 0;
      MobileSidebarWidget.contentContainer := 0;
      MobileSidebarWidget.currentViewletId := Some "search";
      MobileSidebarWidget.embeddedHost := Some (fst bothOpen) |},
   snd bothOpen).

End Scene.

(** * Properties *)

Import EmbeddedCompositeHost.

(** ** The vocabulary of the statements *)

(** The events a call added to the trace. *)
Definition added (w w' : World) (evs : list Event) : Prop :=
  trace w' = trace w ++ evs.

(** [setVisible] and [layout] never throw. *)
Definition quiet (env : Env) : Prop :=
  forall t c, (forall b, throws env t (EvSetVisible c b) = false)
              /\ (forall d, throws env t (EvLayout c d) = false).

(** What the store [r] holds and has still to dispose. *)
Definition heldBy (w : World) (r : StoreRef) : list CompositeRef :=
  match stores w !! r with
  | Some st => if isDisposed st then [] else toDispose st
  | None => []
  end.

(** [dispose] throws on none of the disposables that the store [r] holds. *)
Definition disposalReturns (env : Env) (w : World) (r : StoreRef) : Prop :=
  forall t c, In c (heldBy w r) -> throws env t (EvDispose c) = false.

Definition isShowEvent (ev : Event) : Prop :=
  match ev with
  | EvSetVisible _ _ | EvLayout _ _ => True
  | _ => False
  end.

(** The ids under creation have no entry in the map: the invariant of the
    host between two calls. *)
Definition consistent (h : t) : Prop :=
  forall id, id ∈ creatingComposites h -> JsMap.get id (composites h) = None.

(** The entries of the map refer to elements of the document and to stores
    of the world, and no two of them share a container. *)
Definition wellFormed (h : t) (w : World) : Prop :=
  (forall id e, JsMap.get id (composites h) = Some e ->
     Entry.container e < List.length (dom w)
     /\ Entry.disposables e < List.length (stores w))
  /\ (forall i j ei ej, i ≠ j ->
        JsMap.get i (composites h) = Some ei -> JsMap.get j (composites h) = Some ej ->
        Entry.container ei ≠ Entry.container ej).

(** The state of the host after [showComposite]: the id becomes current when
    the call returns. *)
Definition shownHost (r : Res unit) (id : string) (h : t) : t :=
  match r with
  | Ret _ => with_current (Some id) h
  | Exn _ => h
  end.

Definition boundsOf (env : Env) (h : t) : Dimension :=
  {| width := width (getBoundingClientRect env (container h));
     height := height (getBoundingClientRect env (container h)) |}.

(** The world once [openComposite] has made the store and the container of
    a new composite, before it calls [create]. *)
Definition prepared (compositeId : string) (c : CompositeRef) (w : World) : World :=
  let w1 := addToStore (List.length (stores w)) c (allocStore w) in
  let el := List.length (dom w) in
  with_dom
    (Dom.update el (set_style DisplayNone)
       (Dom.update el (set_elemId compositeId)
          (Dom.update el (set_className ["composite"; "embedded-composite"])
             (dom w ++ [blankElement]))))
    w1.

Arguments prepared : simpl never.

(** The entry [openComposite] stores for a composite created in [w]. *)
Definition newEntry (c : CompositeRef) (w : World) : Entry.t :=
  {| Entry.composite := c;
     Entry.container := List.length (dom w);
     Entry.disposables := List.length (stores w) |}.

(** The world after the clean-up of [openComposite]: the store disposed, the
    container out of its parent. *)
Definition discarded (s : StoreRef) (el : ElemRef) (w : World) : World :=
  with_dom (Dom.remove el (dom (disposeStore s w))) (disposeStore s w).

(** [create] or [updateStyles] throws on the composite created in [w]. *)
Definition createThrows (env : Env) (c : CompositeRef) (w : World) : Prop :=
  let el := List.length (dom w) in
  throws env (trace w) (EvCreate c el) = true
  \/ throws env (trace w ++ [EvCreate c el]) (EvUpdateStyles c) = true.

(** The part of [openComposite_begin] that hides the current composite. *)
Definition hideCurrent (env : Env) : M St unit :=
  fun s =>
    (if truthy (currentCompositeId (fst s))
     then hideComposite env (default "" (currentCompositeId (fst s)))
     else fun s => (Ret tt, s)) s.

(** [openComposite_begin] once the guard and the test on the current id are
    passed. *)
Definition lookUp (env : Env) (id : string) : M St Opened :=
  fun s =>
    match hideCurrent env s with
    | (Exn err, s0) => (Exn err, s0)
    | (Ret _, s0) =>
        match reuseExisting env id s0 with
        | (Exn err, s1) => (Exn err, s1)
        | (Ret (Some c), s1) => (Ret (Done (Some c)), s1)
        | (Ret None, (h1, w1)) =>
            match getPaneComposite env (registryOf (location (fst s0))) id with
            | None => (Ret (Done None), (h1, w1))
            | Some d =>
                (Ret (Pending (instantiate env (trace w1) d)),
                 (with_creating ({[id]} ∪ creatingComposites h1) h1,
                  with_trace (trace w1 ++ [EvInstantiate d]) w1))
            end
        end
    end.

(** What the loop of [dispose] has done to an entry by the time it ends. *)
Definition tornDown (w w' : World) (evs : list Event) (e : Entry.t) : Prop :=
  In (EvSetVisible (Entry.composite e) false) evs
  /\ (Entry.disposables e < List.length (stores w) ->
      storeDisposed w' (Entry.disposables e) = true)
  /\ (forall st, stores w !! Entry.disposables e = Some st -> isDisposed st = false ->
      forall c, In c (toDispose st) -> In (EvDispose c) evs)
  /\ Dom.parentOf (dom w') (Entry.container e) = None
  /\ (forall q, Dom.parentOf (dom w) (Entry.container e) = Some q ->
      Entry.container e ∉ Dom.childrenOf (dom w') q).

(** What stays of the composite [a] that was current before a switch. *)
Definition onlyHidden (a : string) (ea : Entry.t) (w : World) (h' : t) (w' : World) : Prop :=
  JsMap.get a (composites h') = Some ea
  /\ stores w' !! Entry.disposables ea = stores w !! Entry.disposables ea
  /\ Dom.parentOf (dom w') (Entry.container ea) = Dom.parentOf (dom w) (Entry.container ea)
  /\ exists evs, added w w' evs
       /\ (forall c, ~ In (EvDispose c) evs)
       /\ (a ≠ "" -> In (EvSetVisible (Entry.composite ea) false) evs
                     /\ Dom.displayOf (dom w') (Entry.container ea) = Some "none").

(** The markup of an element. *)
Definition markupOf (d : Dom.t) (x : ElemRef) : option string :=
  match d !! x with
  | Some e => Some (innerHTML e)
  | None => None
  end.

(** The elements of [w] are still there in [w'], with the markup they had. *)
Definition keepsMarkup (w w' : World) : Prop :=
  List.length (dom w) <= List.length (dom w')
  /\ forall x, x < List.length (dom w) -> markupOf (dom w') x = markupOf (dom w) x.

Definition domKeeps (f : Dom.t -> Dom.t) : Prop :=
  forall d, List.length d <= List.length (f d)
            /\ forall x, x < List.length d -> markupOf (f d) x = markupOf d x.

(** A computation of the host keeps the markup when every run of it does. *)
Definition hostKeeps {A} (m : M St A) : Prop :=
  forall s, keepsMarkup (snd s) (snd (snd (m s))).

(** The state [s'] has the ids under creation and as many elements and
    stores as [s], and no entry that [s] has not. *)
Definition shrinks (s s' : St) : Prop :=
  creatingComposites (fst s') = creatingComposites (fst s)
  /\ List.length (dom (snd s')) = List.length (dom (snd s))
  /\ List.length (stores (snd s')) = List.length (stores (snd s))
  /\ forall k e, JsMap.get k (composites (fst s')) = Some e ->
                 JsMap.get k (composites (fst s)) = Some e.

Definition hostShrinks {A} (m : M St A) : Prop :=
  forall s, shrinks s (snd (m s)).

(** A computation of the widget that returns, leaves the widget object as it
    is and keeps the markup of the document. *)
Definition widgetKeeps {A} (m : M MobileSidebarWidget.St A) : Prop :=
  forall s, exists a w', m s = (Ret a, (fst s, w')) /\ keepsMarkup (snd s) w'.



(** The three elements [createActivityBar] makes for a container: the
    button, its icon container and its icon, [n] being the reference of the
    button. *)
Definition buttonElements (actionBar n : ElemRef) (c : ViewContainer) : list Element :=
  [ {| className := ["action-item"]; elemId := ""; style := ∅;
       attributes := <["tabindex" := "0"]>
                       (<["aria-label" := vc_title c]> (<["role" := "button"]> ∅));
       parentElement := Some actionBar; children := [n + 1]; innerHTML := "";
       listeners := [OnClick (vc_id c); OnKeydown (vc_id c)] |};
    {| className := ["action-label"]; elemId := ""; style := ∅; attributes := ∅;
       parentElement := Some n; children := [n + 2]; innerHTML := "";
       listeners := [] |};
    {| className :=
         MobileSidebarWidget.classesOf ("codicon codicon-" +:+ MobileSidebarWidget.iconClassOf c);
       elemId := ""; style := ∅; attributes := ∅;
       parentElement := Some (n + 1); children := []; innerHTML := "";
       listeners := [] |} ].

(** The element [b] is the button of the container [c]. *)
Definition isButtonOf (d : Dom.t) (b : ElemRef) (c : ViewContainer) : Prop :=
  exists el, d !! b = Some el
    /\ className el = ["action-item"]
    /\ attributes el !! "role" = Some "button"
    /\ attributes el !! "aria-label" = Some (vc_title c)
    /\ listeners el = [OnClick (vc_id c); OnKeydown (vc_id c)].

(** The entry of "explorer" in the scene. *)
Definition explorerEntry : Entry.t :=
  {| Entry.composite := 0; Entry.container := 1; Entry.disposables := 0 |}.


(** The calls that reach a host.  [openComposite] comes in its two halves,
    since other calls can run while it awaits: [CallOpen] runs it up to the
    [await], and [CallResume n] resumes the [n]-th of the calls that are
    waiting. *)
Inductive Call :=
| CallOpen (compositeId : string)
| CallResume (n : nat)
| CallDisposeComposite (compositeId : string)
| CallLayout (dimension : Dimension)
| CallDispose.

(** A host in use: the host and the world, and the calls of [openComposite]
    that wait for their composite, each with the promise it waits for. *)
Record Session := {
  state : St;
  waiting : list (string * InstResult)
}.

Definition run (env : Env) (c : Call) (x : Session) : Session :=
  match c with
  | CallOpen compositeId =>
      match openComposite_begin env compositeId (state x) with
      | (Ret (Pending p), s) =>
          {| state := s; waiting := waiting x ++ [(compositeId, p)] |}
      | (_, s) => {| state := s; waiting := waiting x |}
      end
  | CallResume n =>
      match waiting x !! n with
      | Some (compositeId, p) =>
          {| state := snd (openComposite_resume env compositeId p (state x));
             waiting := take n (waiting x) ++ drop (S n) (waiting x) |}
      | None => x
      end
  | CallDisposeComposite compositeId =>
      {| state := snd (disposeComposite env compositeId (state x)); waiting := waiting x |}
  | CallLayout dimension =>
      {| state := snd (layout env dimension (state x)); waiting := waiting x |}
  | CallDispose =>
      {| state := snd (dispose env (state x)); waiting := waiting x |}
  end.

Definition runAll (env : Env) (cs : list Call) (x : Session) : Session :=
  fold_left (fun x c => run env c x) cs x.

(** A host just constructed. *)
Definition started (el : ElemRef) (loc : ViewContainerLocation) (w : World) : Session :=
  {| state := create el loc w; waiting := [] |}.

(** The ids under creation are those of the calls that wait, each of which
    waits once. *)
Definition tracked (x : Session) : Prop :=
  NoDup (waiting x).*1
  /\ forall id, id ∈ creatingComposites (fst (state x)) <-> id ∈ (waiting x).*1.

(** The two invariants of the host. *)
Definition sound (x : Session) : Prop :=
  consistent (fst (state x)) /\ wellFormed (fst (state x)) (snd (state x)).

(** The stores, the tree of the document and the entries of the other ids
    after a computation of the host. *)
Definition spares (id : string) (s s' : St) : Prop :=
  stores (snd s') = stores (snd s)
  /\ List.length (dom (snd s')) = List.length (dom (snd s))
  /\ (forall x, Dom.parentOf (dom (snd s')) x = Dom.parentOf (dom (snd s)) x)
  /\ (exists evs, trace (snd s') = trace (snd s) ++ evs
                  /\ Forall (fun ev => isShowEvent ev \/ exists d, ev = EvInstantiate d) evs)
  /\ container (fst s') = container (fst s)
  /\ forall k, k ≠ id ->
       JsMap.get k (composites (fst s')) = JsMap.get k (composites (fst s)).

(** What a caller holds when [openComposite] gave it the composite [c]. *)
Definition opened (id : string) (c : CompositeRef) (w : World) (h' : t) (w' : World) : Prop :=
  currentCompositeId h' = Some id
  /\ exists e evs,
       JsMap.get id (composites h') = Some e
       /\ Entry.composite e = c
       /\ storeDisposed w' (Entry.disposables e) = false
       /\ added w w' evs
       /\ In (EvSetVisible c true) evs
       /\ (Entry.container e < List.length (dom w') ->
           Dom.displayOf (dom w') (Entry.container e) = Some "block").

(** A computation every run of which relates the state it starts from to
    the state it leaves. *)
Definition preserves {S A} (R : S -> S -> Prop) (m : M S A) : Prop :=
  forall s, R s (snd (m s)).

(** The world [w'] comes after [w]: the storage is the same, the stores
    that were disposed still are, and the calls made since are not the
    firing of the widget's event. *)
Definition advances (w w' : World) : Prop :=
  storage w' = storage w
  /\ (forall r, storeDisposed w r = true -> storeDisposed w' r = true)
  /\ exists evs, added w w' evs /\ ~ In EvFire evs.

Definition hostAdvances (s s' : EmbeddedCompositeHost.St) : Prop :=
  advances (snd s) (snd s').

(** The same for the widget, which moreover keeps its current viewlet. *)
Definition widgetAdvances (s s' : MobileSidebarWidget.St) : Prop :=
  MobileSidebarWidget.currentViewletId (fst s') = MobileSidebarWidget.currentViewletId (fst s)
  /\ advances (snd s) (snd s').

(** The end of [prepareContent], once the viewlet is made the current one
    and stored: the content is cleared, the previous host disposed, and the
    wrapper made. *)
Definition mountWrapper (env : Env) : M MobileSidebarWidget.St ElemRef :=
  content <- MobileSidebarWidget.getT MobileSidebarWidget.contentContainer;;
  MobileSidebarWidget.modDom (Dom.set_innerHTML content "");;
  host <- MobileSidebarWidget.getT MobileSidebarWidget.embeddedHost;;
  match host with
  | Some _ =>
      MobileSidebarWidget.onHost (EmbeddedCompositeHost.dispose env);;
      MobileSidebarWidget.modT (MobileSidebarWidget.with_embeddedHost None)
  | None => ret tt
  end;;
  wrapper <- MobileSidebarWidget.createElement;;
  MobileSidebarWidget.modDom
    (Dom.update wrapper (set_className ["mobile-sidebar-viewlet-content"]));;
  MobileSidebarWidget.modDom (Dom.update wrapper (set_style WidthFull));;
  MobileSidebarWidget.modDom (Dom.update wrapper (set_style HeightFull));;
  MobileSidebarWidget.modDom (Dom.update wrapper (set_style PositionRelative));;
  MobileSidebarWidget.modDom (Dom.appendChild content wrapper);;
  ret wrapper.

(** The viewlet [id] made the current one and stored as the last active. *)
Definition remembered (id : string) (s : MobileSidebarWidget.St) : MobileSidebarWidget.St :=
  (MobileSidebarWidget.with_currentViewletId (Some id) (fst s),
   with_storage (<[MobileSidebarWidget.LAST_ACTIVE_VIEWLET_KEY := id]> (storage (snd s)))
     (snd s)).

(** The host, if there is one, holds no composite but that of [id]. *)
Definition holdsOnly (id : string) (host : option EmbeddedCompositeHost.t) : Prop :=
  forall h k e, host = Some h -> JsMap.get k (composites h) = Some e -> k = id.

(** The current viewlet and the storage are what they were. *)
Definition keepsViewlet (s s' : MobileSidebarWidget.St) : Prop :=
  MobileSidebarWidget.currentViewletId (fst s') = MobileSidebarWidget.currentViewletId (fst s)
  /\ storage (snd s') = storage (snd s).

(** What [updateActiveButton] does to the button of index [index]: the
    class [checked] is taken off, and put on again when the displayed
    container of that index is the viewlet. *)
Definition markButton (viewContainers : list ViewContainer) (viewletId : string)
    (index : nat) (button : Element) : Element :=
  let cleared := classList_remove "checked" button in
  match viewContainers !! index with
  | Some c => if String.eqb (vc_id c) viewletId then classList_add "checked" cleared
              else cleared
  | None => cleared
  end.

(** The value of a style property of an element. *)
Definition styleOf (d : Dom.t) (x : ElemRef) (property : string) : option string :=
  match d !! x with
  | Some e => style e !! property
  | None => None
  end.


(** The document [d'] is [d] with other classes on some elements. *)
Definition reclassed (d d' : Dom.t) : Prop :=
  List.length d' = List.length d
  /\ forall x e', d' !! x = Some e' ->
       exists e, d !! x = Some e /\ e' = set_className (className e') e.

(** The three elements of the button [b] of the container [c] are in the
    document [d] as [createActivityBar] made them. *)
Definition buttonTree (d : Dom.t) (actionBar b : ElemRef) (c : ViewContainer) : Prop :=
  forall j, j < 3 -> d !! (b + j) = buttonElements actionBar b c !! j.

(** A name that is one class, without white space. *)
Definition oneClass (name : string) : Prop :=
  forallb (fun ch => negb (existsb (Ascii.eqb ch) [" "; "009"; "010"; "012"; "013"]%char))
          (list_ascii_of_string name) = true.

(** The three elements the constructor of the widget makes in a document of
    [n] elements, before it makes the activity bar. *)
Definition widgetElements (parent n : ElemRef) : list Element :=
  [ {| className := ["mobile-sidebar-widget"]; elemId := "";
       style := <["height" := "100%"]>
                  (<["width" := "100%"]>
                     (<["flex-direction" := "column"]> (<["display" := "flex"]> ∅)));
       attributes := ∅; parentElement := Some parent; children := [n + 1; n + 2];
       innerHTML := ""; listeners := [] |};
    {| className := ["mobile-sidebar-activity-bar"]; elemId := ""; style := ∅;
       attributes := ∅; parentElement := Some n; children := [];
       innerHTML := ""; listeners := [] |};
    {| className := ["mobile-sidebar-content"]; elemId := "";
       style := <["flex-basis" := "0%"]> (<["flex-shrink" := "1"]> (<["flex-grow" := "1"]> ∅));
       attributes := ∅; parentElement := Some n; children := [];
       innerHTML := ""; listeners := [] |} ].

(** The widget the constructor makes in a document of [n] elements. *)
Definition newWidget (n : ElemRef) : MobileSidebarWidget.t :=
  {| MobileSidebarWidget.container := n;
     MobileSidebarWidget.activityBarContainer := n + 1;
     MobileSidebarWidget.contentContainer := n + 2;
     MobileSidebarWidget.currentViewletId := None;
     MobileSidebarWidget.embeddedHost := None |}.

(** Unfolding the monad of the host, of the widget, and the projections of
    the world. *)
Ltac norm :=
  cbv beta iota delta [fst snd bind ret gets modify getH getW modH modW modDom].

Ltac proj :=
  cbn [trace dom stores storage with_trace with_dom with_stores with_storage].

Ltac wnorm :=
  cbv beta iota delta
    [fst snd bind ret gets modify MobileSidebarWidget.getT MobileSidebarWidget.getW
     MobileSidebarWidget.modT MobileSidebarWidget.modW MobileSidebarWidget.modDom].

(** ** The map *)

Section JsMapFacts.
Context {V : Type}.
Implicit Types (m : JsMap.t V) (k : string) (v : V).

Lemma get_set_eq m k v : JsMap.get k (JsMap.set k v m) = Some v.
Proof.
  induction m as [|[k' v'] m IH]; simpl.
  - now rewrite String.eqb_refl.
  - destruct (String.eqb k' k) eqn:E; simpl; rewrite E; auto.
Qed.

Lemma get_set_ne m k k' v : k ≠ k' -> JsMap.get k' (JsMap.set k v m) = JsMap.get k' m.
Proof.
  intros Hne. induction m as [|[k0 v0] m IH]; simpl.
  - destruct (String.eqb_spec k k'); congruence.
  - destruct (String.eqb_spec k0 k) as [->|]; simpl.
    + destruct (String.eqb_spec k k'); congruence.
    + now rewrite IH.
Qed.

Lemma get_delete_eq m k : JsMap.get k (JsMap.delete k m) = None.
Proof.
  induction m as [|[k' v'] m IH]; simpl; auto.
  destruct (String.eqb k' k) eqn:E; simpl; rewrite ?E; auto.
Qed.

Lemma get_delete_ne m k k' : k ≠ k' -> JsMap.get k' (JsMap.delete k m) = JsMap.get k' m.
Proof.
  intros Hne. induction m as [|[k0 v0] m IH]; simpl; auto.
  destruct (String.eqb_spec k0 k) as [->|]; simpl.
  - destruct (String.eqb_spec k k'); congruence.
  - now rewrite IH.
Qed.

Lemma get_in_values m k v : JsMap.get k m = Some v -> In v (JsMap.values m).
Proof.
  induction m as [|[k' v'] m IH]; simpl; [discriminate|].
  destruct (String.eqb k' k); [intros [= ->]; now left | right; auto].
Qed.
End JsMapFacts.

(** ** The guard against concurrent creation *)

(** The guard at the head of [openComposite]. *)
Lemma guarded_while_creating (env : Env) (compositeId : string) (h : t) (w : World) :
  compositeId ∈ creatingComposites h ->
  openComposite_begin env compositeId (h, w) = (Ret (Done None), (h, w))
  /\ openComposite env compositeId (h, w) = (Ret None, (h, w)).
Proof.
  intros Hin.
  assert (Hb : openComposite_begin env compositeId (h, w) = (Ret (Done None), (h, w))).
  { unfold openComposite_begin, bind, getH, gets. simpl.
    now rewrite bool_decide_eq_true_2. }
  split; [exact Hb|].
  unfold openComposite, bind. now rewrite Hb.
Qed.

(** C6.  A call of [openComposite] for an id that is in the creating set
    returns [undefined] at once and leaves the host, the DOM, the stores and
    the trace of foreign calls as they were: nothing is hidden, nothing is
    instantiated and the composites map is not touched. *)
Theorem openComposite_while_creating (env : Env) (compositeId : string) (h : t) (w : World) :
  compositeId ∈ creatingComposites h ->
  openComposite_begin env compositeId (h, w) = (Ret (Done None), (h, w))
  /\ openComposite env compositeId (h, w) = (Ret None, (h, w)).
Proof.
  intros Hin.
  assert (Hguard : bool_decide (compositeId ∈ creatingComposites h) = true).
  { now apply bool_decide_eq_true_2. }
  assert (Hb : openComposite_begin env compositeId (h, w) = (Ret (Done None), (h, w))).
  { unfold openComposite_begin. norm. now rewrite Hguard. }
  split; [exact Hb|].
  unfold openComposite. norm. now rewrite Hb.
Qed.

(** While the first call for "explorer" waits for its composite, a second
    call for "explorer" is turned away. *)
Lemma openComposite_while_creating_witness :
  "explorer" ∈ creatingComposites (fst Scene.explorerPending)
  /\ openComposite Scene.calm "explorer" Scene.explorerPending
     = (Ret None, Scene.explorerPending).
Proof.
  assert (H : "explorer" ∈ creatingComposites (fst Scene.explorerPending)).
  { apply (bool_decide_unpack _). vm_compute. exact I. }
  split; [exact H|].
  exact (proj2 (openComposite_while_creating Scene.calm "explorer"
                  (fst Scene.explorerPending) (snd Scene.explorerPending) H)).
Defined.

(** ** The DOM *)

Section DomFacts.
Implicit Types (d : Dom.t) (r p : ElemRef) (f : Element -> Element).

Lemma lookup_update d r r' f :
  Dom.update r f d !! r' = if decide (r = r') then f <$> d !! r' else d !! r'.
Proof. unfold Dom.update. rewrite list_lookup_alter. repeat case_decide; subst; done. Qed.

Lemma length_update d r f : List.length (Dom.update r f d) = List.length d.
Proof. apply length_alter. Qed.

Lemma parentOf_update d r r' f :
  (forall e, parentElement (f e) = parentElement e) ->
  Dom.parentOf (Dom.update r f d) r' = Dom.parentOf d r'.
Proof.
  intros Hf. unfold Dom.parentOf. rewrite lookup_update.
  destruct (decide (r = r')); [|done].
  destruct (d !! r'); simpl; auto.
Qed.

Lemma parentOf_update_parent d r r' q :
  Dom.parentOf (Dom.update r (set_parentElement q) d) r'
  = if decide (r = r') then match d !! r' with Some _ => q | None => None end
    else Dom.parentOf d r'.
Proof.
  unfold Dom.parentOf. rewrite lookup_update.
  destruct (decide (r = r')); [|done].
  destruct (d !! r'); simpl; auto.
Qed.

Lemma parentOf_remove d r r' :
  Dom.parentOf (Dom.remove r d) r' = if decide (r = r') then None else Dom.parentOf d r'.
Proof.
  unfold Dom.remove. destruct (Dom.parentOf d r) as [p|] eqn:Hp.
  - rewrite parentOf_update_parent. destruct (decide (r = r')).
    + now destruct (_ !! r').
    + now apply parentOf_update.
  - destruct (decide (r = r')); congruence.
Qed.

Lemma length_remove d r : List.length (Dom.remove r d) = List.length d.
Proof.
  unfold Dom.remove. destruct (Dom.parentOf d r); [|done].
  now rewrite !length_update.
Qed.

Lemma displayOf_update d r r' f :
  (forall e, style (f e) = style e) ->
  Dom.displayOf (Dom.update r f d) r' = Dom.displayOf d r'.
Proof.
  intros Hf. unfold Dom.displayOf. rewrite lookup_update.
  destruct (decide (r = r')); [|done].
  destruct (d !! r'); simpl; now rewrite ?Hf.
Qed.

Lemma displayOf_remove d r r' : Dom.displayOf (Dom.remove r d) r' = Dom.displayOf d r'.
Proof.
  unfold Dom.remove. destruct (Dom.parentOf d r); [|done].
  now rewrite !displayOf_update.
Qed.

Lemma displayOf_set_display d r r' decl v :
  longhands decl = [("display", v)] ->
  Dom.displayOf (Dom.update r (set_style decl) d) r'
  = if decide (r = r') then match d !! r' with Some _ => Some v | None => None end
    else Dom.displayOf d r'.
Proof.
  intros Hl. unfold Dom.displayOf. rewrite lookup_update.
  destruct (decide (r = r')); [|done].
  destruct (d !! r'); simpl; [|done]. rewrite Hl. apply lookup_insert_eq.
Qed.

Lemma displayOf_set_none d r r' :
  Dom.displayOf (Dom.update r (set_style DisplayNone) d) r'
  = if decide (r = r') then match d !! r' with Some _ => Some "none" | None => None end
    else Dom.displayOf d r'.
Proof. now apply displayOf_set_display. Qed.

Lemma displayOf_set_block d r r' :
  Dom.displayOf (Dom.update r (set_style DisplayBlock) d) r'
  = if decide (r = r') then match d !! r' with Some _ => Some "block" | None => None end
    else Dom.displayOf d r'.
Proof. now apply displayOf_set_display. Qed.

Lemma displayOf_set_height d r r' :
  Dom.displayOf (Dom.update r (set_style HeightFull) d) r' = Dom.displayOf d r'.
Proof.
  unfold Dom.displayOf. rewrite lookup_update.
  destruct (decide (r = r')); [|done].
  destruct (d !! r'); simpl; [now apply lookup_insert_ne|done].
Qed.
End DomFacts.

(** ** Disposable stores *)

Section StoreFacts.
Implicit Types (w : World) (r : StoreRef).

Lemma dom_disposeStore w r : dom (disposeStore r w) = dom w.
Proof. unfold disposeStore. destruct (stores w !! r) as [[[] ?]|]; done. Qed.

Lemma length_stores_disposeStore w r :
  List.length (stores (disposeStore r w)) = List.length (stores w).
Proof.
  unfold disposeStore. destruct (stores w !! r) as [[[] ?]|]; simpl; auto.
  apply length_insert.
Qed.

(** Disposing a store adds the disposal of what it held, when it was not
    disposed yet, and nothing otherwise. *)
Lemma trace_disposeStore w r :
  trace (disposeStore r w)
  = trace w ++ match stores w !! r with
               | Some st => if isDisposed st then [] else map EvDispose (toDispose st)
               | None => []
               end.
Proof.
  unfold disposeStore. destruct (stores w !! r) as [[[] ?]|]; simpl;
    now rewrite ?app_nil_r.
Qed.

Lemma storeDisposed_disposeStore_eq w r :
  r < List.length (stores w) -> storeDisposed (disposeStore r w) r = true.
Proof.
  intros Hr. unfold disposeStore, storeDisposed.
  destruct (stores w !! r) as [[[] ?]|] eqn:E; simpl.
  - now rewrite E.
  - now rewrite list_lookup_insert_eq.
  - apply lookup_ge_None in E. lia.
Qed.

Lemma storeDisposed_disposeStore_ne w r r' :
  r ≠ r' -> storeDisposed (disposeStore r w) r' = storeDisposed w r'.
Proof.
  intros Hne. unfold disposeStore, storeDisposed.
  destruct (stores w !! r) as [[[] ?]|] eqn:E; simpl; auto.
  now rewrite list_lookup_insert_ne.
Qed.

Lemma storeDisposed_disposeStore_mono w r r' :
  storeDisposed w r' = true -> storeDisposed (disposeStore r w) r' = true.
Proof.
  intros H. destruct (decide (r = r')) as [->|Hne].
  - apply storeDisposed_disposeStore_eq.
    unfold storeDisposed in H. destruct (stores w !! r') eqn:E; [|done].
    now apply lookup_lt_Some in E.
  - now rewrite storeDisposed_disposeStore_ne.
Qed.

Lemma lookup_stores_disposeStore_ne w r r' :
  r ≠ r' -> stores (disposeStore r w) !! r' = stores w !! r'.
Proof.
  intros Hne. unfold disposeStore.
  destruct (stores w !! r) as [[[] ?]|] eqn:E; simpl; auto.
  now rewrite list_lookup_insert_ne.
Qed.

Lemma trace_disposeStore_heldBy w r :
  trace (disposeStore r w) = trace w ++ map EvDispose (heldBy w r).
Proof.
  rewrite trace_disposeStore. unfold heldBy.
  now destruct (stores w !! r) as [[[] ?]|].
Qed.

Lemma heldBy_disposeStore w r r' :
  heldBy (disposeStore r w) r' = if decide (r = r') then [] else heldBy w r'.
Proof.
  unfold heldBy. destruct (decide (r = r')) as [<-|Hne].
  - unfold disposeStore. destruct (stores w !! r) as [[[] ?]|] eqn:E; simpl.
    + now rewrite E.
    + rewrite list_lookup_insert_eq; [done|]. now apply lookup_lt_Some in E.
    + now rewrite E.
  - now rewrite lookup_stores_disposeStore_ne.
Qed.

Lemma heldBy_disposeStore_incl w r r' c :
  In c (heldBy (disposeStore r w) r') -> In c (heldBy w r').
Proof. rewrite heldBy_disposeStore. now case_decide. Qed.

Lemma heldBy_stores w w' r : stores w' = stores w -> heldBy w' r = heldBy w r.
Proof. unfold heldBy. now intros ->. Qed.

Lemma heldBy_disposed w r : storeDisposed w r = true -> heldBy w r = [].
Proof.
  unfold storeDisposed, heldBy. destruct (stores w !! r) as [[[] ?]|]; done.
Qed.

Lemma disposeAll_returns env t cs :
  (forall t' c, In c cs -> throws env t' (EvDispose c) = false) ->
  disposeAll env t cs = [].
Proof.
  revert t. induction cs as [|c cs IH]; intros t H; [done|].
  simpl. rewrite (H t c) by now left. simpl. apply IH.
  intros t' c' Hc'. apply H. now right.
Qed.

Lemma disposeErrors_heldBy env r w :
  disposeErrors env r w = disposeAll env (trace w) (heldBy w r).
Proof.
  unfold disposeErrors, heldBy. now destruct (stores w !! r) as [[[] ?]|].
Qed.

Lemma disposeErrors_returns env r w :
  disposalReturns env w r -> disposeErrors env r w = [].
Proof. intros H. rewrite disposeErrors_heldBy. now apply disposeAll_returns. Qed.

Lemma disposeErrors_disposed env r w :
  storeDisposed w r = true -> disposeErrors env r w = [].
Proof. intros H. now rewrite disposeErrors_heldBy, heldBy_disposed. Qed.

(** The calls that throw are among the disposals of what the store held. *)
Lemma disposeAll_incl env t cs ev :
  In ev (disposeAll env t cs) -> exists c, ev = EvDispose c /\ In c cs.
Proof.
  revert t. induction cs as [|c cs IH]; intros t; simpl; [done|].
  intros H. apply in_app_or in H. destruct H as [H|H].
  - destruct (throws env t (EvDispose c)); [|done].
    destruct H as [<-|[]]. exists c. auto.
  - destruct (IH _ H) as (c' & -> & Hc'). exists c'. auto.
Qed.

Lemma disposalReturns_stores env w w' r :
  stores w' = stores w -> disposalReturns env w r -> disposalReturns env w' r.
Proof. intros E H t c Hc. apply H. now rewrite <- (heldBy_stores w w'). Qed.

Lemma disposalReturns_disposeStore env w r r' :
  disposalReturns env w r' -> disposalReturns env (disposeStore r w) r'.
Proof. intros H t c Hc. apply H. now apply heldBy_disposeStore_incl in Hc. Qed.
End StoreFacts.

(** ** Running the methods of the host *)

Section HostRuns.
Variable env : Env.
Implicit Types (h : t) (w : World).

Lemma call_run ev h w :
  call env ev (h, w)
  = (if throws env (trace w) ev then Exn (Thrown ev) else Ret tt,
     (h, with_trace (trace w ++ [ev]) w)).
Proof. unfold call. simpl. now destruct (throws env (trace w) ev). Qed.

(** [store.dispose()]: what it returns or throws, and the world it
    leaves. *)
Lemma storeDispose_run r h w :
  storeDispose env r (h, w)
  = (match disposeErrors env r w with
     | [] => Ret tt
     | [ev] => Exn (Thrown ev)
     | evs => Exn (Aggregate evs)
     end, (h, disposeStore r w)).
Proof.
  unfold storeDispose. cbn [fst snd].
  now destruct (disposeErrors env r w) as [|ev [|ev' evs]].
Qed.

Lemma storeDispose_returns r h w :
  disposeErrors env r w = [] ->
  storeDispose env r (h, w) = (Ret tt, (h, disposeStore r w)).
Proof. intros H. now rewrite storeDispose_run, H. Qed.

Lemma storeDispose_state r s :
  snd (storeDispose env r s) = (fst s, disposeStore r (snd s)).
Proof. destruct s as [h w]. now rewrite storeDispose_run. Qed.

(** A store that holds one disposable throws what its disposal throws. *)
Lemma storeDispose_single r c h w :
  heldBy w r = [c] ->
  storeDispose env r (h, w)
  = (if throws env (trace w) (EvDispose c) then Exn (Thrown (EvDispose c)) else Ret tt,
     (h, disposeStore r w)).
Proof.
  intros H. rewrite storeDispose_run, disposeErrors_heldBy, H. simpl.
  now destruct (throws env (trace w) (EvDispose c)).
Qed.

(** One turn of the loop of [dispose], when [setVisible] and the disposal
    of the store return. *)
Lemma disposeEntry_run e h w :
  throws env (trace w) (EvSetVisible (Entry.composite e) false) = false ->
  disposalReturns env w (Entry.disposables e) ->
  disposeEntry env e (h, w)
  = (Ret tt,
     (h, let w1 := disposeStore (Entry.disposables e)
                     (with_trace (trace w ++ [EvSetVisible (Entry.composite e) false]) w) in
         with_dom (Dom.remove (Entry.container e) (dom w1)) w1)).
Proof.
  intros H Hd. unfold disposeEntry, bind. rewrite call_run, H.
  rewrite storeDispose_returns; [reflexivity|].
  apply disposeErrors_returns. now apply (disposalReturns_stores env w).
Qed.
End HostRuns.

Section DomChildren.
Implicit Types (d : Dom.t) (r q x : ElemRef).

Lemma childrenOf_update d r q (f : Element -> Element) :
  (forall e, children (f e) = children e) ->
  Dom.childrenOf (Dom.update r f d) q = Dom.childrenOf d q.
Proof.
  intros Hf. unfold Dom.childrenOf. rewrite lookup_update.
  case_decide; [|done]. destruct (d !! q); simpl; auto.
Qed.

Lemma childrenOf_update_shrink d r q x (f : Element -> Element) :
  (forall e, x ∉ children e -> x ∉ children (f e)) ->
  x ∉ Dom.childrenOf d q -> x ∉ Dom.childrenOf (Dom.update r f d) q.
Proof.
  intros Hf. unfold Dom.childrenOf. rewrite lookup_update.
  destruct (decide (r = q)); [|done].
  destruct (d !! q); simpl; auto.
Qed.

Lemma childrenOf_remove_shrink d r q x :
  x ∉ Dom.childrenOf d q -> x ∉ Dom.childrenOf (Dom.remove r d) q.
Proof.
  intros H. unfold Dom.remove. destruct (Dom.parentOf d r); [|done].
  apply childrenOf_update_shrink; [done|].
  apply childrenOf_update_shrink; [|done].
  intros el Hel. simpl. rewrite list_elem_of_filter. tauto.
Qed.

(** A removed element is no longer among the children of its parent. *)
Lemma childrenOf_remove_parent d r q :
  Dom.parentOf d r = Some q -> r ∉ Dom.childrenOf (Dom.remove r d) q.
Proof.
  intros H. unfold Dom.remove. rewrite H.
  apply childrenOf_update_shrink; [done|].
  unfold Dom.childrenOf. rewrite lookup_update.
  destruct (decide (q = q)); [|done].
  destruct (d !! q); simpl; [|apply not_elem_of_nil].
  rewrite list_elem_of_filter. tauto.
Qed.
End DomChildren.

Section DisposeLoop.
Variable env : Env.

Lemma forEach_disposeEntry (l : list Entry.t) : forall h w,
  (forall t e, In e l -> throws env t (EvSetVisible (Entry.composite e) false) = false) ->
  (forall e, In e l -> disposalReturns env w (Entry.disposables e)) ->
  exists w' evs,
    forEach (disposeEntry env) l (h, w) = (Ret tt, (h, w'))
    /\ trace w' = trace w ++ evs
    /\ List.length (stores w') = List.length (stores w)
    /\ (forall r, storeDisposed w r = true -> storeDisposed w' r = true)
    /\ (forall r, Dom.parentOf (dom w) r = None -> Dom.parentOf (dom w') r = None)
    /\ (forall q x, x ∉ Dom.childrenOf (dom w) q -> x ∉ Dom.childrenOf (dom w') q)
    /\ (forall r st, stores w !! r = Some st ->
          stores w' !! r = Some st
          \/ (isDisposed st = false -> forall c, In c (toDispose st) -> In (EvDispose c) evs))
    /\ forall e, In e l -> tornDown w w' evs e.
Proof.
  induction l as [|e0 l IH]; intros h w Hq Hret.
  - exists w, []. simpl. rewrite app_nil_r.
    split; [done|]. do 5 (split; [by auto|]). split; [by auto|]. intros e [].
  - set (w0 := with_trace (trace w ++ [EvSetVisible (Entry.composite e0) false]) w).
    set (w1 := disposeStore (Entry.disposables e0) w0).
    set (w2 := with_dom (Dom.remove (Entry.container e0) (dom w1)) w1).
    destruct (IH h w2) as (w' & evs & Hrun & Htr & Hlen & Hmono & Hpar & Hch & Hst & Hall).
    { intros t e He. apply Hq. now right. }
    { intros e He. apply (disposalReturns_stores env w1); [reflexivity|].
      apply disposalReturns_disposeStore.
      apply (disposalReturns_stores env w); [reflexivity|]. apply Hret. now right. }
    assert (Htr1 : trace w2 = trace w ++ EvSetVisible (Entry.composite e0) false
                     :: match stores w !! Entry.disposables e0 with
                        | Some st => if isDisposed st then [] else map EvDispose (toDispose st)
                        | None => []
                        end).
    { unfold w2, w1. simpl. rewrite trace_disposeStore. unfold w0. simpl.
      now rewrite <- app_assoc. }
    assert (Hst1 : forall r st, stores w !! r = Some st ->
              stores w2 !! r = Some st
              \/ (r = Entry.disposables e0 /\
                  (isDisposed st = false -> stores w !! Entry.disposables e0 = Some st))).
    { intros r st Hr. destruct (decide (Entry.disposables e0 = r)) as [<-|Hne].
      - right. auto.
      - left. unfold w2, w1. simpl. rewrite lookup_stores_disposeStore_ne; auto. }
    exists w'. eexists. split; [|split; [|split; [|split; [|split; [|split; [|split]]]]]].
    + simpl. unfold bind at 1.
      rewrite disposeEntry_run by (first [apply Hq|apply Hret]; now left).
      fold w0. fold w1. fold w2. exact Hrun.
    + rewrite Htr, Htr1, <- app_assoc. reflexivity.
    + rewrite Hlen. unfold w2, w1. simpl. now rewrite length_stores_disposeStore.
    + intros r Hr. apply Hmono. unfold w2, w1. simpl.
      change (storeDisposed (disposeStore (Entry.disposables e0) w0) r = true).
      now apply storeDisposed_disposeStore_mono.
    + intros r Hr. apply Hpar. unfold w2. simpl. rewrite parentOf_remove.
      case_decide; [done|]. unfold w1. now rewrite dom_disposeStore.
    + intros q x Hx. apply Hch. unfold w2. simpl. apply childrenOf_remove_shrink.
      unfold w1. now rewrite dom_disposeStore.
    + intros r st Hr. destruct (Hst1 r st Hr) as [H2|[-> HH]].
      * destruct (Hst r st H2) as [H3|H3]; [now left|right].
        intros Hd c Hc. simpl. right. apply in_or_app. right. now apply H3.
      * right. intros Hd c Hc. simpl. right. apply in_or_app. left.
        rewrite (HH Hd), Hd. now apply in_map.
    + intros e [<-|He].
      * unfold tornDown. split; [now left|]. split; [|split; [|split]].
        -- intros Hv. apply Hmono. unfold w2, w1. simpl.
           change (storeDisposed (disposeStore (Entry.disposables e0) w0)
                     (Entry.disposables e0) = true).
           now apply storeDisposed_disposeStore_eq.
        -- intros st Hs Hd c Hc. simpl. right. apply in_or_app. left.
           rewrite Hs, Hd. now apply in_map.
        -- apply Hpar. unfold w2. simpl. rewrite parentOf_remove. now case_decide.
        -- intros q Hq0. apply Hch. unfold w2. simpl.
           apply childrenOf_remove_parent. unfold w1. now rewrite dom_disposeStore.
      * destruct (Hall e He) as (H1 & H2 & H3 & H4 & H5).
        unfold tornDown. split; [|split; [|split; [|split]]].
        -- simpl. right. apply in_or_app. now right.
        -- intros Hv. apply H2. unfold w2, w1. simpl.
           now rewrite length_stores_disposeStore.
        -- intros st Hs Hd c Hc. destruct (Hst1 _ _ Hs) as [Hs2|[Heq HH]].
           ++ simpl. right. apply in_or_app. right. now apply (H3 st).
           ++ simpl. right. apply in_or_app. left.
              rewrite (HH Hd), Hd. now apply in_map.
        -- exact H4.
        -- intros q Hq0.
           destruct (decide (Entry.container e0 = Entry.container e)) as [Heq|Hne].
           ++ apply Hch. unfold w2. simpl. rewrite <- Heq.
              apply childrenOf_remove_parent. unfold w1. rewrite dom_disposeStore.
              now rewrite Heq.
           ++ apply H5. unfold w2. simpl. rewrite parentOf_remove.
              case_decide; [done|]. unfold w1. now rewrite dom_disposeStore.
Qed.
End DisposeLoop.

Lemma truthy_Some a : truthy (Some a) = true <-> a ≠ "".
Proof.
  simpl. destruct (String.eqb_spec a ""); simpl; split; congruence.
Qed.

Lemma truthy_cases o : truthy o = true -> exists a, o = Some a /\ a ≠ "".
Proof.
  destruct o as [a|]; [|discriminate]. intros H. exists a. split; [done|].
  now apply truthy_Some.
Qed.

Section HostSpecs.
Variable env : Env.
Implicit Types (h : t) (w : World) (id : string).

Lemma hideComposite_run id h w :
  hideComposite env id (h, w) =
  match JsMap.get id (composites h) with
  | None => (Ret tt, (h, w))
  | Some e =>
      let ev := EvSetVisible (Entry.composite e) false in
      let w1 := with_trace (trace w ++ [ev]) w in
      if throws env (trace w) ev then (Exn (Thrown ev), (h, w1))
      else (Ret tt,
            (h, with_dom (Dom.update (Entry.container e) (set_style DisplayNone)
                            (dom w1)) w1))
  end.
Proof.
  unfold hideComposite. norm.
  destruct (JsMap.get id (composites h)) as [e|]; [|done].
  rewrite call_run. now destruct (throws env (trace w) _).
Qed.

(** What [hideComposite] leaves behind. *)
Lemma hideComposite_spec id h w :
  exists r w' evs,
    hideComposite env id (h, w) = (r, (h, w'))
    /\ trace w' = trace w ++ evs /\ Forall isShowEvent evs
    /\ stores w' = stores w /\ storage w' = storage w
    /\ List.length (dom w') = List.length (dom w)
    /\ (forall x, Dom.parentOf (dom w') x = Dom.parentOf (dom w) x)
    /\ (forall x, Dom.childrenOf (dom w') x = Dom.childrenOf (dom w) x)
    /\ (quiet env -> r = Ret tt)
    /\ (r = Ret tt ->
        (forall x, Dom.displayOf (dom w) x = Some "none" ->
                   Dom.displayOf (dom w') x = Some "none")
        /\ forall e, JsMap.get id (composites h) = Some e ->
             In (EvSetVisible (Entry.composite e) false) evs
             /\ (Entry.container e < List.length (dom w) ->
                 Dom.displayOf (dom w') (Entry.container e) = Some "none")
             /\ (forall x, x ≠ Entry.container e ->
                 Dom.displayOf (dom w') x = Dom.displayOf (dom w) x)).
Proof.
  rewrite hideComposite_run.
  destruct (JsMap.get id (composites h)) as [e|] eqn:Hget.
  - cbv zeta. destruct (throws env (trace w) _) eqn:Hthrow.
    + eexists _, _, _. split; [reflexivity|]. simpl.
      split; [reflexivity|]. split; [repeat constructor|].
      do 5 (split; [done|]). split; [|done].
      intros Hq. now rewrite (proj1 (Hq _ _)) in Hthrow.
    + eexists _, _, _. split; [reflexivity|]. simpl.
      split; [reflexivity|]. split; [repeat constructor|].
      do 2 (split; [done|]). split; [apply length_update|].
      split; [intros x; now apply parentOf_update|].
      split; [intros x; now apply childrenOf_update|]. split; [done|].
      intros _. split.
      * intros x Hx. rewrite displayOf_set_none. case_decide; [|done].
        subst x. unfold Dom.displayOf in Hx. now destruct (dom w !! _).
      * intros e' [= <-]. split; [now left|]. split.
        -- intros Hv. rewrite displayOf_set_none. case_decide; [|done].
           apply lookup_lt_is_Some in Hv. destruct Hv as [el ->]. done.
        -- intros x Hx. rewrite displayOf_set_none. case_decide; [congruence|done].
  - exists (Ret tt), w, []. rewrite app_nil_r.
    split; [done|]. split; [done|]. split; [constructor|].
    do 5 (split; [done|]). split; [done|]. intros _. split; [done|]. intros e [=].
Qed.

Lemma showComposite_spec id h w e :
  JsMap.get id (composites h) = Some e ->
  exists r w' evs,
    showComposite env id (h, w) = (r, (shownHost r id h, w'))
    /\ trace w' = trace w ++ evs /\ Forall isShowEvent evs
    /\ stores w' = stores w /\ storage w' = storage w
    /\ List.length (dom w') = List.length (dom w)
    /\ (forall x, Dom.parentOf (dom w') x = Dom.parentOf (dom w) x)
    /\ (forall x, Dom.childrenOf (dom w') x = Dom.childrenOf (dom w) x)
    /\ (quiet env -> r = Ret tt)
    /\ (r = Ret tt ->
        In (EvSetVisible (Entry.composite e) true) evs
        /\ In (EvLayout (Entry.composite e) (boundsOf env h)) evs
        /\ (Entry.container e < List.length (dom w) ->
            Dom.displayOf (dom w') (Entry.container e) = Some "block")
        /\ (forall x, x ≠ Entry.container e ->
            Dom.displayOf (dom w) x = Some "none" ->
            Dom.displayOf (dom w') x = Some "none")
        /\ (forall a ea, currentCompositeId h = Some a -> a ≠ "" -> a ≠ id ->
            JsMap.get a (composites h) = Some ea ->
            In (EvSetVisible (Entry.composite ea) false) evs
            /\ (Entry.container ea ≠ Entry.container e ->
                Entry.container ea < List.length (dom w) ->
                Dom.displayOf (dom w') (Entry.container ea) = Some "none"))).
Proof.
  intros Hget.
  (* the composite shown before, hidden first when there is one *)
  set (hide := if truthy (currentCompositeId h)
                    && negb (bool_decide (currentCompositeId h = Some id))
               then hideComposite env (default "" (currentCompositeId h))
               else fun s => (Ret tt, s)).
  assert (Hhide : exists r0 w0 evs0,
    hide (h, w) = (r0, (h, w0))
    /\ trace w0 = trace w ++ evs0 /\ Forall isShowEvent evs0
    /\ stores w0 = stores w /\ storage w0 = storage w
    /\ List.length (dom w0) = List.length (dom w)
    /\ (forall x, Dom.parentOf (dom w0) x = Dom.parentOf (dom w) x)
    /\ (forall x, Dom.childrenOf (dom w0) x = Dom.childrenOf (dom w) x)
    /\ (quiet env -> r0 = Ret tt)
    /\ (r0 = Ret tt ->
        (forall x, Dom.displayOf (dom w) x = Some "none" ->
                   Dom.displayOf (dom w0) x = Some "none")
        /\ forall a ea, currentCompositeId h = Some a -> a ≠ "" -> a ≠ id ->
             JsMap.get a (composites h) = Some ea ->
             In (EvSetVisible (Entry.composite ea) false) evs0
             /\ (Entry.container ea < List.length (dom w) ->
                 Dom.displayOf (dom w0) (Entry.container ea) = Some "none"))).
  { unfold hide.
    destruct (truthy (currentCompositeId h)
              && negb (bool_decide (currentCompositeId h = Some id))) eqn:Hc.
    - destruct (hideComposite_spec (default "" (currentCompositeId h)) h w)
        as (r0 & w0 & evs0 & H1 & H2 & H3 & H4 & H5 & H6 & H7 & H7c & H8 & H9).
      exists r0, w0, evs0. do 9 (split; [done|]).
      intros Hr. destruct (H9 Hr) as [H10 H11]. split; [done|].
      intros a ea Ha _ _ Hea. rewrite Ha in H11. simpl in H11.
      destruct (H11 _ Hea) as (? & ? & ?). done.
    - exists (Ret tt), w, []. rewrite app_nil_r.
      split; [done|]. split; [done|]. split; [constructor|].
      do 5 (split; [done|]). split; [done|]. intros _. split; [done|].
      intros a ea Ha Hne Hne' _. exfalso. rewrite Ha in Hc.
      apply andb_false_iff in Hc. destruct Hc as [Hc|Hc].
      + apply truthy_Some in Hne. congruence.
      + apply negb_false_iff, bool_decide_eq_true in Hc. congruence. }
  destruct Hhide as (r0 & w0 & evs0 & H1 & H2 & H3 & H4 & H5 & H6 & H7 & H7c & H8 & H9).
  unfold showComposite. norm. rewrite Hget.
  fold hide. rewrite H1.
  destruct r0 as [[]|err].
  2:{ exists (Exn err), w0, evs0. do 8 (split; [done|]). split; [done|]. done. }
  destruct (H9 eq_refl) as [Hnone Hprev].
  norm. rewrite !call_run. norm.
  set (d1 := Dom.update (Entry.container e) (set_style HeightFull)
               (Dom.update (Entry.container e) (set_style DisplayBlock) (dom w0))).
  assert (Hd1len : List.length d1 = List.length (dom w)).
  { unfold d1. now rewrite !length_update. }
  assert (Hd1par : forall x, Dom.parentOf d1 x = Dom.parentOf (dom w) x).
  { intros x. unfold d1. rewrite !parentOf_update; auto. }
  assert (Hd1ch : forall x, Dom.childrenOf d1 x = Dom.childrenOf (dom w) x).
  { intros x. unfold d1. rewrite !childrenOf_update; auto. }
  assert (Hd1self : Entry.container e < List.length (dom w) ->
                    Dom.displayOf d1 (Entry.container e) = Some "block").
  { intros Hv. unfold d1. rewrite displayOf_set_height, displayOf_set_block.
    case_decide; [|done]. rewrite <- H6 in Hv.
    apply lookup_lt_is_Some in Hv. now destruct Hv as [el ->]. }
  assert (Hd1other : forall x, x ≠ Entry.container e ->
                     Dom.displayOf d1 x = Dom.displayOf (dom w0) x).
  { intros x Hx. unfold d1. rewrite displayOf_set_height, displayOf_set_block.
    case_decide; [congruence|done]. }
  cbn [trace with_trace with_dom dom].
  destruct (throws env (trace w0) (EvSetVisible (Entry.composite e) true)) eqn:T1.
  { eexists (Exn _), _, _. split; [reflexivity|]. cbn.
    split; [rewrite H2, <- app_assoc; reflexivity|].
    split; [apply Forall_app; split; [done|repeat constructor]|].
    do 5 (split; [done|]). split; [|done].
    intros Hq. now rewrite (proj1 (Hq _ _)) in T1. }
  destruct (throws env _ (EvLayout _ _)) eqn:T2.
  { eexists (Exn _), _, _. split; [reflexivity|]. cbn.
    split; [rewrite H2, <- !app_assoc; reflexivity|].
    split; [apply Forall_app; split; [done|repeat constructor]|].
    do 5 (split; [done|]). split; [|done].
    intros Hq. now rewrite (proj2 (Hq _ _)) in T2. }
  eexists (Ret tt), _, _. split; [reflexivity|]. cbn.
  split; [rewrite H2, <- !app_assoc; reflexivity|].
  split; [apply Forall_app; split; [done|repeat constructor]|].
  do 5 (split; [done|]). split; [done|]. intros _.
  split; [apply in_or_app; right; now left|].
  split; [apply in_or_app; right; right; now left|].
  split; [done|]. split.
  - intros x Hx Hn. rewrite Hd1other by done. auto.
  - intros a ea Ha Hne Hne' Hea. destruct (Hprev a ea Ha Hne Hne' Hea) as [Hin Hdisp].
    split; [apply in_or_app; now left|].
    intros Hc Hv. rewrite Hd1other by done. auto.
Qed.
End HostSpecs.

Section Reuse.
Variable env : Env.
Implicit Types (h : t) (w : World) (id : string).

Lemma reuseExisting_run id h w :
  reuseExisting env id (h, w) =
  match JsMap.get id (composites h) with
  | None => (Ret None, (h, w))
  | Some e =>
      if storeDisposed w (Entry.disposables e)
      then (Ret None, (with_composites (JsMap.delete id (composites h)) h, w))
      else match showComposite env id (h, w) with
           | (Ret _, s') => (Ret (Some (Entry.composite e)), s')
           | (Exn err, s') => (Exn err, s')
           end
  end.
Proof.
  unfold reuseExisting. norm.
  destruct (JsMap.get id (composites h)) as [e|]; [|done].
  destruct (storeDisposed w (Entry.disposables e)); [done|]. simpl.
  destruct (showComposite env id (h, w)) as [[[]|err] s']; done.
Qed.

(** The part of [openComposite_begin] that hides the current composite. *)
Lemma hideCurrent_spec h w :
  exists r w' evs,
    (if truthy (currentCompositeId h)
     then hideComposite env (default "" (currentCompositeId h))
     else fun s => (Ret tt, s)) (h, w) = (r, (h, w'))
    /\ trace w' = trace w ++ evs /\ Forall isShowEvent evs
    /\ stores w' = stores w /\ storage w' = storage w
    /\ List.length (dom w') = List.length (dom w)
    /\ (forall x, Dom.parentOf (dom w') x = Dom.parentOf (dom w) x)
    /\ (forall x, Dom.childrenOf (dom w') x = Dom.childrenOf (dom w) x)
    /\ (quiet env -> r = Ret tt)
    /\ (r = Ret tt ->
        (forall x, Dom.displayOf (dom w) x = Some "none" ->
                   Dom.displayOf (dom w') x = Some "none")
        /\ forall a ea, currentCompositeId h = Some a -> a ≠ "" ->
             JsMap.get a (composites h) = Some ea ->
             In (EvSetVisible (Entry.composite ea) false) evs
             /\ (Entry.container ea < List.length (dom w) ->
                 Dom.displayOf (dom w') (Entry.container ea) = Some "none")).
Proof.
  destruct (truthy (currentCompositeId h)) eqn:Hc.
  - destruct (hideComposite_spec env (default "" (currentCompositeId h)) h w)
      as (r0 & w0 & evs0 & H1 & H2 & H3 & H4 & H5 & H6 & H7 & H7c & H8 & H9).
    exists r0, w0, evs0. do 9 (split; [done|]).
    intros Hr. destruct (H9 Hr) as [H10 H11]. split; [done|].
    intros a ea Ha _ Hea. rewrite Ha in H11. simpl in H11.
    destruct (H11 _ Hea) as (? & ? & ?). done.
  - exists (Ret tt), w, []. rewrite app_nil_r.
    split; [done|]. split; [done|]. split; [constructor|].
    do 5 (split; [done|]). split; [done|]. intros _. split; [done|].
    intros a ea Ha Hne _. exfalso. rewrite Ha in Hc.
    apply truthy_Some in Hne. congruence.
Qed.
End Reuse.

(** C1.  When the host holds an entry for the id whose store is not disposed,
    [openComposite] makes no other foreign calls than [setVisible] and
    [layout] (it instantiates nothing) and leaves the composites map as it
    is; and when these calls return, in a host whose ids under creation have
    no entry, it returns the stored composite, shown and current.  A composite
    is therefore instantiated only when no such entry exists. *)
Theorem openComposite_reuses_entry (env : Env) (id : string) (h : t) (w : World) (e : Entry.t) :
  JsMap.get id (composites h) = Some e ->
  storeDisposed w (Entry.disposables e) = false ->
  exists r h' w' evs,
    openComposite env id (h, w) = (r, (h', w'))
    /\ added w w' evs
    /\ Forall isShowEvent evs
    /\ composites h' = composites h
    /\ stores w' = stores w
    /\ (quiet env -> consistent h ->
        r = Ret (Some (Entry.composite e))
        /\ currentCompositeId h' = Some id
        /\ In (EvSetVisible (Entry.composite e) true) evs
        /\ (Entry.container e < List.length (dom w) ->
            Dom.displayOf (dom w') (Entry.container e) = Some "block")).
Proof.
  intros Hget Hlive. unfold added.
  destruct (decide (id ∈ creatingComposites h)) as [Hin|Hnot].
  { destruct (guarded_while_creating env id h w Hin) as [_ Hrun].
    exists (Ret None), h, w, []. rewrite app_nil_r.
    split; [done|]. split; [done|]. split; [constructor|]. do 2 (split; [done|]).
    intros _ Hc. specialize (Hc _ Hin). congruence. }
  unfold openComposite, openComposite_begin. norm.
  rewrite (bool_decide_eq_false_2 _ Hnot).
  case_bool_decide as Hcur.
  - (* the id is the current one *)
    rewrite reuseExisting_run, Hget, Hlive.
    destruct (showComposite_spec env id h w e Hget)
      as (r & w' & evs & H1 & H2 & H3 & H4 & H5 & H6 & H7 & H7c & H8 & H9).
    rewrite H1. destruct r as [[]|err].
    + exists (Ret (Some (Entry.composite e))), (with_current (Some id) h), w', evs.
      do 5 (split; [done|]). intros _ _.
      destruct (H9 eq_refl) as (? & ? & ? & ?). done.
    + exists (Exn err), h, w', evs. do 5 (split; [done|]).
      intros Hq _. now specialize (H8 Hq).
  - (* another composite, or none, is current *)
    norm.
    destruct (hideCurrent_spec env h w)
      as (r0 & w0 & evs0 & H1 & H2 & H3 & H4 & H5 & H6 & H7 & H7c & H8 & H9).
    rewrite H1. destruct r0 as [[]|err].
    2:{ exists (Exn err), h, w0, evs0. do 5 (split; [done|]).
        intros Hq _. now specialize (H8 Hq). }
    rewrite reuseExisting_run, Hget.
    unfold storeDisposed in *. rewrite H4, Hlive.
    destruct (showComposite_spec env id h w0 e Hget)
      as (r & w' & evs & G1 & G2 & G3 & G4 & G5 & G6 & G7 & G7c & G8 & G9).
    rewrite G1. destruct r as [[]|err].
    + exists (Ret (Some (Entry.composite e))), (with_current (Some id) h), w', (evs0 ++ evs).
      split; [done|]. split; [rewrite G2, H2; now rewrite app_assoc|].
      split; [now apply Forall_app|]. split; [done|]. split; [congruence|].
      intros _ _. destruct (G9 eq_refl) as (? & ? & Hd & ?).
      split; [done|]. split; [done|]. split; [apply in_or_app; now right|].
      intros Hv. apply Hd. congruence.
    + exists (Exn err), h, w', (evs0 ++ evs).
      split; [done|]. split; [rewrite G2, H2; now rewrite app_assoc|].
      split; [now apply Forall_app|]. split; [done|]. split; [congruence|].
      intros Hq _. now specialize (G8 Hq).
Qed.

Section Prepared.
Implicit Types (w : World) (c : CompositeRef) (id : string).

Lemma trace_prepared id c w : trace (prepared id c w) = trace w.
Proof. reflexivity. Qed.

Lemma storage_prepared id c w : storage (prepared id c w) = storage w.
Proof. reflexivity. Qed.

Lemma stores_prepared id c w :
  stores (prepared id c w) = stores w ++ [{| isDisposed := false; toDispose := [c] |}].
Proof.
  unfold prepared, addToStore, allocStore. simpl.
  rewrite alter_app_r_alt by lia. now rewrite Nat.sub_diag.
Qed.

Lemma dom_prepared id c w :
  exists el, dom (prepared id c w) = dom w ++ [el]
             /\ parentElement el = None /\ children el = []
             /\ style el !! "display" = Some "none".
Proof.
  unfold prepared. simpl. unfold Dom.update.
  rewrite !alter_app_r_alt by (rewrite ?length_app, ?length_alter; simpl; lia).
  rewrite Nat.sub_diag. simpl. eexists. split; [reflexivity|]. simpl.
  split; [done|]. split; [done|]. apply lookup_insert_eq.
Qed.

Lemma length_dom_prepared id c w :
  List.length (dom (prepared id c w)) = S (List.length (dom w)).
Proof.
  destruct (dom_prepared id c w) as (el & -> & _). rewrite length_app. simpl. lia.
Qed.

Lemma lookup_dom_prepared id c w x :
  x < List.length (dom w) -> dom (prepared id c w) !! x = dom w !! x.
Proof.
  intros Hx. destruct (dom_prepared id c w) as (el & -> & _). now apply lookup_app_l.
Qed.

Lemma parentOf_prepared_new id c w :
  Dom.parentOf (dom (prepared id c w)) (List.length (dom w)) = None.
Proof.
  destruct (dom_prepared id c w) as (el & -> & Hp & _). unfold Dom.parentOf.
  now rewrite list_lookup_middle.
Qed.

Lemma childrenOf_prepared id c w q :
  List.length (dom w) ∉ Dom.childrenOf (dom w) q ->
  List.length (dom w) ∉ Dom.childrenOf (dom (prepared id c w)) q.
Proof.
  intros H. destruct (dom_prepared id c w) as (el & -> & _ & Hc & _).
  unfold Dom.childrenOf in *. destruct (decide (q < List.length (dom w))).
  - now rewrite lookup_app_l.
  - destruct (decide (q = List.length (dom w))) as [->|].
    + rewrite list_lookup_middle by done. rewrite Hc. apply not_elem_of_nil.
    + rewrite lookup_ge_None_2; [apply not_elem_of_nil|].
      rewrite length_app. simpl. lia.
Qed.
End Prepared.

Section DomAppend.
Implicit Types (d : Dom.t) (p c x : ElemRef).

Lemma length_appendChild d p c : List.length (Dom.appendChild p c d) = List.length d.
Proof. unfold Dom.appendChild. now rewrite !length_update, length_remove. Qed.

Lemma parentOf_appendChild d p c x :
  Dom.parentOf (Dom.appendChild p c d) x
  = if decide (c = x) then match d !! x with Some _ => Some p | None => None end
    else Dom.parentOf d x.
Proof.
  unfold Dom.appendChild. rewrite parentOf_update_parent.
  case_decide as Hc.
  - subst x. rewrite lookup_update.
    assert (Hl : List.length (Dom.remove c d) = List.length d) by apply length_remove.
    case_decide.
    + destruct (Dom.remove c d !! c) eqn:E1, (d !! c) eqn:E2; simpl; try done.
      * apply lookup_lt_Some in E1. apply lookup_ge_None in E2. lia.
      * apply lookup_lt_Some in E2. apply lookup_ge_None in E1. lia.
    + destruct (Dom.remove c d !! c) eqn:E1, (d !! c) eqn:E2; simpl; try done.
      * apply lookup_lt_Some in E1. apply lookup_ge_None in E2. lia.
      * apply lookup_lt_Some in E2. apply lookup_ge_None in E1. lia.
  - rewrite parentOf_update by done. rewrite parentOf_remove. now case_decide.
Qed.

Lemma displayOf_appendChild d p c x :
  Dom.displayOf (Dom.appendChild p c d) x = Dom.displayOf d x.
Proof.
  unfold Dom.appendChild. rewrite !displayOf_update by done. apply displayOf_remove.
Qed.

Lemma remove_orphan d c : Dom.parentOf d c = None -> Dom.remove c d = d.
Proof. intros H. unfold Dom.remove. now rewrite H. Qed.

Lemma childrenOf_appendChild d p c :
  p < List.length d -> Dom.parentOf d c = None ->
  c ∈ Dom.childrenOf (Dom.appendChild p c d) p.
Proof.
  intros Hp Hc. unfold Dom.appendChild. rewrite remove_orphan by done.
  unfold Dom.childrenOf. rewrite !lookup_update.
  apply lookup_lt_is_Some in Hp. destruct Hp as [el Hel].
  case_decide; case_decide; try congruence; subst; rewrite ?Hel; simpl;
    apply elem_of_app; right; apply list_elem_of_singleton; done.
Qed.
End DomAppend.

Section Discarded.
Implicit Types (w : World) (s : StoreRef) (el : ElemRef).

Lemma trace_discarded s el w : trace (discarded s el w) = trace (disposeStore s w).
Proof. reflexivity. Qed.

Lemma stores_discarded s el w : stores (discarded s el w) = stores (disposeStore s w).
Proof. reflexivity. Qed.

Lemma storage_discarded s el w : storage (discarded s el w) = storage w.
Proof.
  unfold discarded, disposeStore. simpl.
  destruct (stores w !! s) as [[[] ?]|]; done.
Qed.

Lemma storeDisposed_discarded s el w :
  s < List.length (stores w) -> storeDisposed (discarded s el w) s = true.
Proof. intros H. now apply storeDisposed_disposeStore_eq. Qed.

Lemma length_dom_discarded s el w :
  List.length (dom (discarded s el w)) = List.length (dom w).
Proof. unfold discarded. simpl. now rewrite length_remove, dom_disposeStore. Qed.

Lemma parentOf_discarded s el w x :
  Dom.parentOf (dom (discarded s el w)) x
  = if decide (el = x) then None else Dom.parentOf (dom w) x.
Proof. unfold discarded. simpl. now rewrite parentOf_remove, dom_disposeStore. Qed.

(** Nothing is removed when the element has no parent. *)
Lemma discarded_orphan s el w :
  Dom.parentOf (dom w) el = None -> discarded s el w = disposeStore s w.
Proof.
  intros H. unfold discarded. rewrite remove_orphan by now rewrite dom_disposeStore.
  now destruct (disposeStore s w).
Qed.

(** The [catch] block of [openComposite]: it returns when the disposal of
    the store does, and throws what the disposal throws before it removes
    the container. *)
Lemma cleanUp_cases env s el h w :
  cleanUp env (Some s) (Some el) (h, w)
  = match disposeErrors env s w with
    | [] => (Ret None, (h, discarded s el w))
    | [ev] => (Exn (Thrown ev), (h, disposeStore s w))
    | evs => (Exn (Aggregate evs), (h, disposeStore s w))
    end.
Proof.
  unfold cleanUp. unfold bind at 1. rewrite storeDispose_run.
  destruct (disposeErrors env s w) as [|ev [|ev' evs]]; [|done|done].
  norm. unfold discarded.
  case_bool_decide as Hp; [done|].
  rewrite remove_orphan; [now destruct (disposeStore s w)|].
  destruct (Dom.parentOf _ el); [|done]. exfalso. apply Hp. eauto.
Qed.

Lemma cleanUp_run env s el h w :
  disposeErrors env s w = [] ->
  cleanUp env (Some s) (Some el) (h, w) = (Ret None, (h, discarded s el w)).
Proof. intros H. now rewrite cleanUp_cases, H. Qed.
End Discarded.

Section Resume.
Variable env : Env.
Implicit Types (h : t) (w : World) (c : CompositeRef) (id : string).

  (** The ways [openComposite] ends once it holds a composite. *)
Lemma resume_composite_cases id c h w :
  let el := List.length (dom w) in
  let s := List.length (stores w) in
  exists res h' w' evs,
    openComposite_resume env id (InstComposite c) (h, w) = (res, (h', w'))
    /\ trace w' = trace w ++ evs
    /\ creatingComposites h' = (creatingComposites h ∖ {[id]})
    /\ container h' = container h
    /\ List.length (stores w') = S s
    /\ (forall x, x < s -> stores w' !! x = stores w !! x)
    /\ List.length (dom w') = S el
    /\ (forall x, x < el -> Dom.parentOf (dom w') x = Dom.parentOf (dom w) x)
    /\ In (EvCreate c el) evs
    /\ ((res = Ret None /\ createThrows env c w
         /\ composites h' = composites h
         /\ currentCompositeId h' = currentCompositeId h
         /\ storeDisposed w' s = true
         /\ Dom.parentOf (dom w') el = None
         /\ In (EvDispose c) evs)
        \/ (~ createThrows env c w /\ ~ quiet env
            /\ composites h' = JsMap.set id (newEntry c w) (composites h)
            /\ currentCompositeId h' = currentCompositeId h
            /\ storeDisposed w' s = true
            /\ In (EvDispose c) evs
            /\ ((res = Ret None
                 /\ Dom.parentOf (dom w') el = None
                 /\ el ∉ Dom.childrenOf (dom w') (container h))
                \/ (res = Exn (Thrown (EvDispose c))
                    /\ (exists t, throws env t (EvDispose c) = true)
                    /\ Dom.parentOf (dom w') el = Some (container h))))
        \/ (res = Ret (Some c) /\ ~ createThrows env c w
            /\ composites h' = JsMap.set id (newEntry c w) (composites h)
            /\ currentCompositeId h' = Some id
            /\ storeDisposed w' s = false
            /\ Dom.parentOf (dom w') el = Some (container h)
            /\ (container h < el -> el ∈ Dom.childrenOf (dom w') (container h))
            /\ Dom.displayOf (dom w') el = Some "block"
            /\ In (EvSetVisible c true) evs
            /\ (forall d, ~ In (EvDispose d) evs)
            /\ (forall a ea, currentCompositeId h = Some a -> a ≠ "" -> a ≠ id ->
                JsMap.get a (composites h) = Some ea ->
                In (EvSetVisible (Entry.composite ea) false) evs
                /\ (Entry.container ea < el ->
                    Dom.displayOf (dom w') (Entry.container ea) = Some "none")))).
Proof.
  intros el s.
  unfold openComposite_resume, try_finally, try_catch, newStore, storeAdd, throw. norm.
  cbn [Dom.createElement].
  change (with_dom _ (with_dom _ (with_dom _ (with_dom _ _)))) with (prepared id c w).
  rewrite !call_run.
  change (dom (addToStore _ _ _)) with (dom w).
  change (trace (prepared id c w)) with (trace w).
  fold el. fold s.
  assert (Hs : stores (prepared id c w) !! s
               = Some {| isDisposed := false; toDispose := [c] |}).
  { rewrite stores_prepared. now apply list_lookup_middle. }
  assert (Hslen : List.length (stores (prepared id c w)) = S s).
  { rewrite stores_prepared, length_app. simpl. unfold s. lia. }
  assert (Hsold : forall x, x < s -> stores (prepared id c w) !! x = stores w !! x).
  { intros x Hx. rewrite stores_prepared. now apply lookup_app_l. }
  assert (Hpold : forall x, x < el ->
            Dom.parentOf (dom (prepared id c w)) x = Dom.parentOf (dom w) x).
  { intros x Hx. unfold Dom.parentOf. now rewrite lookup_dom_prepared. }
  (* what a failure before the entry is stored leaves, [t0] being the calls made *)
  assert (Hfail : forall t0, t0 ≠ [] ->
    let W := with_trace (trace w ++ t0) (prepared id c w) in
    exists w',
      with_dom (Dom.remove el (dom (disposeStore s W))) (disposeStore s W) = disposeStore s W
      /\ cleanUp env (Some s) (Some el) (h, disposeStore s W) = (Ret None, (h, w'))
      /\ trace w' = trace w ++ t0 ++ [EvDispose c]
      /\ List.length (stores w') = S s
      /\ (forall x, x < s -> stores w' !! x = stores w !! x)
      /\ List.length (dom w') = S el
      /\ (forall x, x < el -> Dom.parentOf (dom w') x = Dom.parentOf (dom w) x)
      /\ storeDisposed w' s = true
      /\ Dom.parentOf (dom w') el = None).
  { intros t0 _ W.
    assert (Horph : Dom.parentOf (dom W) el = None) by apply parentOf_prepared_new.
    assert (HW1 : storeDisposed (disposeStore s W) s = true).
    { apply storeDisposed_disposeStore_eq. unfold W. proj. rewrite Hslen. lia. }
    exists (discarded s el (disposeStore s W)). split.
    { exact (discarded_orphan s el W Horph). }
    split.
    { apply cleanUp_run. now apply disposeErrors_disposed. }
    rewrite <- (discarded_orphan s el W Horph).
    split.
    { rewrite trace_discarded, trace_disposeStore, stores_discarded.
      rewrite (discarded_orphan s el W Horph).
      unfold storeDisposed in HW1.
      destruct (stores (disposeStore s W) !! s) as [st|]; [|done].
      rewrite HW1, app_nil_r. rewrite trace_disposeStore.
      unfold W. proj. rewrite Hs. simpl. now rewrite <- app_assoc. }
    split.
    { rewrite stores_discarded, length_stores_disposeStore, stores_discarded,
        length_stores_disposeStore. exact Hslen. }
    split.
    { intros x Hx. rewrite stores_discarded, lookup_stores_disposeStore_ne by lia.
      rewrite stores_discarded, lookup_stores_disposeStore_ne by lia. now apply Hsold. }
    split.
    { rewrite !length_dom_discarded. unfold W. proj. apply length_dom_prepared. }
    split.
    { intros x Hx. rewrite !parentOf_discarded. case_decide; [lia|].
      unfold W. proj. now apply Hpold. }
    split.
    { apply storeDisposed_discarded. rewrite stores_discarded, length_stores_disposeStore.
      unfold W. proj. rewrite Hslen. lia. }
    rewrite parentOf_discarded. now case_decide. }
  destruct (throws env (trace w) (EvCreate c el)) eqn:T1.
  { (* [create] throws *)
    destruct (Hfail [EvCreate c el])
      as (w' & Heq & Hrun & H1 & H2 & H3 & H4 & H5 & H6 & H7); [done|].
    rewrite storeDispose_run.
    destruct (disposeErrors env s _) as [|ev [|ev' evs]]; cbv beta iota;
      rewrite ?Heq, Hrun.
    all: cbv beta iota.
    all: exists (Ret None), (with_creating (creatingComposites h ∖ {[id]}) h), w',
      ([EvCreate c el] ++ [EvDispose c]).
    all: split; [reflexivity|]; split; [exact H1|]; do 6 (split; [done|]).
    all: split; [now left|]; left; do 6 (split; [done || (left; done)|]).
    all: apply in_or_app; right; now left. }
  cbn [trace with_trace].
  destruct (throws env _ (EvUpdateStyles c)) eqn:T2.
  { (* [updateStyles] throws *)
    change (with_trace ((trace w ++ [EvCreate c el]) ++ [EvUpdateStyles c])
              (with_trace (trace w ++ [EvCreate c el]) (prepared id c w)))
      with (with_trace ((trace w ++ [EvCreate c el]) ++ [EvUpdateStyles c]) (prepared id c w)).
    rewrite <- app_assoc. simpl app.
    destruct (Hfail [EvCreate c el; EvUpdateStyles c])
      as (w' & Heq & Hrun & H1 & H2 & H3 & H4 & H5 & H6 & H7); [done|].
    rewrite storeDispose_run.
    destruct (disposeErrors env s _) as [|ev [|ev' evs]]; cbv beta iota;
      rewrite ?Heq, Hrun.
    all: cbv beta iota.
    all: exists (Ret None), (with_creating (creatingComposites h ∖ {[id]}) h), w',
      ([EvCreate c el; EvUpdateStyles c] ++ [EvDispose c]).
    all: split; [reflexivity|]; split; [exact H1|]; do 6 (split; [done|]).
    all: split; [now left|]; left; do 6 (split; [done || (right; done)|]).
    all: apply in_or_app; right; now left. }
  (* the entry is stored and shown *)
  norm.
  change (with_trace ((trace w ++ [EvCreate c el]) ++ [EvUpdateStyles c])
            (with_trace (trace w ++ [EvCreate c el]) (prepared id c w)))
    with (with_trace ((trace w ++ [EvCreate c el]) ++ [EvUpdateStyles c]) (prepared id c w)).
  rewrite <- app_assoc. simpl app.
  set (W := with_trace (trace w ++ [EvCreate c el; EvUpdateStyles c]) (prepared id c w)).
  change (dom W) with (dom (prepared id c w)).
  set (W2 := with_dom (Dom.appendChild (container h) el (dom (prepared id c w))) W).
  set (h1 := with_composites (JsMap.set id (newEntry c w) (composites h)) h).
  change {| Entry.composite := c; Entry.container := el; Entry.disposables := s |}
    with (newEntry c w).
  fold h1.
  assert (Hnot : ~ createThrows env c w).
  { unfold createThrows. fold el. intros [H|H]; congruence. }
  assert (Hget1 : JsMap.get id (composites h1) = Some (newEntry c w)).
  { apply get_set_eq. }
  destruct (showComposite_spec env id h1 W2 (newEntry c w) Hget1)
    as (r & w3 & evs & G1 & G2 & G3 & G4 & G5 & G6 & G7 & G7c & G8 & G9).
  rewrite G1.
  assert (HW2len : List.length (dom W2) = S el).
  { unfold W2. proj. rewrite length_appendChild. apply length_dom_prepared. }
  assert (HW2par : forall x, x < el -> Dom.parentOf (dom W2) x = Dom.parentOf (dom w) x).
  { intros x Hx. unfold W2. proj. rewrite parentOf_appendChild.
    case_decide; [lia|]. now apply Hpold. }
  assert (HW2new : Dom.parentOf (dom W2) el = Some (container h)).
  { unfold W2. proj. rewrite parentOf_appendChild. case_decide; [|done].
    destruct (dom_prepared id c w) as (x & -> & _). now rewrite list_lookup_middle. }
  destruct r as [[]|err].
  - (* shown *)
    destruct (G9 eq_refl) as (S1 & S2 & S3 & S4 & S5).
    exists (Ret (Some c)),
      (with_creating (creatingComposites h ∖ {[id]}) (with_current (Some id) h1)),
      w3, ([EvCreate c el; EvUpdateStyles c] ++ evs).
    split; [reflexivity|].
    split; [rewrite G2; unfold W2, W; proj; now rewrite <- app_assoc|].
    do 2 (split; [done|]).
    split; [rewrite G4; exact Hslen|].
    split; [intros x Hx; rewrite G4; now apply Hsold|].
    split; [congruence|].
    split; [intros x Hx; rewrite G7; now apply HW2par|].
    split; [now left|]. right. right.
    split; [done|]. split; [done|]. split; [done|]. split; [done|].
    split; [unfold storeDisposed; rewrite G4; unfold W2, W; proj; now rewrite Hs|].
    split; [rewrite G7; exact HW2new|].
    split.
    { intros Hh. rewrite G7c. unfold W2. proj. apply childrenOf_appendChild.
      - rewrite length_dom_prepared. lia.
      - apply parentOf_prepared_new. }
    split; [apply S3; rewrite HW2len; cbn [newEntry Entry.container]; lia|].
    split; [right; right; exact S1|].
    split.
    { intros d [H|[H|H]]; try discriminate.
      rewrite List.Forall_forall in G3. apply G3 in H. exact H. }
    intros a ea Ha Hne Hne' Hea.
    assert (Hea1 : JsMap.get a (composites h1) = Some ea).
    { unfold h1. simpl. rewrite get_set_ne by congruence. exact Hea. }
    destruct (S5 a ea Ha Hne Hne' Hea1) as [I1 I2].
    split; [right; right; exact I1|].
    intros Hv. apply I2; rewrite ?HW2len; cbn [newEntry Entry.container]; lia.
  - (* showing throws *)
    assert (Hs3 : stores w3 !! s = Some {| isDisposed := false; toDispose := [c] |}).
    { rewrite G4. unfold W2, W. proj. exact Hs. }
    assert (Hheld : heldBy w3 s = [c]) by (unfold heldBy; now rewrite Hs3).
    assert (Hdis : storeDisposed (disposeStore s w3) s = true).
    { apply storeDisposed_disposeStore_eq. rewrite G4. unfold W2, W. proj.
      rewrite Hslen. lia. }
    rewrite cleanUp_cases, disposeErrors_heldBy, Hheld. cbn [disposeAll app].
    destruct (throws env (trace w3) (EvDispose c)) eqn:T3.
    + (* the disposal throws: the container stays *)
      exists (Exn (Thrown (EvDispose c))),
        (with_creating (creatingComposites h ∖ {[id]}) h1),
        (disposeStore s w3), ([EvCreate c el; EvUpdateStyles c] ++ evs ++ [EvDispose c]).
      split; [reflexivity|].
      split.
      { rewrite trace_disposeStore, Hs3, G2. simpl.
        unfold W2, W. proj. now rewrite <- !app_assoc. }
      do 2 (split; [done|]).
      split; [rewrite length_stores_disposeStore, G4; exact Hslen|].
      split.
      { intros x Hx. rewrite lookup_stores_disposeStore_ne by lia.
        rewrite G4. now apply Hsold. }
      split; [rewrite dom_disposeStore; congruence|].
      split.
      { intros x Hx. rewrite dom_disposeStore, G7. now apply HW2par. }
      split; [now left|]. right. left.
      split; [done|].
      split; [intros Hq; now specialize (G8 Hq)|].
      split; [done|]. split; [done|]. split; [exact Hdis|].
      split; [apply in_or_app; right; apply in_or_app; right; now left|].
      right. split; [done|]. split; [eauto|].
      rewrite dom_disposeStore, G7. exact HW2new.
    + exists (Ret None), (with_creating (creatingComposites h ∖ {[id]}) h1),
        (discarded s el w3), ([EvCreate c el; EvUpdateStyles c] ++ evs ++ [EvDispose c]).
      split; [reflexivity|].
      split.
      { rewrite trace_discarded, trace_disposeStore, Hs3, G2. simpl.
        unfold W2, W. proj. now rewrite <- !app_assoc. }
      do 2 (split; [done|]).
      split; [rewrite stores_discarded, length_stores_disposeStore, G4; exact Hslen|].
      split.
      { intros x Hx. rewrite stores_discarded, lookup_stores_disposeStore_ne by lia.
        rewrite G4. now apply Hsold. }
      split; [rewrite length_dom_discarded; congruence|].
      split.
      { intros x Hx. rewrite parentOf_discarded. case_decide; [lia|].
        rewrite G7. now apply HW2par. }
      split; [now left|]. right. left.
      split; [done|].
      split; [intros Hq; now specialize (G8 Hq)|].
      split; [done|]. split; [done|]. split; [exact Hdis|].
      split; [apply in_or_app; right; apply in_or_app; right; now left|].
      left. split; [done|].
      split; [rewrite parentOf_discarded; now case_decide|].
      unfold discarded. simpl. apply childrenOf_remove_parent.
      rewrite dom_disposeStore, G7. exact HW2new.
Qed.
End Resume.

Section Begin.
Variable env : Env.
Implicit Types (h : t) (w : World) (c : CompositeRef) (id : string).

Lemma openComposite_begin_run id h w :
  id ∉ creatingComposites h ->
  openComposite_begin env id (h, w) =
  if bool_decide (currentCompositeId h = Some id) then
    match reuseExisting env id (h, w) with
    | (Exn err, s) => (Exn err, s)
    | (Ret (Some c), s) => (Ret (Done (Some c)), s)
    | (Ret None, s) => lookUp env id s
    end
  else lookUp env id (h, w).
Proof.
  intros Hnot. unfold openComposite_begin, lookUp, hideCurrent, createComposite. norm.
  rewrite (bool_decide_eq_false_2 _ Hnot).
  case_bool_decide.
  - destruct (reuseExisting env id (h, w)) as [[[c|]|err] [h0 w0]]; try done.
    destruct (truthy (currentCompositeId h0)).
    + destruct (hideComposite env _ (h0, w0)) as [[[]|err] [h1 w1]]; [|done].
      destruct (reuseExisting env id (h1, w1)) as [[[c|]|err] [h2 w2]]; try done.
      norm. now destruct (getPaneComposite env _ id).
    + destruct (reuseExisting env id (h0, w0)) as [[[c|]|err] [h2 w2]]; try done.
      norm. now destruct (getPaneComposite env _ id).
  - destruct (truthy (currentCompositeId h)).
    + destruct (hideComposite env _ (h, w)) as [[[]|err] [h1 w1]]; [|done].
      destruct (reuseExisting env id (h1, w1)) as [[[c|]|err] [h2 w2]]; try done.
      norm. now destruct (getPaneComposite env _ id).
    + destruct (reuseExisting env id (h, w)) as [[[c|]|err] [h2 w2]]; try done.
      norm. now destruct (getPaneComposite env _ id).
Qed.
End Begin.

Section Switch.
Variable env : Env.
Implicit Types (h : t) (w : World) (c : CompositeRef) (id : string).

Lemma resume_without_composite id p h w :
  p = InstThrows \/ p = InstUndefined ->
  openComposite_resume env id p (h, w)
  = (Ret None, (with_creating (creatingComposites h ∖ {[id]}) h, w)).
Proof. intros [-> | ->]; reflexivity. Qed.

(** Creating a composite while another one is current. *)
Lemma create_while_current id a ea h1 w0 p r h' w' :
  currentCompositeId h1 = Some a -> a ≠ id ->
  JsMap.get a (composites h1) = Some ea ->
  Entry.container ea < List.length (dom w0) ->
  Entry.disposables ea < List.length (stores w0) ->
  openComposite_resume env id p (h1, w0) = (r, (h', w')) ->
  currentCompositeId h' = Some id ->
  JsMap.get a (composites h') = Some ea
  /\ stores w' !! Entry.disposables ea = stores w0 !! Entry.disposables ea
  /\ Dom.parentOf (dom w') (Entry.container ea) = Dom.parentOf (dom w0) (Entry.container ea)
  /\ exists evs, trace w' = trace w0 ++ evs
       /\ (forall c, ~ In (EvDispose c) evs)
       /\ (a ≠ "" -> In (EvSetVisible (Entry.composite ea) false) evs
                     /\ Dom.displayOf (dom w') (Entry.container ea) = Some "none").
Proof.
  intros Hcur Hne Hea Hv1 Hv2 Hrun Hnow.
  destruct p as [| |c].
  - rewrite resume_without_composite in Hrun by auto.
    injection Hrun as <- <- <-. simpl in Hnow. congruence.
  - rewrite resume_without_composite in Hrun by auto.
    injection Hrun as <- <- <-. simpl in Hnow. congruence.
  - destruct (resume_composite_cases env id c h1 w0)
      as (r1 & h1' & w1' & evs & R1 & R2 & R3 & R4 & R5 & R6 & R7 & R8 & R9 & Hcases).
    rewrite R1 in Hrun. injection Hrun as <- <- <-.
    destruct Hcases as [(_ & _ & _ & C & _)|[(_ & _ & _ & C & _)|Hok]];
      [congruence|congruence|].
    destruct Hok as (_ & _ & S1 & _ & _ & _ & _ & _ & _ & S2 & S3).
    split; [rewrite S1, get_set_ne by congruence; exact Hea|].
    split; [now apply R6|]. split; [now apply R8|].
    exists evs. split; [done|]. split; [done|].
    intros Hne'. destruct (S3 a ea Hcur Hne' Hne Hea) as [I1 I2]. auto.
Qed.
End Switch.

Lemma show_events_dispose_nothing (evs : list Event) :
  Forall isShowEvent evs -> forall c, ~ In (EvDispose c) evs.
Proof.
  intros H c Hin. rewrite List.Forall_forall in H. exact (H _ Hin).
Qed.

Section SwitchTheorem.
Variable env : Env.

Lemma showComposite_switch id a ea h w h' w' :
  currentCompositeId h = Some a -> a ≠ id ->
  JsMap.get a (composites h) = Some ea ->
  Entry.container ea < List.length (dom w) ->
  (forall e, JsMap.get id (composites h) = Some e ->
             Entry.container e ≠ Entry.container ea) ->
  snd (showComposite env id (h, w)) = (h', w') ->
  currentCompositeId h' = Some id ->
  onlyHidden a ea w h' w'.
Proof.
  intros Hcur Hne Hea Hv Hdist Hrun Hnow.
  destruct (JsMap.get id (composites h)) as [e|] eqn:Hget.
  - destruct (showComposite_spec env id h w e Hget)
      as (r & w1 & evs & H1 & H2 & H3 & H4 & H5 & H6 & H7 & H7c & H8 & H9).
    rewrite H1 in Hrun. simpl in Hrun. injection Hrun as <- <-.
    destruct r as [[]|err]; [|simpl in Hnow; congruence].
    destruct (H9 eq_refl) as (_ & _ & _ & _ & S5).
    split; [exact Hea|]. split; [now rewrite H4|]. split; [apply H7|].
    exists evs. split; [exact H2|]. split; [now apply show_events_dispose_nothing|].
    intros Hne'. destruct (S5 a ea Hcur Hne' Hne Hea) as [I1 I2].
    split; [exact I1|]. apply I2; [|exact Hv]. intros Heq. now apply (Hdist e).
  - unfold showComposite in Hrun. revert Hrun. norm. rewrite Hget. simpl.
    intros [= <- <-]. congruence.
Qed.

Lemma openComposite_switch id a ea h w h' w' :
  currentCompositeId h = Some a -> a ≠ id ->
  JsMap.get a (composites h) = Some ea ->
  Entry.container ea < List.length (dom w) ->
  Entry.disposables ea < List.length (stores w) ->
  (forall e, JsMap.get id (composites h) = Some e ->
             Entry.container e ≠ Entry.container ea) ->
  snd (openComposite env id (h, w)) = (h', w') ->
  currentCompositeId h' = Some id ->
  onlyHidden a ea w h' w'.
Proof.
  intros Hcur Hne Hea Hv1 Hv2 Hdist Hrun Hnow.
  destruct (decide (id ∈ creatingComposites h)) as [Hin|Hnot].
  { destruct (guarded_while_creating env id h w Hin) as [_ E].
    rewrite E in Hrun. simpl in Hrun. injection Hrun as <- <-. congruence. }
  unfold openComposite, bind in Hrun.
  rewrite openComposite_begin_run in Hrun by done.
  rewrite bool_decide_eq_false_2 in Hrun by congruence.
  unfold lookUp, hideCurrent in Hrun. cbn [fst] in Hrun.
  destruct (hideCurrent_spec env h w)
    as (r0 & w0 & evs0 & H1 & H2 & H3 & H4 & H5 & H6 & H7 & H7c & H8 & H9).
  rewrite H1 in Hrun.
  destruct r0 as [[]|err]; [|simpl in Hrun; injection Hrun as <- <-; congruence].
  (* creating the composite, from a host [h1] that differs from [h] by
     the entry of [id] at most *)
  assert (Hcreate : forall h1,
    currentCompositeId h1 = Some a -> location h1 = location h ->
    JsMap.get a (composites h1) = Some ea ->
    snd (let (r, s') :=
           match getPaneComposite env (registryOf (location h)) id with
           | Some d =>
               (Ret (Pending (instantiate env (trace w0) d)),
                (with_creating ({[id]} ∪ creatingComposites h1) h1,
                 with_trace (trace w0 ++ [EvInstantiate d]) w0))
           | None => (Ret (Done None), (h1, w0))
           end in
         match r with
         | Ret (Done v) => ret v s'
         | Ret (Pending p) => openComposite_resume env id p s'
         | Exn e => (Exn e, s')
         end) = (h', w') ->
    onlyHidden a ea w h' w').
  { clear Hrun. intros h1 Hc1 Hl1 Hea1 Hr.
    destruct (getPaneComposite env _ id) as [d|].
    2:{ unfold ret in Hr. simpl in Hr. injection Hr as <- <-. congruence. }
    destruct (openComposite_resume env id _ _) as [r [h2 w2]] eqn:Hres.
    simpl in Hr. injection Hr as <- <-.
    destruct (create_while_current env id a ea
                (with_creating ({[id]} ∪ creatingComposites h1) h1)
                (with_trace (trace w0 ++ [EvInstantiate d]) w0) _ _ _ _ Hc1 Hne Hea1
                ltac:(simpl; rewrite H6; exact Hv1) ltac:(simpl; rewrite H4; exact Hv2)
                Hres Hnow)
      as (K1 & K2 & K3 & evs & K4 & K5 & K6).
    split; [exact K1|]. split; [rewrite K2; simpl; now rewrite H4|].
    split; [rewrite K3; simpl; apply H7|].
    exists (evs0 ++ [EvInstantiate d] ++ evs).
    split; [unfold added; rewrite K4; simpl; rewrite H2, <- !app_assoc; reflexivity|].
    split.
    { intros c Hin. apply in_app_or in Hin. destruct Hin as [Hin|[Hin|Hin]].
      - now apply (show_events_dispose_nothing _ H3 c).
      - discriminate.
      - now apply (K5 c). }
    intros Hne'. destruct (K6 Hne') as [I1 I2].
    split; [|exact I2]. apply in_or_app. right. right. exact I1. }
  rewrite reuseExisting_run in Hrun.
  destruct (JsMap.get id (composites h)) as [e|] eqn:Hget.
  - destruct (storeDisposed w0 (Entry.disposables e)) eqn:Hdis.
    + (* a disposed entry is dropped, and the composite created anew *)
      apply (Hcreate (with_composites (JsMap.delete id (composites h)) h)); try done.
      * simpl. rewrite get_delete_ne by congruence. exact Hea.
      * rewrite <- Hrun. cbn [fst]. now destruct (getPaneComposite env _ id).
    + destruct (showComposite_spec env id h w0 e Hget)
        as (r & w1 & evs & G1 & G2 & G3 & G4 & G5 & G6 & G7 & G7c & G8 & G9).
      rewrite G1 in Hrun.
      destruct r as [[]|err]; simpl in Hrun; injection Hrun as <- <-;
        [|simpl in Hnow; congruence].
      destruct (G9 eq_refl) as (_ & _ & _ & _ & S5).
      split; [exact Hea|]. split; [now rewrite G4, H4|].
      split; [rewrite G7; apply H7|].
      exists (evs0 ++ evs).
      split; [unfold added; rewrite G2, H2, <- app_assoc; reflexivity|].
      split.
      { intros c Hin. apply in_app_or in Hin. destruct Hin as [Hin|Hin].
        - exact (show_events_dispose_nothing _ H3 c Hin).
        - exact (show_events_dispose_nothing _ G3 c Hin). }
      intros Hne'. destruct (S5 a ea Hcur Hne' Hne Hea) as [I1 I2].
      split; [apply in_or_app; now right|].
      apply I2; [|congruence]. intros Heq. now apply (Hdist e).
  - apply (Hcreate h); try done.
    rewrite <- Hrun. cbn [fst]. now destruct (getPaneComposite env _ id).
Qed.
End SwitchTheorem.

(** X26.  When [openComposite] or [showComposite] makes an id current in
    place of another one [a], the entry of [a] stays in the composites map,
    its store is what it was, its container keeps its parent, and nothing is
    disposed; and when [a] is not the empty string, its composite has been
    told [setVisible(false)] and its container has display [none]. *)
Theorem switch_only_hides_previous (env : Env) (id a : string) (ea : Entry.t)
    (h : t) (w : World) (h' : t) (w' : World) :
  currentCompositeId h = Some a -> a ≠ id ->
  JsMap.get a (composites h) = Some ea ->
  Entry.container ea < List.length (dom w) ->
  Entry.disposables ea < List.length (stores w) ->
  (forall e, JsMap.get id (composites h) = Some e ->
             Entry.container e ≠ Entry.container ea) ->
  snd (openComposite env id (h, w)) = (h', w')
  \/ snd (showComposite env id (h, w)) = (h', w') ->
  currentCompositeId h' = Some id ->
  onlyHidden a ea w h' w'.
Proof.
  intros Hcur Hne Hea Hv1 Hv2 Hdist [Hrun|Hrun] Hnow.
  - eapply openComposite_switch; eauto.
  - eapply showComposite_switch; eauto.
Qed.


(** C10.  When [openComposite], from its [await] on, returns a composite, that
    composite is the one instantiated; the element made for it, in which the
    composite created its UI, is stored with it under the id, and its parent
    is the container of the host, among whose children it is.  The container
    of the host is the element given to the constructor, and the call does
    not change it. *)
Theorem created_in_host_container (env : Env) (id : string) (c : CompositeRef)
    (h : t) (w : World) (r : CompositeRef) (h' : t) (w' : World) :
  openComposite_resume env id (InstComposite c) (h, w) = (Ret (Some r), (h', w')) ->
  r = c
  /\ container h' = container h
  /\ (forall el loc w0, container (fst (create el loc w0)) = el)
  /\ exists entry evs,
       JsMap.get id (composites h') = Some entry
       /\ Entry.composite entry = c
       /\ Entry.container entry = List.length (dom w)
       /\ added w w' evs
       /\ In (EvCreate c (Entry.container entry)) evs
       /\ Dom.parentOf (dom w') (Entry.container entry) = Some (container h)
       /\ (container h < List.length (dom w) ->
           Entry.container entry ∈ Dom.childrenOf (dom w') (container h)).
Proof.
  intros Hrun.
  destruct (resume_composite_cases env id c h w)
    as (r1 & h1 & w1 & evs & R1 & R2 & R3 & R4 & R5 & R6 & R7 & R8 & R9 & Hcases).
  rewrite R1 in Hrun. injection Hrun as -> <- <-.
  destruct Hcases as [(C & _)|[(_ & _ & _ & _ & _ & _ & [(C & _)|(C & _)])|C]];
    [discriminate|discriminate|discriminate|].
  destruct C as (C1 & _ & C2 & _ & _ & C3 & C4 & _).
  split; [congruence|]. split; [exact R4|]. split; [reflexivity|].
  exists (newEntry c w), evs.
  split; [rewrite C2; apply get_set_eq|].
  do 2 (split; [reflexivity|]). split; [exact R2|]. split; [exact R9|].
  split; [exact C3|exact C4].
Qed.

(** X27.  [layout] changes nothing in the host, the DOM or the stores, and
    the only foreign call it may make is one [layout], with the dimension it
    was given, on the composite stored under the current id: it makes that
    call when the current id is a non-empty string with an entry in the map,
    and makes no call otherwise. *)
Theorem layout_forwards_to_current (env : Env) (dimension : Dimension) (h : t) (w : World) :
  exists r w',
    layout env dimension (h, w) = (r, (h, w'))
    /\ dom w' = dom w /\ stores w' = stores w /\ storage w' = storage w
    /\ added w w'
         match currentCompositeId h with
         | Some id =>
             if String.eqb id "" then []
             else match JsMap.get id (composites h) with
                  | Some entry => [EvLayout (Entry.composite entry) dimension]
                  | None => []
                  end
         | None => []
         end.
Proof.
  unfold layout, added. norm.
  destruct (currentCompositeId h) as [id|]; simpl.
  - destruct (String.eqb id ""); simpl.
    + exists (Ret tt), w. now rewrite app_nil_r.
    + destruct (JsMap.get id (composites h)) as [entry|].
      * rewrite call_run. eexists _, _. split; [reflexivity|]. done.
      * exists (Ret tt), w. now rewrite app_nil_r.
  - exists (Ret tt), w. now rewrite app_nil_r.
Qed.


(** ** The ids under creation have no entry *)

Section Consistent.
Variable env : Env.
Implicit Types (h : t) (w : World) (id : string).

Lemma consistent_create el loc w : consistent (fst (create el loc w)).
Proof. intros id Hin. simpl in Hin. now apply not_elem_of_empty in Hin. Qed.

Lemma consistent_same h h' :
  composites h' = composites h -> creatingComposites h' = creatingComposites h ->
  consistent h -> consistent h'.
Proof. intros Hc Hs H id. rewrite Hc, Hs. apply H. Qed.

Lemma consistent_delete id h :
  consistent h -> consistent (with_composites (JsMap.delete id (composites h)) h).
Proof.
  intros H id' Hin. simpl in *. destruct (decide (id = id')) as [->|Hne].
  - apply get_delete_eq.
  - rewrite get_delete_ne by done. now apply H.
Qed.

Lemma showComposite_host id h w :
  let h' := fst (snd (showComposite env id (h, w))) in
  composites h' = composites h /\ creatingComposites h' = creatingComposites h.
Proof.
  cbv zeta. destruct (JsMap.get id (composites h)) as [e|] eqn:Hget.
  - destruct (showComposite_spec env id h w e Hget) as (r & w' & evs & H1 & _).
    rewrite H1. simpl. now destruct r.
  - unfold showComposite. norm. now rewrite Hget.
Qed.

Lemma hideCurrent_host h w : fst (snd (hideCurrent env (h, w))) = h.
Proof.
  unfold hideCurrent. cbn [fst].
  destruct (hideCurrent_spec env h w) as (r & w' & evs & H1 & _). now rewrite H1.
Qed.

(** After [reuseExisting], the host is consistent, and when no composite is
    returned the id has no entry. *)
Lemma reuseExisting_host id h w :
  consistent h ->
  let r := reuseExisting env id (h, w) in
  consistent (fst (snd r))
  /\ (fst r = Ret None -> JsMap.get id (composites (fst (snd r))) = None).
Proof.
  intros Hc. cbv zeta. rewrite reuseExisting_run.
  destruct (JsMap.get id (composites h)) as [e|] eqn:Hget; [|done].
  destruct (storeDisposed w (Entry.disposables e)).
  - simpl. split; [now apply consistent_delete|]. intros _. apply get_delete_eq.
  - destruct (showComposite_host id h w) as [H1 H2].
    destruct (showComposite env id (h, w)) as [[[]|err] [h' w']]; simpl in *.
    + split; [now apply (consistent_same h)|discriminate].
    + split; [now apply (consistent_same h)|discriminate].
Qed.

Lemma consistent_lookUp id h w :
  consistent h -> consistent (fst (snd (lookUp env id (h, w)))).
Proof.
  intros Hc. unfold lookUp.
  pose proof (hideCurrent_host h w) as Hh.
  destruct (hideCurrent env (h, w)) as [[[]|err] [h0 w0]]; simpl in Hh; subst h0;
    [|exact Hc].
  destruct (reuseExisting_host id h w0 Hc) as [H1 H2].
  destruct (reuseExisting env id (h, w0)) as [[[c|]|err] [h1 w1]]; simpl in *; try done.
  destruct (getPaneComposite env _ id); simpl; [|done].
  intros id' Hin. simpl in *. apply elem_of_union in Hin. destruct Hin as [Hin|Hin].
  - apply elem_of_singleton in Hin. subst id'. now apply H2.
  - now apply H1.
Qed.

Lemma consistent_begin id h w :
  consistent h -> consistent (fst (snd (openComposite_begin env id (h, w)))).
Proof.
  intros Hc. destruct (decide (id ∈ creatingComposites h)) as [Hin|Hnot].
  - destruct (guarded_while_creating env id h w Hin) as [-> _]. exact Hc.
  - rewrite openComposite_begin_run by done. case_bool_decide.
    + destruct (reuseExisting_host id h w Hc) as [H1 _].
      destruct (reuseExisting env id (h, w)) as [[[c|]|err] [h1 w1]]; simpl in *; try done.
      now apply consistent_lookUp.
    + now apply consistent_lookUp.
Qed.

Lemma consistent_resume id p h w :
  consistent h -> consistent (fst (snd (openComposite_resume env id p (h, w)))).
Proof.
  intros Hc.
  assert (Hless : forall h', composites h' = composites h ->
            creatingComposites h' = creatingComposites h ∖ {[id]} -> consistent h').
  { intros h' Hm Hs id' Hin. rewrite Hs in Hin. rewrite Hm. apply Hc.
    apply elem_of_difference in Hin. tauto. }
  destruct p as [| |c].
  - rewrite resume_without_composite by auto. now apply Hless.
  - rewrite resume_without_composite by auto. now apply Hless.
  - destruct (resume_composite_cases env id c h w)
      as (r & h' & w' & evs & R1 & _ & R3 & _ & _ & _ & _ & _ & _ & Hcases).
    rewrite R1. simpl.
    destruct Hcases as [(_ & _ & Hm & _)|[(_ & _ & Hm & _)|(_ & _ & Hm & _)]].
    + now apply Hless.
    + intros id' Hin. rewrite R3 in Hin. apply elem_of_difference in Hin.
      destruct Hin as [Hin Hne]. rewrite Hm, get_set_ne; [now apply Hc|].
      intros ->. apply Hne. now apply elem_of_singleton.
    + intros id' Hin. rewrite R3 in Hin. apply elem_of_difference in Hin.
      destruct Hin as [Hin Hne]. rewrite Hm, get_set_ne; [now apply Hc|].
      intros ->. apply Hne. now apply elem_of_singleton.
Qed.

(** The invariant holds along a call of [openComposite]. *)
Lemma consistent_openComposite id h w :
  consistent h -> consistent (fst (snd (openComposite env id (h, w)))).
Proof.
  intros Hc. unfold openComposite, bind.
  pose proof (consistent_begin id h w Hc) as Hb.
  destruct (openComposite_begin env id (h, w)) as [[[v|p]|err] [h1 w1]]; simpl in *;
    try done.
  now apply consistent_resume.
Qed.
End Consistent.

(** ** The entries of the map are well formed *)

Section WellFormed.
Variable env : Env.
Implicit Types (h : t) (w : World) (id : string).

Lemma wellFormed_create el loc w :
  wellFormed (fst (create el loc w)) (snd (create el loc w)).
Proof. split; simpl; intros; discriminate. Qed.

Lemma wellFormed_grow h w h' w' :
  composites h' = composites h ->
  List.length (dom w) <= List.length (dom w') ->
  List.length (stores w) <= List.length (stores w') ->
  wellFormed h w -> wellFormed h' w'.
Proof.
  intros Hm Hd Hs [Hv Hn]. unfold wellFormed. rewrite Hm. split; [|exact Hn].
  intros id e He. destruct (Hv id e He). lia.
Qed.

Lemma get_delete_Some {V} (m : JsMap.t V) k k' v :
  JsMap.get k' (JsMap.delete k m) = Some v -> k ≠ k' /\ JsMap.get k' m = Some v.
Proof.
  intros H. destruct (decide (k = k')) as [->|Hne].
  - rewrite get_delete_eq in H. discriminate.
  - rewrite get_delete_ne in H by done. auto.
Qed.

Lemma wellFormed_delete id h w :
  wellFormed h w -> wellFormed (with_composites (JsMap.delete id (composites h)) h) w.
Proof.
  intros [Hv Hn]. split; simpl.
  - intros i e He. apply get_delete_Some in He. destruct He as [_ He]. eauto.
  - intros i j ei ej Hij Hi Hj.
    apply get_delete_Some in Hi. apply get_delete_Some in Hj.
    destruct Hi as [_ Hi]. destruct Hj as [_ Hj]. eauto.
Qed.

(** Storing the entry of a composite created in [w]. *)
Lemma wellFormed_set_new k c h w h' w' :
  composites h' = JsMap.set k (newEntry c w) (composites h) ->
  List.length (dom w') = S (List.length (dom w)) ->
  List.length (stores w') = S (List.length (stores w)) ->
  wellFormed h w -> wellFormed h' w'.
Proof.
  intros Hm Hd Hs [Hv Hn]. unfold wellFormed. rewrite Hm, Hd, Hs. split.
  - intros i e He. destruct (decide (k = i)) as [Hk|Hne].
    + subst i. rewrite get_set_eq in He. injection He as <-. simpl. lia.
    + rewrite get_set_ne in He by done. destruct (Hv i e He). lia.
  - intros i j ei ej Hij Hi Hj.
    destruct (decide (k = i)) as [Hki|Hki], (decide (k = j)) as [Hkj|Hkj].
    + congruence.
    + subst i. rewrite get_set_eq in Hi. rewrite get_set_ne in Hj by done.
      injection Hi as <-. simpl. destruct (Hv j ej Hj). lia.
    + subst j. rewrite get_set_eq in Hj. rewrite get_set_ne in Hi by done.
      injection Hj as <-. simpl. destruct (Hv i ei Hi). lia.
    + rewrite get_set_ne in Hi, Hj by done. eauto.
Qed.

Lemma wellFormed_reuseExisting id h w :
  wellFormed h w ->
  wellFormed (fst (snd (reuseExisting env id (h, w)))) (snd (snd (reuseExisting env id (h, w)))).
Proof.
  intros Hwf. rewrite reuseExisting_run.
  destruct (JsMap.get id (composites h)) as [e|] eqn:Hget; [|exact Hwf].
  destruct (storeDisposed w (Entry.disposables e)).
  - now apply wellFormed_delete.
  - destruct (showComposite_spec env id h w e Hget)
      as (r & w' & evs & H1 & _ & _ & H4 & _ & H6 & _).
    rewrite H1. assert (Hwf' : wellFormed (shownHost r id h) w').
    { apply (wellFormed_grow h w); [now destruct r|lia|now rewrite H4|exact Hwf]. }
    now destruct r as [[]|].
Qed.

Lemma wellFormed_lookUp id h w :
  wellFormed h w ->
  wellFormed (fst (snd (lookUp env id (h, w)))) (snd (snd (lookUp env id (h, w)))).
Proof.
  intros Hwf. unfold lookUp, hideCurrent. cbn [fst].
  destruct (hideCurrent_spec env h w)
    as (r0 & w0 & evs0 & H1 & _ & _ & H4 & _ & H6 & _).
  rewrite H1.
  assert (Hwf0 : wellFormed h w0).
  { apply (wellFormed_grow h w); [done|lia|now rewrite H4|exact Hwf]. }
  destruct r0 as [[]|err]; [|exact Hwf0].
  pose proof (wellFormed_reuseExisting id h w0 Hwf0) as Hr.
  destruct (reuseExisting env id (h, w0)) as [[[c|]|err] [h1 w1]]; simpl in *; try done.
  destruct (getPaneComposite env _ id); simpl; [|done].
  now apply (wellFormed_grow h1 w1).
Qed.

Lemma wellFormed_begin id h w :
  wellFormed h w ->
  wellFormed (fst (snd (openComposite_begin env id (h, w))))
             (snd (snd (openComposite_begin env id (h, w)))).
Proof.
  intros Hwf. destruct (decide (id ∈ creatingComposites h)) as [Hin|Hnot].
  - destruct (guarded_while_creating env id h w Hin) as [-> _]. exact Hwf.
  - rewrite openComposite_begin_run by done. case_bool_decide.
    + pose proof (wellFormed_reuseExisting id h w Hwf) as Hr.
      destruct (reuseExisting env id (h, w)) as [[[c|]|err] [h1 w1]]; simpl in *; try done.
      now apply wellFormed_lookUp.
    + now apply wellFormed_lookUp.
Qed.

Lemma wellFormed_resume id p h w :
  wellFormed h w ->
  wellFormed (fst (snd (openComposite_resume env id p (h, w))))
             (snd (snd (openComposite_resume env id p (h, w)))).
Proof.
  intros Hwf. destruct p as [| |c].
  - rewrite resume_without_composite by auto. now apply (wellFormed_grow h w).
  - rewrite resume_without_composite by auto. now apply (wellFormed_grow h w).
  - destruct (resume_composite_cases env id c h w)
      as (r & h' & w' & evs & R1 & _ & _ & _ & R5 & _ & R7 & _ & _ & Hcases).
    rewrite R1. simpl.
    destruct Hcases as [(_ & _ & Hm & _)|[(_ & _ & Hm & _)|(_ & _ & Hm & _)]].
    + apply (wellFormed_grow h w); [done|lia|lia|exact Hwf].
    + now apply (wellFormed_set_new id c h w).
    + now apply (wellFormed_set_new id c h w).
Qed.

(** The invariant holds along a call of [openComposite]. *)
Lemma wellFormed_openComposite id h w :
  wellFormed h w ->
  wellFormed (fst (snd (openComposite env id (h, w))))
             (snd (snd (openComposite env id (h, w)))).
Proof.
  intros Hwf. unfold openComposite, bind.
  pose proof (wellFormed_begin id h w Hwf) as Hb.
  destruct (openComposite_begin env id (h, w)) as [[[v|p]|err] [h1 w1]]; simpl in *;
    try done.
  now apply wellFormed_resume.
Qed.
End WellFormed.

(** In a well-formed state the entry of an id is in the document and in the
    stores, and shares its container with no other entry: the premises under
    which a switch only hides the composite shown before. *)
Lemma wellFormed_entry (id a : string) (ea : Entry.t) (h : t) (w : World) :
  wellFormed h w -> a ≠ id -> JsMap.get a (composites h) = Some ea ->
  Entry.container ea < List.length (dom w)
  /\ Entry.disposables ea < List.length (stores w)
  /\ forall e, JsMap.get id (composites h) = Some e ->
               Entry.container e ≠ Entry.container ea.
Proof.
  intros [Hv Hn] Hne Hea. destruct (Hv a ea Hea) as [H1 H2].
  split; [exact H1|]. split; [exact H2|].
  intros e He. apply (Hn id a e ea); auto.
Qed.

Lemma openComposite_switch_wellFormed (env : Env) (id a : string) (ea : Entry.t)
    (h : t) (w : World) (h' : t) (w' : World) :
  wellFormed h w ->
  currentCompositeId h = Some a -> a ≠ id ->
  JsMap.get a (composites h) = Some ea ->
  snd (openComposite env id (h, w)) = (h', w') ->
  currentCompositeId h' = Some id ->
  onlyHidden a ea w h' w'.
Proof.
  intros Hwf Hcur Hne Hea Hrun Hnow.
  destruct (wellFormed_entry id a ea h w Hwf Hne Hea) as (H1 & H2 & H3).
  now apply (openComposite_switch env id a ea h w h' w').
Qed.

(** ** The other methods keep the invariants *)

Section Shrinks.
Variable env : Env.

Lemma shrinks_refl s : shrinks s s.
Proof. now repeat split. Qed.

Lemma shrinks_trans s1 s2 s3 : shrinks s1 s2 -> shrinks s2 s3 -> shrinks s1 s3.
Proof.
  intros (A1 & A2 & A3 & A4) (B1 & B2 & B3 & B4).
  repeat split; [congruence|congruence|congruence|auto].
Qed.

Lemma shrinks_consistent h w h' w' :
  shrinks (h, w) (h', w') -> consistent h -> consistent h'.
Proof.
  intros (A1 & _ & _ & A4) Hc id Hin. simpl in *. rewrite A1 in Hin.
  destruct (JsMap.get id (composites h')) as [e|] eqn:Hget; [|done].
  apply A4 in Hget. rewrite (Hc id Hin) in Hget. discriminate.
Qed.

Lemma shrinks_wellFormed h w h' w' :
  shrinks (h, w) (h', w') -> wellFormed h w -> wellFormed h' w'.
Proof.
  intros (_ & A2 & A3 & A4) [Hv Hn]. simpl in *. split.
  - intros id e He. rewrite A2, A3. eauto.
  - intros i j ei ej Hij Hi Hj. eauto.
Qed.

Lemma hostShrinks_ret {A} (a : A) : hostShrinks (ret a).
Proof. intros s. apply shrinks_refl. Qed.

Lemma hostShrinks_bind {A B} (m : M St A) (k : A -> M St B) :
  hostShrinks m -> (forall a, hostShrinks (k a)) -> hostShrinks (bind m k).
Proof.
  intros Hm Hk s. unfold bind. specialize (Hm s).
  destruct (m s) as [[a|e] s1]; simpl in *; [|done].
  eapply shrinks_trans; [exact Hm|apply Hk].
Qed.

Lemma hostShrinks_getH {A} (f : t -> A) : hostShrinks (getH f).
Proof. intros s. apply shrinks_refl. Qed.

Lemma hostShrinks_getW {A} (f : World -> A) : hostShrinks (getW f).
Proof. intros s. apply shrinks_refl. Qed.

Lemma hostShrinks_call ev : hostShrinks (call env ev).
Proof. intros [h w]. rewrite call_run. now repeat split. Qed.

Lemma hostShrinks_storeDispose r : hostShrinks (storeDispose env r).
Proof.
  intros [h w]. rewrite storeDispose_state. split; [reflexivity|]. simpl.
  split; [now rewrite dom_disposeStore|].
  split; [apply length_stores_disposeStore|auto].
Qed.

Lemma hostShrinks_modDom f :
  (forall d, List.length (f d) = List.length d) -> hostShrinks (modDom f).
Proof. intros Hf [h w]. repeat split; simpl; auto. Qed.

Lemma hostShrinks_modH f :
  (forall h, creatingComposites (f h) = creatingComposites h
             /\ forall k e, JsMap.get k (composites (f h)) = Some e ->
                            JsMap.get k (composites h) = Some e) ->
  hostShrinks (modH f).
Proof. intros Hf [h w]. destruct (Hf h). repeat split; simpl; auto. Qed.

Lemma hostShrinks_forEach {A} (f : A -> M St unit) (l : list A) :
  (forall a, hostShrinks (f a)) -> hostShrinks (forEach f l).
Proof.
  intros Hf. induction l as [|a l IH]; simpl.
  - apply hostShrinks_ret.
  - apply hostShrinks_bind; auto.
Qed.

Ltac shrinks :=
  repeat first
    [ apply hostShrinks_bind; [|intros ?]
    | apply hostShrinks_ret
    | apply hostShrinks_getH
    | apply hostShrinks_getW
    | apply hostShrinks_call
    | apply hostShrinks_storeDispose
    | apply hostShrinks_modDom; intros ?;
        first [apply length_update | apply length_remove]
    | apply hostShrinks_modH; intros ?; split; [reflexivity|];
        simpl; intros ? ? ?;
        first [assumption | discriminate | eapply get_delete_Some; eassumption]
    | match goal with
      | |- hostShrinks (match ?x with _ => _ end) => destruct x
      | |- hostShrinks (if ?x then _ else _) => destruct x
      end ].

Lemma hostShrinks_hideComposite id : hostShrinks (hideComposite env id).
Proof. unfold hideComposite. shrinks. Qed.

Lemma hostShrinks_showComposite id : hostShrinks (showComposite env id).
Proof. unfold showComposite. shrinks; apply hostShrinks_hideComposite. Qed.

Lemma hostShrinks_layout d : hostShrinks (layout env d).
Proof. unfold layout. shrinks. Qed.

Lemma hostShrinks_disposeComposite id : hostShrinks (disposeComposite env id).
Proof. unfold disposeComposite. shrinks; apply hostShrinks_hideComposite. Qed.

Lemma hostShrinks_dispose : hostShrinks (dispose env).
Proof.
  unfold dispose. shrinks. apply hostShrinks_forEach. intros e.
  unfold disposeEntry. shrinks.
Qed.

(** [layout], [disposeComposite] and [dispose] keep both invariants, whatever
    the foreign calls do. *)
Lemma invariants_kept {A} (m : M St A) h w :
  hostShrinks m ->
  (consistent h -> consistent (fst (snd (m (h, w)))))
  /\ (wellFormed h w -> wellFormed (fst (snd (m (h, w)))) (snd (snd (m (h, w))))).
Proof.
  intros Hm. specialize (Hm (h, w)). destruct (m (h, w)) as [r [h' w']]. simpl in *.
  split; [now apply (shrinks_consistent h w h' w')|now apply shrinks_wellFormed].
Qed.
End Shrinks.

Lemma calm_is_quiet : quiet Scene.calm.
Proof. intros t c. split; reflexivity. Qed.

Lemma nothing_under_creation (h : t) : creatingComposites h = ∅ -> consistent h.
Proof. intros H id Hin. rewrite H in Hin. now apply not_elem_of_empty in Hin. Qed.

(** Opening "explorer" again, while it is open, returns the composite that
    the first call stored. *)
Lemma openComposite_reuses_entry_witness :
  exists h' w',
    openComposite Scene.calm "explorer" Scene.explorerOpen
    = (Ret (Some 0), (h', w'))
    /\ composites h' = composites (fst Scene.explorerOpen)
    /\ currentCompositeId h' = Some "explorer".
Proof.
  destruct (openComposite_reuses_entry Scene.calm "explorer"
              (fst Scene.explorerOpen) (snd Scene.explorerOpen) explorerEntry)
    as (r & h' & w' & evs & Hrun & _ & _ & Hmap & _ & Hshown).
  - vm_compute. reflexivity.
  - vm_compute. reflexivity.
  - destruct Hshown as (Hr & Hcur & _).
    + exact calm_is_quiet.
    + apply nothing_under_creation. vm_compute. reflexivity.
    + rewrite Hr in Hrun. exists h', w'. split; [exact Hrun|]. split; [exact Hmap|exact Hcur].
Defined.

(** Opening "search" while "explorer" is shown hides "explorer" and keeps
    its entry. *)
Lemma switch_only_hides_previous_witness :
  onlyHidden "explorer" explorerEntry (snd Scene.explorerOpen)
    (fst Scene.bothOpen) (snd Scene.bothOpen).
Proof.
  apply (switch_only_hides_previous Scene.calm "search" "explorer" explorerEntry
           (fst Scene.explorerOpen) (snd Scene.explorerOpen)).
  - vm_compute. reflexivity.
  - discriminate.
  - vm_compute. reflexivity.
  - vm_compute. lia.
  - vm_compute. lia.
  - intros e. vm_compute. discriminate.
  - left. vm_compute. reflexivity.
  - vm_compute. reflexivity.
Defined.

(** C2.  The host decides whether there is a composite to hide with
    [if (this.currentCompositeId)], which the empty id fails.  On a host that
    shows the composite registered under the empty id, [openComposite] of
    "search" makes "search" current, and the composite that was shown is not
    told [setVisible(false)] and its container keeps display [block]. *)
Lemma empty_id_is_not_hidden :
  let s := Scene.emptyIdOpen in
  let s' := snd (openComposite Scene.calm "search" s) in
  currentCompositeId (fst s) = Some ""
  /\ currentCompositeId (fst s') = Some "search"
  /\ exists e, JsMap.get "" (composites (fst s)) = Some e
       /\ ~ In (EvSetVisible (Entry.composite e) false) (trace (snd s'))
       /\ Dom.displayOf (dom (snd s')) (Entry.container e) = Some "block".
Proof.
  split; [vm_compute; reflexivity|]. split; [vm_compute; reflexivity|].
  exists explorerEntry. split; [vm_compute; reflexivity|].
  split; [|vm_compute; reflexivity].
  vm_compute. intuition discriminate.
Qed.

(** C7.  [layout] tests the current id with [if (this.currentCompositeId)],
    which the empty id fails.  On a host that shows the composite registered
    under the empty id, that id is current and has an entry, and [layout]
    makes no call at all: the dimension does not reach the composite. *)
Lemma layout_skips_empty_id :
  let s := Scene.emptyIdOpen in
  let d := {| width := 10; height := 20 |} in
  currentCompositeId (fst s) = Some ""
  /\ is_Some (JsMap.get "" (composites (fst s)))
  /\ trace (snd (snd (layout Scene.calm d s))) = trace (snd s).
Proof.
  split; [vm_compute; reflexivity|].
  split; [eexists; vm_compute; reflexivity|]. vm_compute. reflexivity.
Qed.



(** The composite of "explorer" is rendered in the element the host was
    constructed on. *)
Lemma created_in_host_container_witness :
  exists entry,
    JsMap.get "explorer" (composites (fst Scene.explorerOpen)) = Some entry
    /\ Dom.parentOf (dom (snd Scene.explorerOpen)) (Entry.container entry) = Some 0.
Proof.
  destruct (created_in_host_container Scene.calm "explorer" 0
              (fst Scene.explorerPending) (snd Scene.explorerPending) 0
              (fst Scene.explorerOpen) (snd Scene.explorerOpen))
    as (_ & _ & _ & entry & evs & Hget & _ & _ & _ & _ & Hpar & _).
  - vm_compute. reflexivity.
  - exists entry. auto.
Defined.


Section KeepsMarkup.

Lemma keepsMarkup_refl w : keepsMarkup w w.
Proof. split; auto. Qed.

Lemma keepsMarkup_trans w1 w2 w3 :
  keepsMarkup w1 w2 -> keepsMarkup w2 w3 -> keepsMarkup w1 w3.
Proof.
  intros [L1 H1] [L2 H2]. split; [lia|].
  intros x Hx. rewrite H2 by lia. now apply H1.
Qed.

Lemma keepsMarkup_dom w w' : dom w' = dom w -> keepsMarkup w w'.
Proof. intros H. unfold keepsMarkup. rewrite H. auto. Qed.

Lemma domKeeps_update r (f : Element -> Element) :
  (forall e, innerHTML (f e) = innerHTML e) -> domKeeps (Dom.update r f).
Proof.
  intros Hf d. rewrite length_update. split; [done|].
  intros x _. unfold markupOf. rewrite lookup_update.
  case_decide; [|done]. destruct (d !! x); simpl; now rewrite ?Hf.
Qed.

Lemma domKeeps_compose f g : domKeeps f -> domKeeps g -> domKeeps (fun d => g (f d)).
Proof.
  intros Hf Hg d. destruct (Hf d) as [L1 H1]. destruct (Hg (f d)) as [L2 H2].
  split; [lia|]. intros x Hx. rewrite H2 by lia. now apply H1.
Qed.

Lemma domKeeps_id : domKeeps (fun d => d).
Proof. intros d. auto. Qed.

Lemma domKeeps_remove r : domKeeps (Dom.remove r).
Proof.
  intros d. unfold Dom.remove. destruct (Dom.parentOf d r) as [p|]; [|auto].
  apply (domKeeps_compose
           (Dom.update p (fun e => set_children (filter (fun x => x ≠ r) (children e)) e))
           (Dom.update r (set_parentElement None))); now apply domKeeps_update.
Qed.

Lemma domKeeps_appendChild p c : domKeeps (Dom.appendChild p c).
Proof.
  unfold Dom.appendChild.
  apply (domKeeps_compose (Dom.remove c)
           (fun d1 => Dom.update c (set_parentElement (Some p))
                        (Dom.update p (fun e => set_children (children e ++ [c]) e) d1))).
  - apply domKeeps_remove.
  - apply (domKeeps_compose
             (Dom.update p (fun e => set_children (children e ++ [c]) e))
             (Dom.update c (set_parentElement (Some p)))); now apply domKeeps_update.
Qed.


Lemma keepsMarkup_disposeStore r w : keepsMarkup w (disposeStore r w).
Proof. apply keepsMarkup_dom, dom_disposeStore. Qed.
End KeepsMarkup.

Section HostKeeps.
Variable env : Env.

Lemma hostKeeps_ret {A} (a : A) : hostKeeps (ret a).
Proof. intros s. apply keepsMarkup_refl. Qed.

Lemma hostKeeps_throw {A} e : hostKeeps (@throw St A e).
Proof. intros s. apply keepsMarkup_refl. Qed.

Lemma hostKeeps_bind {A B} (m : M St A) (k : A -> M St B) :
  hostKeeps m -> (forall a, hostKeeps (k a)) -> hostKeeps (bind m k).
Proof.
  intros Hm Hk s. unfold bind. specialize (Hm s).
  destruct (m s) as [[a|e] s1]; simpl in *; [|done].
  eapply keepsMarkup_trans; [exact Hm|apply Hk].
Qed.

Lemma hostKeeps_try_catch {A} (m : M St A) (k : Error -> M St A) :
  hostKeeps m -> (forall e, hostKeeps (k e)) -> hostKeeps (try_catch m k).
Proof.
  intros Hm Hk s. unfold try_catch. specialize (Hm s).
  destruct (m s) as [[a|e] s1]; simpl in *; [done|].
  eapply keepsMarkup_trans; [exact Hm|apply Hk].
Qed.

Lemma hostKeeps_try_finally {A} (m : M St A) (fin : M St unit) :
  hostKeeps m -> hostKeeps fin -> hostKeeps (try_finally m fin).
Proof.
  intros Hm Hf s. unfold try_finally. specialize (Hm s).
  destruct (m s) as [r s1]. specialize (Hf s1).
  destruct (fin s1) as [[[]|e] s2]; simpl in *; eapply keepsMarkup_trans; eauto.
Qed.

Lemma hostKeeps_getH {A} (f : t -> A) : hostKeeps (getH f).
Proof. intros s. apply keepsMarkup_refl. Qed.

Lemma hostKeeps_getW {A} (f : World -> A) : hostKeeps (getW f).
Proof. intros s. apply keepsMarkup_refl. Qed.

Lemma hostKeeps_modH f : hostKeeps (modH f).
Proof. intros s. apply keepsMarkup_refl. Qed.

Lemma hostKeeps_modDom f : domKeeps f -> hostKeeps (modDom f).
Proof. intros Hf [h w]. exact (Hf (dom w)). Qed.

Lemma hostKeeps_call ev : hostKeeps (call env ev).
Proof. intros [h w]. rewrite call_run. now apply keepsMarkup_dom. Qed.

Lemma hostKeeps_newStore : hostKeeps newStore.
Proof. intros [h w]. now apply keepsMarkup_dom. Qed.

Lemma hostKeeps_storeAdd r c : hostKeeps (storeAdd r c).
Proof. intros [h w]. now apply keepsMarkup_dom. Qed.

Lemma hostKeeps_storeDispose r : hostKeeps (storeDispose env r).
Proof. intros [h w]. rewrite storeDispose_state. apply keepsMarkup_disposeStore. Qed.

Lemma hostKeeps_createComposite d : hostKeeps (createComposite env d).
Proof. intros [h w]. now apply keepsMarkup_dom. Qed.

Create HintDb keeps.

Hint Resolve hostKeeps_ret hostKeeps_throw hostKeeps_getH hostKeeps_getW hostKeeps_modH
  hostKeeps_call hostKeeps_newStore hostKeeps_storeAdd hostKeeps_storeDispose
  hostKeeps_createComposite domKeeps_remove domKeeps_appendChild : keeps.

Ltac keeps :=
  repeat first
    [ apply hostKeeps_bind; [|intros ?]
    | apply hostKeeps_try_catch; [|intros ?]
    | apply hostKeeps_try_finally
    | apply hostKeeps_modDom; [first [ apply domKeeps_update; reflexivity
                                     | apply domKeeps_remove
                                     | apply domKeeps_appendChild ]]
    | solve [auto with keeps]
    | match goal with
      | |- hostKeeps (match ?x with _ => _ end) => destruct x
      | |- hostKeeps (if ?x then _ else _) => destruct x
      end ].






Lemma hostKeeps_layout d : hostKeeps (layout env d).
Proof. unfold layout. keeps. Qed.
End HostKeeps.

(** ** A host under any sequence of calls *)

Section Sessions.
Variable env : Env.
Implicit Types (h : t) (w : World) (id : string) (x : Session).

(** What [openComposite] does to the set of the ids under creation before it
    awaits: it adds its id when it goes on to create the composite, and only
    when the id was not there. *)
Lemma creating_lookUp id h w :
  id ∉ creatingComposites h ->
  let r := lookUp env id (h, w) in
  match fst r with
  | Ret (Pending _) => creatingComposites (fst (snd r)) = {[id]} ∪ creatingComposites h
  | _ => creatingComposites (fst (snd r)) = creatingComposites h
  end.
Proof.
  intros Hnot. cbv zeta. unfold lookUp.
  pose proof (hideCurrent_host env h w) as Hh.
  destruct (hideCurrent env (h, w)) as [[[]|err] [h0 w0]]; simpl in Hh; subst h0;
    [|reflexivity].
  rewrite reuseExisting_run.
  destruct (JsMap.get id (composites h)) as [e|].
  - destruct (storeDisposed w0 (Entry.disposables e)).
    + cbn [fst]. now destruct (getPaneComposite env _ id).
    + destruct (showComposite_host env id h w0) as [_ H2].
      destruct (showComposite env id (h, w0)) as [[[]|err] [h' w']]; exact H2.
  - cbn [fst]. now destruct (getPaneComposite env _ id).
Qed.

Lemma creating_begin id h w :
  let r := openComposite_begin env id (h, w) in
  match fst r with
  | Ret (Pending _) =>
      (id ∉ creatingComposites h)
      /\ creatingComposites (fst (snd r)) = {[id]} ∪ creatingComposites h
  | _ => creatingComposites (fst (snd r)) = creatingComposites h
  end.
Proof.
  cbv zeta. destruct (decide (id ∈ creatingComposites h)) as [Hin|Hnot].
  - destruct (guarded_while_creating env id h w Hin) as [-> _]. reflexivity.
  - rewrite openComposite_begin_run by done.
    assert (Hgen : forall h1 w1, creatingComposites h1 = creatingComposites h ->
      let r := lookUp env id (h1, w1) in
      match fst r with
      | Ret (Pending _) =>
          (id ∉ creatingComposites h)
          /\ creatingComposites (fst (snd r)) = {[id]} ∪ creatingComposites h
      | _ => creatingComposites (fst (snd r)) = creatingComposites h
      end).
    { intros h1 w1 E. cbv zeta.
      pose proof (creating_lookUp id h1 w1 ltac:(now rewrite E)) as L. cbv zeta in L.
      rewrite E in L.
      destruct (fst (lookUp env id (h1, w1))) as [[v|p]|err]; auto. }
    case_bool_decide; [|apply Hgen; reflexivity].
    rewrite reuseExisting_run.
    destruct (JsMap.get id (composites h)) as [e|]; [|apply Hgen; reflexivity].
    destruct (storeDisposed w (Entry.disposables e)); [apply Hgen; reflexivity|].
    destruct (showComposite_host env id h w) as [_ H2].
    destruct (showComposite env id (h, w)) as [[[]|err] [h' w']]; exact H2.
Qed.

Lemma creating_resume id p h w :
  creatingComposites (fst (snd (openComposite_resume env id p (h, w))))
  = creatingComposites h ∖ {[id]}.
Proof.
  destruct p as [| |c].
  - rewrite (resume_without_composite env) by auto. reflexivity.
  - rewrite (resume_without_composite env) by auto. reflexivity.
  - destruct (resume_composite_cases env id c h w) as (r & h' & w' & evs & R1 & _ & R3 & _).
    now rewrite R1.
Qed.

Lemma creating_kept {A} (m : M St A) s :
  hostShrinks m -> creatingComposites (fst (snd (m s))) = creatingComposites (fst s).
Proof. intros Hm. now destruct (Hm s). Qed.

Lemma tracked_run c x : tracked x -> tracked (run env c x).
Proof.
  intros [Hnd Hiff]. destruct x as [[h w] l]. cbn [state waiting fst] in *.
  unfold tracked. destruct c as [id|n|id|d|]; cbn [run state waiting].
  - pose proof (creating_begin id h w) as Hb. cbv zeta in Hb.
    destruct (openComposite_begin env id (h, w)) as [[[v|p]|err] [h' w']];
      cbn [fst snd] in Hb; split; cbn [state waiting fst].
    + exact Hnd.
    + intros k. rewrite Hb. apply Hiff.
    + destruct Hb as [Hnot _]. rewrite fmap_app. apply NoDup_app.
      split; [exact Hnd|]. split; [|apply NoDup_singleton].
      intros k Hk Hk'. apply list_elem_of_singleton in Hk'. subst k.
      apply Hnot, Hiff, Hk.
    + destruct Hb as [_ ->]. intros k. rewrite fmap_app, elem_of_app, elem_of_union.
      rewrite elem_of_singleton, Hiff. simpl. rewrite list_elem_of_singleton. tauto.
    + exact Hnd.
    + intros k. rewrite Hb. apply Hiff.
  - destruct (l !! n) as [[id p]|] eqn:Hn; [|now split].
    cbn [state waiting]. rewrite <- (take_drop_middle l n (id, p) Hn) in Hnd, Hiff.
    rewrite fmap_app, fmap_cons in Hnd, Hiff. cbn [fst] in Hnd, Hiff.
    apply NoDup_app in Hnd. destruct Hnd as (N1 & N2 & N3).
    apply NoDup_cons in N3. destruct N3 as [N3 N4].
    split; cbn [state waiting].
    + rewrite fmap_app. apply NoDup_app. split; [exact N1|]. split; [|exact N4].
      intros k Hk Hk'. apply (N2 k Hk). now right.
    + intros k. rewrite creating_resume, elem_of_difference, elem_of_singleton, Hiff.
      rewrite fmap_app, !elem_of_app, elem_of_cons. split.
      * intros [[H|[H|H]] Hne]; [now left|done|now right].
      * intros [H|H]; (split; [tauto|]); intros ->.
        -- apply (N2 id H). now left.
        -- now apply N3.
  - split; [exact Hnd|]. intros k.
    rewrite (creating_kept (disposeComposite env id)); [apply Hiff|].
    apply hostShrinks_disposeComposite.
  - split; [exact Hnd|]. intros k.
    rewrite (creating_kept (layout env d)); [apply Hiff|]. apply hostShrinks_layout.
  - split; [exact Hnd|]. intros k.
    rewrite (creating_kept (dispose env)); [apply Hiff|]. apply hostShrinks_dispose.
Qed.

Lemma sound_run c x : sound x -> sound (run env c x).
Proof.
  intros [Hc Hw]. destruct x as [[h w] l]. cbn [state waiting fst snd] in *.
  unfold sound. destruct c as [id|n|id|d|]; cbn [run state waiting].
  - pose proof (consistent_begin env id h w Hc) as H1.
    pose proof (wellFormed_begin env id h w Hw) as H2.
    destruct (openComposite_begin env id (h, w)) as [[[v|p]|err] [h' w']]; now split.
  - destruct (l !! n) as [[id p]|]; [|now split].
    split; [now apply consistent_resume|now apply wellFormed_resume].
  - split; now apply (invariants_kept _ h w (hostShrinks_disposeComposite env id)).
  - split; now apply (invariants_kept _ h w (hostShrinks_layout env d)).
  - split; now apply (invariants_kept _ h w (hostShrinks_dispose env)).
Qed.

Lemma runAll_invariant (P : Session -> Prop) :
  (forall c x, P x -> P (run env c x)) ->
  forall cs x, P x -> P (runAll env cs x).
Proof.
  intros Hstep cs. induction cs as [|c cs IH]; intros x Hx; [exact Hx|].
  simpl. apply IH, Hstep, Hx.
Qed.
End Sessions.

(** X1.  Whatever calls are made on a host after its construction, and in
    whatever order the calls of [openComposite] that wait are resumed, no id
    under creation has an entry in the map, every entry refers to an element
    of the document and to a store of the world, and no two entries share a
    container. *)
Theorem host_invariants (env : Env) (el : ElemRef) (loc : ViewContainerLocation)
    (w : World) (cs : list Call) :
  let s := state (runAll env cs (started el loc w)) in
  consistent (fst s) /\ wellFormed (fst s) (snd s).
Proof.
  apply (runAll_invariant env sound (sound_run env)).
  split; [apply consistent_create|apply wellFormed_create].
Qed.

(** X2.  Whatever calls are made on a host after its construction, the ids
    under creation are exactly the ids of the calls of [openComposite] that
    wait at their [await], no two of which have the same id; and
    [openComposite] of such an id returns [undefined] and changes nothing. *)
Theorem one_creation_per_id (env : Env) (el : ElemRef) (loc : ViewContainerLocation)
    (w : World) (cs : list Call) :
  let x := runAll env cs (started el loc w) in
  NoDup (waiting x).*1
  /\ (forall id, id ∈ creatingComposites (fst (state x)) <-> id ∈ (waiting x).*1)
  /\ forall id, id ∈ (waiting x).*1 ->
       openComposite env id (state x) = (Ret None, state x).
Proof.
  cbv zeta.
  assert (Ht : tracked (runAll env cs (started el loc w))).
  { apply (runAll_invariant env tracked (tracked_run env)).
    split; [constructor|]. intros id. simpl. split; intros H.
    - now apply not_elem_of_empty in H.
    - now apply not_elem_of_nil in H. }
  destruct Ht as [Hnd Hiff]. split; [exact Hnd|]. split; [exact Hiff|].
  intros id Hin. apply Hiff in Hin.
  destruct (state _) as [h w0]. now apply guarded_while_creating.
Qed.

(** ** disposeComposite *)

Section DisposeComposite.
Variable env : Env.
Implicit Types (h : t) (w : World) (id : string).

Lemma disposeComposite_missing id h w :
  JsMap.get id (composites h) = None -> disposeComposite env id (h, w) = (Ret tt, (h, w)).
Proof. intros H. unfold disposeComposite. norm. now rewrite H. Qed.

(** [disposeComposite] on an entry whose composite takes [setVisible(false)]
    without throwing, and whose store is disposed without throwing. *)
Lemma disposeComposite_run id e h w :
  JsMap.get id (composites h) = Some e ->
  (forall t, throws env t (EvSetVisible (Entry.composite e) false) = false) ->
  disposalReturns env w (Entry.disposables e) ->
  let ev := EvSetVisible (Entry.composite e) false in
  let current := bool_decide (currentCompositeId h = Some id) in
  let w1 := if current
            then with_dom (Dom.update (Entry.container e) (set_style DisplayNone) (dom w))
                   (with_trace (trace w ++ [ev]) w)
            else w in
  let w2 := disposeStore (Entry.disposables e) (with_trace (trace w1 ++ [ev]) w1) in
  disposeComposite env id (h, w)
  = (Ret tt,
     (with_composites (JsMap.delete id (composites h))
        (if current then with_current None h else h),
      with_dom (Dom.remove (Entry.container e) (dom w2)) w2)).
Proof.
  intros Hget Hq Hd. cbv zeta. unfold disposeComposite. norm. rewrite Hget.
  destruct (bool_decide (currentCompositeId h = Some id)).
  - rewrite hideComposite_run, Hget. cbv zeta. rewrite Hq. norm.
    rewrite call_run, Hq.
    rewrite storeDispose_returns; [reflexivity|].
    apply disposeErrors_returns. now apply (disposalReturns_stores env w).
  - rewrite call_run, Hq.
    rewrite storeDispose_returns; [reflexivity|].
    apply disposeErrors_returns. now apply (disposalReturns_stores env w).
Qed.
End DisposeComposite.

(** X3.  [disposeComposite] does nothing for an id without entry.  For an id
    with an entry, when [setVisible(false)] and the disposal of what the
    store of the entry holds return, it drops the entry and leaves the
    others as they are, tears the entry down as [dispose] does, touches no
    other store, and the host has no current composite any more when the id
    was the current one. *)
Theorem disposeComposite_drops_entry (env : Env) (id : string) (h : t) (w : World) :
  (forall t e, JsMap.get id (composites h) = Some e ->
               throws env t (EvSetVisible (Entry.composite e) false) = false) ->
  (forall e, JsMap.get id (composites h) = Some e ->
             disposalReturns env w (Entry.disposables e)) ->
  exists h' w' evs,
    disposeComposite env id (h, w) = (Ret tt, (h', w'))
    /\ added w w' evs
    /\ JsMap.get id (composites h') = None
    /\ (forall k, k ≠ id -> JsMap.get k (composites h') = JsMap.get k (composites h))
    /\ (JsMap.get id (composites h) = None -> h' = h /\ w' = w)
    /\ (forall e, JsMap.get id (composites h) = Some e ->
          tornDown w w' evs e
          /\ currentCompositeId h'
             = (if bool_decide (currentCompositeId h = Some id) then None
                else currentCompositeId h)
          /\ forall r, r ≠ Entry.disposables e -> stores w' !! r = stores w !! r).
Proof.
  intros Hq Hret. destruct (JsMap.get id (composites h)) as [e|] eqn:Hget.
  - pose proof (disposeComposite_run env id e h w Hget (fun t => Hq t e eq_refl)
                  (Hret e eq_refl)) as Hrun.
    cbv zeta in Hrun.
    set (ev := EvSetVisible (Entry.composite e) false) in *.
    set (current := bool_decide (currentCompositeId h = Some id)) in *.
    set (w1 := if current then _ else w) in *.
    set (w2 := disposeStore _ _) in *.
    assert (Hst1 : stores w1 = stores w) by (unfold w1; now destruct current).
    assert (Htr1 : exists pre, trace w1 = trace w ++ pre).
    { unfold w1. destruct current; [exists [ev]|exists []]; simpl; [done|].
      now rewrite app_nil_r. }
    destruct Htr1 as [pre Htr1].
    assert (Hpar1 : forall x, Dom.parentOf (dom w1) x = Dom.parentOf (dom w) x).
    { intros x. unfold w1. destruct current; [|done]. simpl. now apply parentOf_update. }
    assert (Hdom2 : dom w2 = dom w1) by (unfold w2; now rewrite dom_disposeStore).
    assert (Htr2 : trace w2 = trace w ++ pre ++ ev
                     :: match stores w !! Entry.disposables e with
                        | Some st => if isDisposed st then [] else map EvDispose (toDispose st)
                        | None => []
                        end).
    { unfold w2. rewrite trace_disposeStore. simpl. rewrite Htr1, Hst1.
      now rewrite <- !app_assoc. }
    set (evs := pre ++ ev :: _) in Htr2.
    eexists _, _, evs. split; [exact Hrun|]. split; [exact Htr2|].
    split; [simpl; apply get_delete_eq|].
    split; [intros k Hk; simpl; now apply get_delete_ne|].
    split; [discriminate|].
    intros e' [= <-]. split; [|split].
    + unfold evs. split; [apply in_or_app; right; now left|].
      split.
      { intros Hv. unfold storeDisposed. simpl.
        change (storeDisposed w2 (Entry.disposables e) = true).
        unfold w2. apply storeDisposed_disposeStore_eq. simpl. now rewrite Hst1. }
      split.
      { intros st Hs Hd c Hc. rewrite Hs, Hd.
        apply in_or_app; right. right. now apply in_map. }
      split.
      { simpl. rewrite parentOf_remove. now destruct (decide _). }
      intros q Hq'. simpl. apply childrenOf_remove_parent.
      now rewrite Hdom2, Hpar1.
    + simpl. fold current. now destruct current.
    + intros r Hr. simpl. unfold w2. rewrite lookup_stores_disposeStore_ne by done.
      simpl. now rewrite Hst1.
  - exists h, w, []. rewrite disposeComposite_missing by done.
    split; [done|]. split; [unfold added; now rewrite app_nil_r|].
    split; [done|]. split; [done|]. split; [done|]. intros e [=].
Qed.

(** ** What openComposite leaves alone *)

Section Frame.
Variable env : Env.
Implicit Types (h : t) (w : World) (id : string).

Lemma spares_refl id s : spares id s s.
Proof.
  repeat split; auto. exists []. split; [now rewrite app_nil_r|constructor].
Qed.

Lemma spares_trans id s1 s2 s3 : spares id s1 s2 -> spares id s2 s3 -> spares id s1 s3.
Proof.
  intros (A1 & A2 & A3 & (ea & A4 & A5) & A6 & A7) (B1 & B2 & B3 & (eb & B4 & B5) & B6 & B7).
  split; [congruence|]. split; [congruence|].
  split; [intros x; now rewrite B3|].
  split; [|split; [congruence|]].
  - exists (ea ++ eb). split; [now rewrite B4, A4, app_assoc|].
    apply Forall_app. now split.
  - intros k Hk. now rewrite B7, A7.
Qed.

Lemma spares_show_events id h w h' w' evs :
  trace w' = trace w ++ evs -> Forall isShowEvent evs ->
  stores w' = stores w -> List.length (dom w') = List.length (dom w) ->
  (forall x, Dom.parentOf (dom w') x = Dom.parentOf (dom w) x) ->
  composites h' = composites h -> container h' = container h ->
  spares id (h, w) (h', w').
Proof.
  intros Ht Hev Hs Hl Hp Hc Hk. split; [exact Hs|]. split; [exact Hl|].
  split; [exact Hp|]. split; [|split; [exact Hk|]].
  - exists evs. split; [exact Ht|]. eapply Forall_impl; [exact Hev|]. simpl. auto.
  - intros k _. simpl. now rewrite Hc.
Qed.

Lemma spares_showComposite id k h w :
  spares id (h, w) (snd (showComposite env k (h, w))).
Proof.
  destruct (JsMap.get k (composites h)) as [e|] eqn:Hget.
  - destruct (showComposite_spec env k h w e Hget)
      as (r & w' & evs & H1 & H2 & H3 & H4 & _ & H6 & H7 & _).
    rewrite H1. simpl. apply (spares_show_events id h w _ w' evs); auto;
      now destruct r.
  - unfold showComposite. norm. rewrite Hget. apply spares_refl.
Qed.

Lemma spares_hideCurrent id h w :
  spares id (h, w) (snd (hideCurrent env (h, w))).
Proof.
  unfold hideCurrent. cbn [fst].
  destruct (hideCurrent_spec env h w) as (r & w' & evs & H1 & H2 & H3 & H4 & _ & H6 & H7 & _).
  rewrite H1. simpl. now apply (spares_show_events id h w h w' evs).
Qed.

Lemma spares_reuseExisting id h w :
  spares id (h, w) (snd (reuseExisting env id (h, w))).
Proof.
  rewrite reuseExisting_run.
  destruct (JsMap.get id (composites h)) as [e|]; [|apply spares_refl].
  destruct (storeDisposed w (Entry.disposables e)).
  - simpl. repeat split; auto.
    + exists []. split; [now rewrite app_nil_r|constructor].
    + intros k Hk. simpl. apply get_delete_ne. congruence.
  - pose proof (spares_showComposite id id h w) as H.
    now destruct (showComposite env id (h, w)) as [[[]|err] s'].
Qed.

Lemma spares_lookUp id h w : spares id (h, w) (snd (lookUp env id (h, w))).
Proof.
  unfold lookUp.
  pose proof (spares_hideCurrent id h w) as H0.
  pose proof (hideCurrent_host env h w) as Hh.
  destruct (hideCurrent env (h, w)) as [[[]|err] [h0 w0]]; simpl in Hh; subst h0;
    [|exact H0].
  pose proof (spares_reuseExisting id h w0) as H1.
  destruct (reuseExisting env id (h, w0)) as [[[c|]|err] [h1 w1]];
    try (eapply spares_trans; [exact H0|exact H1]).
  cbn [fst snd] in *.
  destruct (getPaneComposite env _ id) as [d|];
    [|eapply spares_trans; [exact H0|exact H1]].
  eapply spares_trans; [exact H0|]. eapply spares_trans; [exact H1|].
  simpl. repeat split; auto.
  exists [EvInstantiate d]. split; [done|]. constructor; [|constructor]. right. eauto.
Qed.

Lemma spares_begin id h w :
  spares id (h, w) (snd (openComposite_begin env id (h, w))).
Proof.
  destruct (decide (id ∈ creatingComposites h)) as [Hin|Hnot].
  - destruct (guarded_while_creating env id h w Hin) as [-> _]. apply spares_refl.
  - rewrite openComposite_begin_run by done. case_bool_decide; [|apply spares_lookUp].
    pose proof (spares_reuseExisting id h w) as H1.
    destruct (reuseExisting env id (h, w)) as [[[c|]|err] [h1 w1]]; try exact H1.
    eapply spares_trans; [exact H1|apply spares_lookUp].
Qed.
End Frame.

Section OtherKeys.
Variable env : Env.

Lemma resume_other_keys id p k h w :
  k ≠ id ->
  JsMap.get k (composites (fst (snd (openComposite_resume env id p (h, w)))))
  = JsMap.get k (composites h).
Proof.
  intros Hne. destruct p as [| |c].
  - now rewrite resume_without_composite by auto.
  - now rewrite resume_without_composite by auto.
  - destruct (resume_composite_cases env id c h w)
      as (r & h' & w' & evs & R1 & _ & _ & _ & _ & _ & _ & _ & _ & Hcases).
    rewrite R1. cbn [fst snd].
    destruct Hcases as [(_ & _ & Hm & _)|[(_ & _ & Hm & _)|(_ & _ & Hm & _)]];
      rewrite Hm, ?get_set_ne by congruence; reflexivity.
Qed.

Lemma openComposite_other_keys id k h w :
  k ≠ id ->
  JsMap.get k (composites (fst (snd (openComposite env id (h, w)))))
  = JsMap.get k (composites h).
Proof.
  intros Hne. unfold openComposite, bind.
  destruct (spares_begin env id h w) as (_ & _ & _ & _ & _ & B5).
  destruct (openComposite_begin env id (h, w)) as [[[v|p]|err] [h1 w1]];
    cbn [fst snd] in *; try (now apply B5).
  rewrite resume_other_keys by done. now apply B5.
Qed.
End OtherKeys.

(** X4.  [openComposite] of an id leaves the entry of every other id in the
    map, does not dispose its store and does not take its container out of
    its parent, whatever the composites and the registry do. *)
Theorem openComposite_spares_others (env : Env) (id k : string) (e : Entry.t)
    (h : t) (w : World) :
  k ≠ id -> JsMap.get k (composites h) = Some e ->
  Entry.container e < List.length (dom w) ->
  Entry.disposables e < List.length (stores w) ->
  let s' := snd (openComposite env id (h, w)) in
  JsMap.get k (composites (fst s')) = Some e
  /\ stores (snd s') !! Entry.disposables e = stores w !! Entry.disposables e
  /\ Dom.parentOf (dom (snd s')) (Entry.container e) = Dom.parentOf (dom w) (Entry.container e).
Proof.
  intros Hne Hget Hv1 Hv2. cbv zeta. unfold openComposite, bind.
  destruct (spares_begin env id h w) as (B1 & B2 & B3 & _ & _ & B5).
  destruct (openComposite_begin env id (h, w)) as [[[v|p]|err] [h1 w1]];
    cbn [fst snd] in *.
  - unfold ret. cbn [fst snd].
    split; [now rewrite B5|]. split; [now rewrite B1|apply B3].
  - destruct p as [| |c].
    + rewrite resume_without_composite by auto. cbn [fst snd].
      split; [now rewrite B5|]. split; [now rewrite B1|apply B3].
    + rewrite resume_without_composite by auto. cbn [fst snd].
      split; [now rewrite B5|]. split; [now rewrite B1|apply B3].
    + destruct (resume_composite_cases env id c h1 w1)
        as (r & h' & w' & evs & R1 & _ & _ & _ & _ & R6 & _ & R8 & _ & Hcases).
      rewrite R1. cbn [fst snd].
      split; [|split].
      * destruct Hcases as [(_ & _ & Hm & _)|[(_ & _ & Hm & _)|(_ & _ & Hm & _)]];
          rewrite Hm, ?get_set_ne by congruence; now rewrite B5.
      * rewrite R6 by (rewrite B1; exact Hv2). now rewrite B1.
      * rewrite R8 by (rewrite B2; exact Hv1). apply B3.
  - split; [now rewrite B5|]. split; [now rewrite B1|apply B3].
Qed.

Section Unregistered.
Variable env : Env.
Implicit Types (h : t) (w : World) (id : string).

End Unregistered.


Section Stale.
Variable env : Env.
Implicit Types (h : t) (w : World) (id : string).

End Stale.


(** ** What openComposite returns *)

Section Opened.
Variable env : Env.
Implicit Types (h : t) (w : World) (id : string).

Lemma opened_more id c w0 w h' w' evs0 :
  trace w = trace w0 ++ evs0 -> opened id c w h' w' -> opened id c w0 h' w'.
Proof.
  intros Ht (H1 & e & evs & H2 & H3 & H4 & H5 & H6 & H7).
  split; [exact H1|]. exists e, (evs0 ++ evs). do 3 (split; [done|]).
  split; [unfold added in *; now rewrite H5, Ht, app_assoc|].
  split; [apply in_or_app; now right|exact H7].
Qed.

Lemma reuseExisting_opened id c h w h' w' :
  reuseExisting env id (h, w) = (Ret (Some c), (h', w')) -> opened id c w h' w'.
Proof.
  rewrite reuseExisting_run.
  destruct (JsMap.get id (composites h)) as [e|] eqn:Hget; [|discriminate].
  destruct (storeDisposed w (Entry.disposables e)) eqn:Hdis; [discriminate|].
  destruct (showComposite_spec env id h w e Hget)
    as (r & w1 & evs & H1 & H2 & H3 & H4 & H5 & H6 & H7 & H7c & H8 & H9).
  rewrite H1. destruct r as [[]|err]; [|discriminate].
  intros [= <- <- <-]. destruct (H9 eq_refl) as (S1 & S2 & S3 & _).
  split; [reflexivity|]. exists e, evs. split; [exact Hget|]. split; [reflexivity|].
  split; [unfold storeDisposed in *; now rewrite H4|].
  split; [exact H2|]. split; [exact S1|]. rewrite H6. exact S3.
Qed.

Lemma lookUp_opened id c h w h' w' :
  lookUp env id (h, w) = (Ret (Done (Some c)), (h', w')) -> opened id c w h' w'.
Proof.
  unfold lookUp, hideCurrent. cbn [fst].
  destruct (hideCurrent_spec env h w) as (r0 & w0 & evs0 & H1 & H2 & _).
  rewrite H1. destruct r0 as [[]|err]; [|discriminate].
  destruct (reuseExisting env id (h, w0)) as [[[c'|]|err] [h1 w1]] eqn:Hre;
    try discriminate.
  - intros [= <- <- <-]. apply (opened_more id c' w w0 h1 w1 evs0 H2).
    now apply (reuseExisting_opened id c' h w0).
  - cbn [fst]. destruct (getPaneComposite env _ id); discriminate.
Qed.

Lemma begin_opened id c h w h' w' :
  openComposite_begin env id (h, w) = (Ret (Done (Some c)), (h', w')) ->
  opened id c w h' w'.
Proof.
  destruct (decide (id ∈ creatingComposites h)) as [Hin|Hnot].
  { destruct (guarded_while_creating env id h w Hin) as [-> _]. discriminate. }
  rewrite openComposite_begin_run by done. case_bool_decide; [|apply lookUp_opened].
  destruct (reuseExisting env id (h, w)) as [[[c'|]|err] [h1 w1]] eqn:Hre;
    try discriminate.
  - intros [= <- <- <-]. now apply (reuseExisting_opened id c' h w).
  - intros Hl. apply lookUp_opened in Hl.
    destruct (spares_reuseExisting env id h w) as (_ & _ & _ & (evs0 & Ht & _) & _ & _).
    rewrite Hre in Ht. exact (opened_more id c w w1 h' w' evs0 Ht Hl).
Qed.
End Opened.

(** X7.  When [openComposite] returns a composite, the id is the current
    one and has an entry in the map that holds this composite, with a store
    that is not disposed; the composite has been told [setVisible(true)],
    and its container, when it is in the document, has display [block]. *)
Theorem openComposite_returns_current (env : Env) (id : string) (c : CompositeRef)
    (h : t) (w : World) (h' : t) (w' : World) :
  openComposite env id (h, w) = (Ret (Some c), (h', w')) ->
  opened id c w h' w'.
Proof.
  unfold openComposite, bind.
  destruct (spares_begin env id h w) as (_ & _ & _ & (evs0 & Ht & _) & _ & _).
  destruct (openComposite_begin env id (h, w)) as [[[v|p]|err] [h1 w1]] eqn:Hb;
    try discriminate; cbn [fst snd] in Ht.
  - unfold ret. intros [= -> <- <-]. now apply (begin_opened env id c h w).
  - destruct p as [| |c1].
    + rewrite resume_without_composite by auto. discriminate.
    + rewrite resume_without_composite by auto. discriminate.
    + destruct (resume_composite_cases env id c1 h1 w1)
        as (r & h2 & w2 & evs & R1 & R2 & _ & _ & _ & _ & R7 & _ & _ & Hcases).
      rewrite R1. intros [= -> <- <-].
      destruct Hcases as [(C & _)|[(_ & _ & _ & _ & _ & _ & [(C & _)|(C & _)])|C]];
        [discriminate|discriminate|discriminate|].
      destruct C as ([= ->] & _ & Hm & Hcur & Hst & _ & _ & Hdisp & Hvis & _).
      apply (opened_more id c1 w w1 h2 w2 evs0 Ht).
      split; [exact Hcur|]. exists (newEntry c1 w1), evs.
      split; [rewrite Hm; apply get_set_eq|]. split; [reflexivity|].
      split; [exact Hst|]. split; [exact R2|]. split; [exact Hvis|].
      intros _. exact Hdisp.
Qed.

(** X8.  When [setVisible] and [layout] do not throw, and [create] and
    [updateStyles] do not throw on the new composite, [openComposite]
    resumed with a composite returns it, stored under the id in a store that
    is not disposed, shown in the container of the host, and current; no
    creation of the id is under way any more and nothing is disposed. *)
Theorem creation_succeeds (env : Env) (id : string) (c : CompositeRef)
    (h : t) (w : World) :
  quiet env -> ~ createThrows env c w ->
  exists h' w' evs,
    openComposite_resume env id (InstComposite c) (h, w) = (Ret (Some c), (h', w'))
    /\ added w w' evs
    /\ composites h' = JsMap.set id (newEntry c w) (composites h)
    /\ currentCompositeId h' = Some id
    /\ (id ∉ creatingComposites h')
    /\ storeDisposed w' (List.length (stores w)) = false
    /\ Dom.parentOf (dom w') (List.length (dom w)) = Some (container h)
    /\ Dom.displayOf (dom w') (List.length (dom w)) = Some "block"
    /\ In (EvCreate c (List.length (dom w))) evs
    /\ In (EvSetVisible c true) evs
    /\ forall d, ~ In (EvDispose d) evs.
Proof.
  intros Hq Hnot.
  destruct (resume_composite_cases env id c h w)
    as (r & h' & w' & evs & R1 & R2 & R3 & _ & _ & _ & _ & _ & R9 & Hcases).
  destruct Hcases as [(_ & C & _)|[(_ & C & _)|C]]; [done|done|].
  destruct C as (-> & _ & Hm & Hcur & Hst & Hpar & _ & Hdisp & Hvis & Hnd & _).
  exists h', w', evs. split; [exact R1|]. split; [exact R2|]. split; [exact Hm|].
  split; [exact Hcur|].
  split; [rewrite R3, elem_of_difference, elem_of_singleton; tauto|].
  do 3 (split; [done|]). split; [exact R9|]. split; [exact Hvis|exact Hnd].
Qed.

Section AfterDispose.
Variable env : Env.
Implicit Types (h : t) (w : World).

Lemma forEach_disposeEntry_host (l : list Entry.t) h w :
  fst (snd (forEach (disposeEntry env) l (h, w))) = h.
Proof.
  revert w. induction l as [|e l IH]; intros w; [reflexivity|].
  simpl. unfold bind at 1, disposeEntry. norm. rewrite call_run.
  destruct (throws env (trace w) _); [reflexivity|].
  rewrite storeDispose_run.
  destruct (disposeErrors env _ _) as [|ev [|ev' evs]]; [apply IH|reflexivity|reflexivity].
Qed.

Lemma dispose_returns h w s :
  dispose env (h, w) = (Ret tt, s) ->
  fst s = with_superDisposed true (with_composites [] h).
Proof.
  unfold dispose. norm.
  pose proof (forEach_disposeEntry_host (JsMap.values (composites h)) h w) as Hh.
  destruct (forEach _ _ _) as [[[]|err] [h' w']]; [|discriminate].
  simpl in Hh. subst h'. now intros [= <-].
Qed.
End AfterDispose.

(** X9.  [dispose] that has returned leaves a host with an empty map on
    which a second [dispose], [layout] and [disposeComposite] make no call
    and change nothing; it does not reset the current id. *)
Theorem dispose_is_final (env : Env) (h : t) (w : World) (s : St) :
  dispose env (h, w) = (Ret tt, s) ->
  composites (fst s) = []
  /\ currentCompositeId (fst s) = currentCompositeId h
  /\ dispose env s = (Ret tt, s)
  /\ (forall dimension, layout env dimension s = (Ret tt, s))
  /\ (forall id, disposeComposite env id s = (Ret tt, s)).
Proof.
  intros Hrun. pose proof (dispose_returns env h w s Hrun) as Hh.
  destruct s as [h' w']. simpl in Hh. subst h'.
  split; [reflexivity|]. split; [reflexivity|]. split; [reflexivity|]. split.
  - intros d. unfold layout. norm. simpl.
    now destruct (truthy (currentCompositeId h)).
  - intros id. reflexivity.
Qed.

(** X10.  [dispose] does not close the host: on a host that [dispose] has
    left, [openComposite] of a registered id makes no call but the
    instantiation of the composite, which it then awaits. *)
Theorem disposed_host_still_opens (env : Env) (id : string) (d : Descriptor)
    (h : t) (w : World) (s : St) :
  dispose env (h, w) = (Ret tt, s) ->
  id ∉ creatingComposites h ->
  getPaneComposite env (registryOf (location h)) id = Some d ->
  superDisposed (fst s) = true
  /\ openComposite_begin env id s
     = (Ret (Pending (instantiate env (trace (snd s)) d)),
        (with_creating ({[id]} ∪ creatingComposites (fst s)) (fst s),
         with_trace (trace (snd s) ++ [EvInstantiate d]) (snd s))).
Proof.
  intros Hrun Hnot Hreg. pose proof (dispose_returns env h w s Hrun) as Hh.
  destruct s as [h' w']. simpl in Hh. subst h'. split; [reflexivity|].
  rewrite openComposite_begin_run by exact Hnot.
  assert (Hl : lookUp env id (with_superDisposed true (with_composites [] h), w')
               = (Ret (Pending (instantiate env (trace w') d)),
                  (with_creating ({[id]} ∪ creatingComposites h)
                     (with_superDisposed true (with_composites [] h)),
                   with_trace (trace w' ++ [EvInstantiate d]) w'))).
  { unfold lookUp, hideCurrent. cbn [fst snd].
    destruct (truthy _); [rewrite hideComposite_run|]; simpl; now rewrite Hreg. }
  case_bool_decide; [|exact Hl]. rewrite reuseExisting_run. exact Hl.
Qed.

Section DisposeThrows.
Variable env : Env.
Implicit Types (h : t) (w : World).

Lemma forEach_app {A} (f : A -> M St unit) (l1 l2 : list A) s :
  forEach f (l1 ++ l2) s
  = match forEach f l1 s with
    | (Ret _, s') => forEach f l2 s'
    | (Exn err, s') => (Exn err, s')
    end.
Proof.
  revert s. induction l1 as [|a l1 IH]; intros s; [reflexivity|].
  simpl. unfold bind. destruct (f a s) as [[[]|err] s1]; [apply IH|reflexivity].
Qed.
End DisposeThrows.

(** X11.  [dispose] stops at the first composite whose [setVisible(false)]
    throws.  When the entries before that one are torn down without a
    throw, of [setVisible(false)] or of the disposal of what their stores
    hold, the exception of that composite leaves [dispose], the entries
    before it are torn down, and the host keeps its map, those entries
    included. *)
Theorem dispose_stops_at_throw (env : Env) (h : t) (w : World)
    (before after : list Entry.t) (e : Entry.t) :
  JsMap.values (composites h) = before ++ e :: after ->
  (forall t e', In e' before ->
                throws env t (EvSetVisible (Entry.composite e') false) = false) ->
  (forall e', In e' before -> disposalReturns env w (Entry.disposables e')) ->
  (forall t, throws env t (EvSetVisible (Entry.composite e) false) = true) ->
  exists w' evs,
    dispose env (h, w) = (Exn (Thrown (EvSetVisible (Entry.composite e) false)), (h, w'))
    /\ added w w' (evs ++ [EvSetVisible (Entry.composite e) false])
    /\ forall e', In e' before -> tornDown w w' evs e'.
Proof.
  intros Hvals Hq Hret Hthrow.
  destruct (forEach_disposeEntry env before h w Hq Hret)
    as (w1 & evs & Hrun & Htr & _ & _ & _ & _ & _ & Hall).
  exists (with_trace (trace w1 ++ [EvSetVisible (Entry.composite e) false]) w1), evs.
  split; [|split].
  - unfold dispose. norm. rewrite Hvals, forEach_app, Hrun. simpl.
    unfold bind at 1, disposeEntry. unfold bind at 1. rewrite call_run, Hthrow.
    reflexivity.
  - unfold added. simpl. now rewrite Htr, app_assoc.
  - intros e' He'. exact (Hall e' He').
Qed.

Section DisposalThrows.
Variable env : Env.
Implicit Types (h : t) (w : World).

(** A turn of the loop of [dispose] leaves alone the other elements and the
    other stores, however it ends. *)
Lemma disposeEntry_others e h w :
  let s' := snd (disposeEntry env e (h, w)) in
  fst s' = h
  /\ (forall x, Entry.container e ≠ x ->
                Dom.parentOf (dom (snd s')) x = Dom.parentOf (dom w) x)
  /\ (forall r, Entry.disposables e ≠ r -> stores (snd s') !! r = stores w !! r).
Proof.
  cbv zeta. unfold disposeEntry, bind. rewrite call_run.
  destruct (throws env (trace w) _); [now repeat split|].
  rewrite storeDispose_run. set (w0 := with_trace _ w).
  assert (Hs : forall r, Entry.disposables e ≠ r ->
            stores (disposeStore (Entry.disposables e) w0) !! r = stores w !! r).
  { intros r Hr. now rewrite lookup_stores_disposeStore_ne. }
  destruct (disposeErrors env _ w0) as [|ev [|ev' evs]];
    unfold modDom, modW, modify; cbn [fst snd].
  - split; [reflexivity|]. split; [|exact Hs].
    intros x Hx. cbn [dom with_dom]. rewrite parentOf_remove.
    case_decide; [done|]. now rewrite dom_disposeStore.
  - split; [reflexivity|]. split; [|exact Hs]. intros x _. now rewrite dom_disposeStore.
  - split; [reflexivity|]. split; [|exact Hs]. intros x _. now rewrite dom_disposeStore.
Qed.

(** So does the loop. *)
Lemma forEach_disposeEntry_others (l : list Entry.t) h w :
  let w' := snd (snd (forEach (disposeEntry env) l (h, w))) in
  (forall x, (forall e, In e l -> Entry.container e ≠ x) ->
             Dom.parentOf (dom w') x = Dom.parentOf (dom w) x)
  /\ (forall r, (forall e, In e l -> Entry.disposables e ≠ r) ->
                stores w' !! r = stores w !! r).
Proof.
  cbv zeta. revert w. induction l as [|e l IH]; intros w; [now split|].
  cbn [forEach]. unfold bind.
  destruct (disposeEntry_others e h w) as (S1 & S2 & S3).
  destruct (disposeEntry env e (h, w)) as [[[]|err] [h1 w1]]; cbn [fst snd] in *.
  - subst h1. destruct (IH w1) as [I1 I2]. split.
    + intros x Hx. rewrite I1 by (intros e' He'; apply Hx; now right).
      apply S2, Hx. now left.
    + intros r Hr. rewrite I2 by (intros e' He'; apply Hr; now right).
      apply S3, Hr. now left.
  - split.
    + intros x Hx. apply S2, Hx. now left.
    + intros r Hr. apply S3, Hr. now left.
Qed.
End DisposalThrows.

(** X25.  [dispose] stops as well at the first entry whose store throws when
    it is disposed, here a store that holds one composite, as those that
    [openComposite] makes.  When the entries before that one are torn down
    without a throw and are other entries than it, what the composite throws
    leaves [dispose] once the store is marked disposed: the container of the
    entry is not removed, and the host keeps its map. *)
Theorem dispose_stops_at_disposal_throw (env : Env) (h : t) (w : World)
    (before after : list Entry.t) (e : Entry.t) (c : CompositeRef) :
  JsMap.values (composites h) = before ++ e :: after ->
  (forall t e', In e' before ->
                throws env t (EvSetVisible (Entry.composite e') false) = false) ->
  (forall e', In e' before -> disposalReturns env w (Entry.disposables e')) ->
  (forall e', In e' before ->
              Entry.container e' ≠ Entry.container e
              /\ Entry.disposables e' ≠ Entry.disposables e) ->
  (forall t, throws env t (EvSetVisible (Entry.composite e) false) = false) ->
  heldBy w (Entry.disposables e) = [c] ->
  (forall t, throws env t (EvDispose c) = true) ->
  exists w' evs,
    dispose env (h, w) = (Exn (Thrown (EvDispose c)), (h, w'))
    /\ added w w' (evs ++ [EvSetVisible (Entry.composite e) false; EvDispose c])
    /\ (forall e', In e' before -> tornDown w w' evs e')
    /\ storeDisposed w' (Entry.disposables e) = true
    /\ Dom.parentOf (dom w') (Entry.container e) = Dom.parentOf (dom w) (Entry.container e).
Proof.
  intros Hvals Hq Hret Hother Hvis Hheld Hthrow.
  destruct (forEach_disposeEntry env before h w Hq Hret)
    as (w1 & evs & Hrun & Htr & Hlen & Hmono & Hpar & Hch & Hst & Hall).
  destruct (forEach_disposeEntry_others env before h w) as [O1 O2].
  rewrite Hrun in O1, O2. cbn [snd] in O1, O2.
  set (ev := EvSetVisible (Entry.composite e) false).
  set (w2 := with_trace (trace w1 ++ [ev]) w1).
  assert (Hs : stores w2 !! Entry.disposables e = stores w !! Entry.disposables e).
  { unfold w2. cbn [stores with_trace]. apply O2. intros e' He'. now apply Hother. }
  assert (Hheld2 : heldBy w2 (Entry.disposables e) = [c]).
  { unfold heldBy in *. now rewrite Hs. }
  assert (Hlt : Entry.disposables e < List.length (stores w2)).
  { unfold heldBy in Hheld2.
    destruct (stores w2 !! Entry.disposables e) eqn:E; [|discriminate].
    now apply lookup_lt_Some in E. }
  exists (disposeStore (Entry.disposables e) w2), evs.
  split; [|split; [|split; [|split]]].
  - unfold dispose. norm. rewrite Hvals, forEach_app, Hrun. simpl.
    unfold bind at 1, disposeEntry. unfold bind at 1. rewrite call_run, Hvis.
    fold ev. fold w2. unfold bind at 1.
    rewrite (storeDispose_single env _ c h w2 Hheld2), Hthrow. reflexivity.
  - unfold added. rewrite trace_disposeStore_heldBy, Hheld2. unfold w2. simpl.
    rewrite Htr. now rewrite <- !app_assoc.
  - intros e' He'. destruct (Hall e' He') as (T1 & T2 & T3 & T4 & T5).
    split; [exact T1|]. split.
    { intros Hv. apply storeDisposed_disposeStore_mono. unfold storeDisposed, w2. simpl.
      exact (T2 Hv). }
    split; [exact T3|]. rewrite dom_disposeStore. split; [exact T4|exact T5].
  - now apply storeDisposed_disposeStore_eq.
  - rewrite dom_disposeStore. unfold w2. cbn [dom with_trace]. apply O1.
    intros e' He'. now apply Hother.
Qed.

(** ** When openComposite throws *)

Section Throws.
Variable env : Env.
Implicit Types (h : t) (w : World) (id : string).

(** The calls [reuseExisting] makes are those of [showComposite]. *)
Lemma reuseExisting_events id h w :
  let r := reuseExisting env id (h, w) in
  stores (snd (snd r)) = stores w
  /\ (exists evs, added w (snd (snd r)) evs /\ Forall isShowEvent evs)
  /\ (quiet env -> exists o, fst r = Ret o).
Proof.
  cbv zeta. rewrite reuseExisting_run.
  assert (Hnil : exists evs, added w w evs /\ Forall isShowEvent evs).
  { exists []. split; [unfold added; now rewrite app_nil_r|constructor]. }
  destruct (JsMap.get id (composites h)) as [e|] eqn:Hget; [|simpl; eauto].
  destruct (storeDisposed w (Entry.disposables e)); [simpl; eauto|].
  destruct (showComposite_spec env id h w e Hget)
    as (r & w' & evs & H1 & H2 & H3 & H4 & _ & _ & _ & _ & H8 & _).
  rewrite H1. destruct r as [[]|err]; simpl.
  - split; [exact H4|]. split; eauto.
  - split; [exact H4|]. split; [eauto|]. intros Hq. now specialize (H8 Hq).
Qed.

(** [openComposite] up to its [await]: unless it goes on to create the
    composite, it makes no call but [setVisible] and [layout]; and it
    returns when these do not throw. *)
Lemma lookUp_events id h w :
  let r := lookUp env id (h, w) in
  (quiet env -> exists o, fst r = Ret o)
  /\ ((forall p, fst r ≠ Ret (Pending p)) ->
      stores (snd (snd r)) = stores w
      /\ exists evs, added w (snd (snd r)) evs /\ Forall isShowEvent evs).
Proof.
  cbv zeta. unfold lookUp, hideCurrent. cbn [fst].
  destruct (hideCurrent_spec env h w)
    as (r0 & w0 & evs0 & H1 & H2 & H3 & H4 & _ & _ & _ & _ & H8 & _).
  rewrite H1. destruct r0 as [[]|err].
  2:{ split; [intros Hq; now specialize (H8 Hq)|]. intros _. simpl. eauto. }
  destruct (reuseExisting_events id h w0) as (S1 & (evs1 & S2 & S3) & S4).
  destruct (reuseExisting env id (h, w0)) as [[[c|]|err] [h1 w1]]; cbn [fst snd] in *.
  - split; [eauto|]. intros _. split; [congruence|].
    exists (evs0 ++ evs1). unfold added in *. split; [now rewrite S2, H2, app_assoc|].
    apply Forall_app. now split.
  - destruct (getPaneComposite env _ id) as [d|].
    + split; [eauto|]. intros Hp. now specialize (Hp (instantiate env (trace w1) d)).
    + split; [eauto|]. intros _. simpl. split; [congruence|].
      exists (evs0 ++ evs1). unfold added in *. split; [now rewrite S2, H2, app_assoc|].
      apply Forall_app. now split.
  - split; [intros Hq; destruct (S4 Hq); discriminate|]. intros _. simpl.
    split; [congruence|].
    exists (evs0 ++ evs1). unfold added in *. split; [now rewrite S2, H2, app_assoc|].
    apply Forall_app. now split.
Qed.

Lemma begin_events id h w :
  let r := openComposite_begin env id (h, w) in
  (quiet env -> exists o, fst r = Ret o)
  /\ ((forall p, fst r ≠ Ret (Pending p)) ->
      stores (snd (snd r)) = stores w
      /\ exists evs, added w (snd (snd r)) evs /\ Forall isShowEvent evs).
Proof.
  cbv zeta. destruct (decide (id ∈ creatingComposites h)) as [Hin|Hnot].
  { destruct (guarded_while_creating env id h w Hin) as [-> _]. simpl.
    split; [eauto|]. intros _. split; [done|]. exists [].
    split; [unfold added; now rewrite app_nil_r|constructor]. }
  rewrite openComposite_begin_run by done.
  case_bool_decide; [|apply lookUp_events].
  destruct (reuseExisting_events id h w) as (S1 & (evs1 & S2 & S3) & S4).
  destruct (reuseExisting env id (h, w)) as [[[c|]|err] [h1 w1]] eqn:Hre;
    cbn [fst snd] in *.
  - split; [eauto|]. intros _. split; [done|]. eauto.
  - destruct (lookUp_events id h1 w1) as [L1 L2]. split; [exact L1|].
    intros Hp. destruct (L2 Hp) as (L3 & evs2 & L4 & L5). split; [congruence|].
    exists (evs1 ++ evs2). unfold added in *. split; [now rewrite L4, S2, app_assoc|].
    apply Forall_app. now split.
  - split; [intros Hq; destruct (S4 Hq); discriminate|]. intros _. split; [done|]. eauto.
Qed.

(** From its [await] on, [openComposite] returns when [setVisible] and
    [layout] do not throw. *)
Lemma resume_returns id p h w :
  quiet env -> exists r s', openComposite_resume env id p (h, w) = (Ret r, s').
Proof.
  intros Hq. destruct p as [| |c].
  - rewrite resume_without_composite by auto. eauto.
  - rewrite resume_without_composite by auto. eauto.
  - destruct (resume_composite_cases env id c h w)
      as (r & h' & w' & evs & R1 & _ & _ & _ & _ & _ & _ & _ & _ & Hcases).
    rewrite R1.
    destruct Hcases as [(-> & _)|[(_ & Hn & _)|(-> & _)]]; [eauto|done|eauto].
Qed.

(** What [openComposite] throws from its [await] on is what the disposal of
    the new composite throws once showing it has failed. *)
Lemma resume_throws id p h w err h' w' :
  openComposite_resume env id p (h, w) = (Exn err, (h', w')) ->
  creatingComposites h' = creatingComposites h ∖ {[id]}
  /\ exists c,
       err = Thrown (EvDispose c)
       /\ (exists t, throws env t (EvDispose c) = true)
       /\ JsMap.get id (composites h') = Some (newEntry c w)
       /\ storeDisposed w' (List.length (stores w)) = true
       /\ Dom.parentOf (dom w') (List.length (dom w)) = Some (container h).
Proof.
  destruct p as [| |c].
  - rewrite resume_without_composite by auto. discriminate.
  - rewrite resume_without_composite by auto. discriminate.
  - destruct (resume_composite_cases env id c h w)
      as (r & h1 & w1 & evs & R1 & _ & R3 & _ & _ & _ & _ & _ & _ & Hcases).
    rewrite R1. intros [= -> <- <-]. split; [exact R3|].
    destruct Hcases as [(C & _)|[C|(C & _)]]; [discriminate| |discriminate].
    destruct C as (_ & _ & Hm & _ & Hst & _ & [(C & _)|(C & Ht & Hpar)]); [discriminate|].
    injection C as ->. exists c. split; [reflexivity|]. split; [exact Ht|].
    split; [rewrite Hm; apply get_set_eq|]. split; [exact Hst|exact Hpar].
Qed.
End Throws.

(** X23.  [openComposite] returns whenever [setVisible] and [layout] do not
    throw, whatever the registry, the instantiation and the new composite
    do.  When it throws, it leaves no id under creation behind, and it has
    thrown in one of two places: before its [await], what [setVisible] or
    [layout] of a stored composite threw, having made no other calls than
    these and touched no store; or from its [catch] block, what the disposal
    of the new composite threw once showing it had failed, and then the
    entry of the id is in the map with a disposed store and its container
    is still in the container of the host. *)
Theorem openComposite_throws_in_two_places (env : Env) (id : string) (h : t) (w : World) :
  (quiet env -> exists r s', openComposite env id (h, w) = (Ret r, s'))
  /\ forall err h' w',
       openComposite env id (h, w) = (Exn err, (h', w')) ->
       creatingComposites h' = creatingComposites h
       /\ ((stores w' = stores w
            /\ exists evs, added w w' evs /\ Forall isShowEvent evs)
           \/ (exists c e,
                 err = Thrown (EvDispose c)
                 /\ (exists t, throws env t (EvDispose c) = true)
                 /\ JsMap.get id (composites h') = Some e
                 /\ Entry.composite e = c
                 /\ storeDisposed w' (Entry.disposables e) = true
                 /\ Dom.parentOf (dom w') (Entry.container e) = Some (container h))).
Proof.
  unfold openComposite, bind.
  destruct (begin_events env id h w) as [Hq Hev].
  pose proof (creating_begin env id h w) as Hcr. cbv zeta in Hcr.
  destruct (spares_begin env id h w) as (_ & _ & _ & _ & Hk & _).
  destruct (openComposite_begin env id (h, w)) as [[[v|p]|err] [h1 w1]];
    cbn [fst snd] in *.
  - split; [intros _; unfold ret; eauto|]. unfold ret. discriminate.
  - split; [intros Hquiet; now apply resume_returns|].
    intros err h' w' Hrun. destruct Hcr as [Hnot Hcr].
    destruct (resume_throws env id p h1 w1 err h' w' Hrun)
      as (Hc & c & -> & Ht & Hget & Hst & Hpar).
    split.
    { rewrite Hc, Hcr. apply set_eq. intros x.
      rewrite elem_of_difference, elem_of_union, elem_of_singleton.
      split; [tauto|]. intros Hx. split; [now right|]. now intros ->. }
    right. exists c, (newEntry c w1). split; [reflexivity|]. split; [exact Ht|].
    split; [exact Hget|]. split; [reflexivity|]. split; [exact Hst|].
    simpl. now rewrite <- Hk.
  - split; [intros Hquiet; destruct (Hq Hquiet); discriminate|].
    intros err' h' w' [= <- <- <-]. split; [exact Hcr|]. left. apply Hev. discriminate.
Qed.

(** ** Relations that computations preserve *)

Section Preserves.
Context {S : Type} (R : S -> S -> Prop).
Hypothesis R_refl : forall s, R s s.
Hypothesis R_trans : forall s1 s2 s3, R s1 s2 -> R s2 s3 -> R s1 s3.

Lemma preserves_ret {A} (a : A) : preserves R (ret a).
Proof. intros s. apply R_refl. Qed.

Lemma preserves_throw {A} e : preserves R (@throw S A e).
Proof. intros s. apply R_refl. Qed.

Lemma preserves_gets {A} (f : S -> A) : preserves R (gets f).
Proof. intros s. apply R_refl. Qed.

Lemma preserves_bind {A B} (m : M S A) (k : A -> M S B) :
  preserves R m -> (forall a, preserves R (k a)) -> preserves R (bind m k).
Proof.
  intros Hm Hk s. unfold bind. specialize (Hm s).
  destruct (m s) as [[a|e] s1]; simpl in *; [|done].
  eapply R_trans; [exact Hm|apply Hk].
Qed.

Lemma preserves_try_catch {A} (m : M S A) (k : Error -> M S A) :
  preserves R m -> (forall e, preserves R (k e)) -> preserves R (try_catch m k).
Proof.
  intros Hm Hk s. unfold try_catch. specialize (Hm s).
  destruct (m s) as [[a|e] s1]; simpl in *; [done|].
  eapply R_trans; [exact Hm|apply Hk].
Qed.

Lemma preserves_try_finally {A} (m : M S A) (fin : M S unit) :
  preserves R m -> preserves R fin -> preserves R (try_finally m fin).
Proof.
  intros Hm Hf s. unfold try_finally. specialize (Hm s).
  destruct (m s) as [r s1]. specialize (Hf s1).
  destruct (fin s1) as [[[]|e] s2]; simpl in *; eapply R_trans; eauto.
Qed.
End Preserves.

Section Advances.
Implicit Types (w : World).

Lemma advances_refl w : advances w w.
Proof.
  split; [done|]. split; [done|]. exists []. split; [|now intros []].
  unfold added. now rewrite app_nil_r.
Qed.

Lemma advances_trans w1 w2 w3 : advances w1 w2 -> advances w2 w3 -> advances w1 w3.
Proof.
  intros (A1 & A2 & ea & A3 & A4) (B1 & B2 & eb & B3 & B4).
  split; [congruence|]. split; [auto|].
  exists (ea ++ eb). unfold added in *. split; [now rewrite B3, A3, app_assoc|].
  intros Hin. apply in_app_or in Hin. tauto.
Qed.

Lemma advances_dom w d : advances w (with_dom d w).
Proof. exact (advances_refl w). Qed.

Lemma advances_event w ev : ev ≠ EvFire -> advances w (with_trace (trace w ++ [ev]) w).
Proof.
  intros Hne. split; [done|]. split; [done|]. exists [ev]. split; [done|].
  intros [H|[]]. congruence.
Qed.

Lemma advances_allocStore w : advances w (allocStore w).
Proof.
  split; [done|]. split.
  - intros r. unfold storeDisposed, allocStore. simpl.
    destruct (stores w !! r) as [st|] eqn:E; [|discriminate].
    now rewrite (lookup_app_l_Some _ _ _ _ E).
  - exists []. split; [|now intros []]. unfold added. simpl. now rewrite app_nil_r.
Qed.

Lemma advances_addToStore w r c : advances w (addToStore r c w).
Proof.
  split; [done|]. split.
  - intros r'. unfold storeDisposed, addToStore. simpl.
    rewrite list_lookup_alter. destruct (decide (r = r')) as [<-|]; [|done].
    destruct (stores w !! r) as [st|]; simpl; [|done].
    intros H. now rewrite H.
  - exists []. split; [|now intros []]. unfold added. simpl. now rewrite app_nil_r.
Qed.

Lemma advances_disposeStore w r : advances w (disposeStore r w).
Proof.
  split; [|split].
  - unfold disposeStore. now destruct (stores w !! r) as [[[] ?]|].
  - intros r'. apply storeDisposed_disposeStore_mono.
  - eexists. split; [apply trace_disposeStore|].
    destruct (stores w !! r) as [[[] l]|]; simpl; try tauto.
    intros Hin. apply in_map_iff in Hin. now destruct Hin as (? & ? & ?).
Qed.
End Advances.

Section HostAdvances.
Variable env : Env.

Lemma hostAdvances_refl s : hostAdvances s s.
Proof. apply advances_refl. Qed.

Lemma hostAdvances_trans s1 s2 s3 :
  hostAdvances s1 s2 -> hostAdvances s2 s3 -> hostAdvances s1 s3.
Proof. apply advances_trans. Qed.

Lemma hostAdvances_modH f : preserves hostAdvances (modH f).
Proof. intros [h w]. apply advances_refl. Qed.

Lemma hostAdvances_modDom f : preserves hostAdvances (modDom f).
Proof. intros [h w]. apply advances_dom. Qed.

Lemma hostAdvances_call ev : ev ≠ EvFire -> preserves hostAdvances (call env ev).
Proof. intros Hne [h w]. rewrite call_run. now apply advances_event. Qed.

Lemma hostAdvances_newStore : preserves hostAdvances newStore.
Proof. intros [h w]. apply advances_allocStore. Qed.

Lemma hostAdvances_storeAdd r c : preserves hostAdvances (storeAdd r c).
Proof. intros [h w]. apply advances_addToStore. Qed.

Lemma hostAdvances_storeDispose r : preserves hostAdvances (storeDispose env r).
Proof. intros [h w]. rewrite storeDispose_state. apply advances_disposeStore. Qed.

Lemma hostAdvances_createComposite d : preserves hostAdvances (createComposite env d).
Proof. intros [h w]. now apply advances_event. Qed.

Lemma hostAdvances_forEach {A} (f : A -> M St unit) (l : list A) :
  (forall a, preserves hostAdvances (f a)) -> preserves hostAdvances (forEach f l).
Proof.
  intros Hf. induction l as [|a l IH]; simpl.
  - apply preserves_ret, hostAdvances_refl.
  - apply (preserves_bind hostAdvances hostAdvances_trans); [apply Hf|intros _; exact IH].
Qed.

Ltac advance :=
  repeat first
    [ apply (preserves_bind hostAdvances hostAdvances_trans); [|intros ?]
    | apply (preserves_try_catch hostAdvances hostAdvances_trans); [|intros ?]
    | apply (preserves_try_finally hostAdvances hostAdvances_trans)
    | apply (preserves_ret hostAdvances hostAdvances_refl)
    | apply (preserves_throw hostAdvances hostAdvances_refl)
    | apply (preserves_gets hostAdvances hostAdvances_refl)
    | apply hostAdvances_modH
    | apply hostAdvances_modDom
    | apply hostAdvances_call; discriminate
    | apply hostAdvances_newStore
    | apply hostAdvances_storeAdd
    | apply hostAdvances_storeDispose
    | apply hostAdvances_createComposite
    | match goal with
      | |- preserves _ (match ?x with _ => _ end) => destruct x
      | |- preserves _ (if ?x then _ else _) => destruct x
      end ].

Lemma hostAdvances_hideComposite id : preserves hostAdvances (hideComposite env id).
Proof. unfold hideComposite. advance. Qed.

Lemma hostAdvances_showComposite id : preserves hostAdvances (showComposite env id).
Proof. unfold showComposite. advance; apply hostAdvances_hideComposite. Qed.

Lemma hostAdvances_reuseExisting id : preserves hostAdvances (reuseExisting env id).
Proof. unfold reuseExisting. advance; apply hostAdvances_showComposite. Qed.

Lemma hostAdvances_cleanUp a b : preserves hostAdvances (cleanUp env a b).
Proof. unfold cleanUp. advance. Qed.

Lemma hostAdvances_openComposite id : preserves hostAdvances (openComposite env id).
Proof.
  unfold openComposite, openComposite_begin, openComposite_resume.
  advance; try apply hostAdvances_reuseExisting; try apply hostAdvances_hideComposite;
    try apply hostAdvances_cleanUp; try apply hostAdvances_showComposite.
  all: intros [h w]; apply advances_dom.
Qed.

Lemma hostAdvances_layout d : preserves hostAdvances (layout env d).
Proof. unfold layout. advance. Qed.

Lemma hostAdvances_dispose : preserves hostAdvances (dispose env).
Proof.
  unfold dispose. advance. apply hostAdvances_forEach. intros e.
  unfold disposeEntry. advance.
Qed.
End HostAdvances.

(** ** The layout of the host *)

Section HostLayout.
Variable env : Env.

End HostLayout.

(** ** The theorems on the scene *)

Lemma not_creating (h : t) (id : string) :
  creatingComposites h = ∅ -> id ∉ creatingComposites h.
Proof. intros ->. apply not_elem_of_empty. Qed.

(** Disposing "explorer" in the host of "explorer" and "search". *)
Lemma disposeComposite_drops_entry_witness :
  exists h' w',
    disposeComposite Scene.calm "explorer" Scene.bothOpen = (Ret tt, (h', w'))
    /\ JsMap.get "explorer" (composites h') = None
    /\ JsMap.get "search" (composites h') = JsMap.get "search" (composites (fst Scene.bothOpen)).
Proof.
  destruct (disposeComposite_drops_entry Scene.calm "explorer"
              (fst Scene.bothOpen) (snd Scene.bothOpen))
    as (h' & w' & evs & Hrun & _ & Hgone & Hkeep & _).
  - intros t e _. reflexivity.
  - intros e _ t c _. reflexivity.
  - exists h', w'. split; [exact Hrun|]. split; [exact Hgone|]. apply Hkeep. discriminate.
Defined.

(** Opening "search" leaves the entry of "explorer" alone. *)
Lemma openComposite_spares_others_witness :
  let s' := snd (openComposite Scene.calm "search" Scene.explorerOpen) in
  JsMap.get "explorer" (composites (fst s')) = Some explorerEntry
  /\ stores (snd s') !! 0 = stores (snd Scene.explorerOpen) !! 0
  /\ Dom.parentOf (dom (snd s')) 1 = Dom.parentOf (dom (snd Scene.explorerOpen)) 1.
Proof.
  apply (openComposite_spares_others Scene.calm "search" "explorer" explorerEntry
           (fst Scene.explorerOpen) (snd Scene.explorerOpen)).
  - discriminate.
  - vm_compute. reflexivity.
  - vm_compute. lia.
  - vm_compute. lia.
Defined.



(** "explorer" opened in a fresh host. *)
Lemma openComposite_returns_current_witness :
  opened "explorer" 0 (snd Scene.fresh) (fst Scene.explorerOpen) (snd Scene.explorerOpen).
Proof.
  apply (openComposite_returns_current Scene.calm "explorer" 0
           (fst Scene.fresh) (snd Scene.fresh)).
  vm_compute. reflexivity.
Defined.

Lemma creation_succeeds_witness :
  exists h' w',
    openComposite_resume Scene.calm "explorer" (InstComposite 7) Scene.fresh
    = (Ret (Some 7), (h', w'))
    /\ currentCompositeId h' = Some "explorer"
    /\ Dom.parentOf (dom w') 1 = Some 0.
Proof.
  destruct (creation_succeeds Scene.calm "explorer" 7 (fst Scene.fresh) (snd Scene.fresh))
    as (h' & w' & evs & Hrun & _ & _ & Hcur & _ & _ & Hpar & _).
  - exact calm_is_quiet.
  - unfold createThrows. vm_compute. intros [H|H]; discriminate.
  - exists h', w'. split; [exact Hrun|]. split; [exact Hcur|exact Hpar].
Defined.

(** A second [dispose] of the host of "explorer" and "search". *)
Lemma dispose_is_final_witness :
  dispose Scene.calm Scene.disposed = (Ret tt, Scene.disposed)
  /\ currentCompositeId (fst Scene.disposed) = Some "search".
Proof.
  destruct (dispose_is_final Scene.calm (fst Scene.bothOpen) (snd Scene.bothOpen)
              Scene.disposed) as (_ & Hcur & Hagain & _).
  - vm_compute. reflexivity.
  - split; [exact Hagain|]. rewrite Hcur. vm_compute. reflexivity.
Defined.

(** "broken" opened in the disposed host. *)
Lemma disposed_host_still_opens_witness :
  superDisposed (fst Scene.disposed) = true
  /\ exists p s', openComposite_begin Scene.calm "broken" Scene.disposed = (Ret (Pending p), s').
Proof.
  destruct (disposed_host_still_opens Scene.calm "broken" 2
              (fst Scene.bothOpen) (snd Scene.bothOpen) Scene.disposed) as [Hd Hrun].
  - vm_compute. reflexivity.
  - apply not_creating. vm_compute. reflexivity.
  - vm_compute. reflexivity.
  - split; [exact Hd|]. eexists _, _. exact Hrun.
Defined.

(** The composite of "search" throws: [dispose] has torn down "explorer"
    and keeps both entries. *)
Lemma dispose_stops_at_throw_witness :
  exists w' evs,
    dispose Scene.hideFails Scene.bothOpen
    = (Exn (Thrown (EvSetVisible 6 false)), (fst Scene.bothOpen, w'))
    /\ tornDown (snd Scene.bothOpen) w' evs explorerEntry.
Proof.
  destruct (dispose_stops_at_throw Scene.hideFails (fst Scene.bothOpen) (snd Scene.bothOpen)
              [explorerEntry] []
              {| Entry.composite := 6; Entry.container := 2; Entry.disposables := 1 |})
    as (w' & evs & Hrun & _ & Hall).
  - vm_compute. reflexivity.
  - intros t e' [<-|[]]. reflexivity.
  - intros e' _ t c _. reflexivity.
  - intros t. reflexivity.
  - exists w', evs. split; [exact Hrun|]. apply Hall. now left.
Defined.

Lemma dispose_stops_at_disposal_throw_witness :
  exists w',
    dispose Scene.disposeFails Scene.bothOpen
    = (Exn (Thrown (EvDispose 6)), (fst Scene.bothOpen, w'))
    /\ storeDisposed w' 1 = true
    /\ Dom.parentOf (dom w') 2 = Some 0.
Proof.
  destruct (dispose_stops_at_disposal_throw Scene.disposeFails
              (fst Scene.bothOpen) (snd Scene.bothOpen) [explorerEntry] []
              {| Entry.composite := 6; Entry.container := 2; Entry.disposables := 1 |} 6)
    as (w' & evs & Hrun & _ & _ & Hst & Hpar).
  - vm_compute. reflexivity.
  - intros t e' [<-|[]]. reflexivity.
  - intros e' [<-|[]] t c Hc. vm_compute in Hc. destruct Hc as [<-|[]]. reflexivity.
  - intros e' [<-|[]]. split; vm_compute; lia.
  - intros t. reflexivity.
  - vm_compute. reflexivity.
  - intros t. reflexivity.
  - exists w'. split; [exact Hrun|]. split; [exact Hst|].
    etransitivity; [exact Hpar|]. vm_compute. reflexivity.
Defined.

(** ** The widget *)

Import MobileSidebarWidget.

Section WidgetKeeps.

Lemma widgetKeeps_ret {A} (a : A) : widgetKeeps (ret a).
Proof. intros [wd w]. exists a, w. split; [done|apply keepsMarkup_refl]. Qed.

Lemma widgetKeeps_bind {A B} (m : M St A) (k : A -> M St B) :
  widgetKeeps m -> (forall a, widgetKeeps (k a)) -> widgetKeeps (bind m k).
Proof.
  intros Hm Hk [wd w]. destruct (Hm (wd, w)) as (a & w1 & E1 & K1).
  destruct (Hk a (wd, w1)) as (b & w2 & E2 & K2).
  exists b, w2. unfold bind. rewrite E1. simpl in *. rewrite E2.
  split; [done|]. eapply keepsMarkup_trans; eauto.
Qed.

Lemma widgetKeeps_getT {A} (f : t -> A) : widgetKeeps (getT f).
Proof. intros [wd w]. eexists _, w. split; [reflexivity|apply keepsMarkup_refl]. Qed.

Lemma widgetKeeps_getW {A} (f : World -> A) : widgetKeeps (getW f).
Proof. intros [wd w]. eexists _, w. split; [reflexivity|apply keepsMarkup_refl]. Qed.

Lemma widgetKeeps_modDom f : domKeeps f -> widgetKeeps (modDom f).
Proof.
  intros Hf [wd w]. eexists tt, _. split; [reflexivity|]. exact (Hf (dom w)).
Qed.

Lemma widgetKeeps_forEach {A} (f : A -> M St unit) (l : list A) :
  (forall x, widgetKeeps (f x)) -> widgetKeeps (forEach f l).
Proof.
  intros Hf. induction l as [|x l IH]; simpl.
  - apply widgetKeeps_ret.
  - apply widgetKeeps_bind; auto.
Qed.

Lemma widgetKeeps_updateActiveButton svc id : widgetKeeps (updateActiveButton svc id).
Proof.
  unfold updateActiveButton.
  apply widgetKeeps_bind; [apply widgetKeeps_getT|intros bar].
  apply widgetKeeps_bind; [apply widgetKeeps_getW|intros buttons].
  apply widgetKeeps_bind; [apply widgetKeeps_getW|intros viewContainers].
  apply widgetKeeps_forEach. intros [index button].
  apply widgetKeeps_bind.
  - apply widgetKeeps_modDom, domKeeps_update. reflexivity.
  - intros _. destruct (viewContainers !! index) as [c|]; [|apply widgetKeeps_ret].
    destruct (String.eqb (vc_id c) id); [|apply widgetKeeps_ret].
    apply widgetKeeps_modDom, domKeeps_update.
    intros e. unfold classList_add. now destruct (bool_decide _).
Qed.
End WidgetKeeps.

Section Placeholder.
Variable svc : Services.

Lemma length_set_innerHTML r s (d : Dom.t) :
  List.length (Dom.set_innerHTML r s d) = List.length d.
Proof.
  unfold Dom.set_innerHTML. rewrite length_update.
  induction (Dom.childrenOf d r) as [|c cs IH]; simpl; [done|].
  now rewrite length_update.
Qed.


Lemma showPlaceholder_run wrapper id wd w :
  showPlaceholder svc wrapper id (wd, w)
  = (Ret tt,
     (wd, match getViewContainerById svc id with
          | Some vc => with_dom (Dom.set_innerHTML wrapper (placeholder (vc_title vc)) (dom w)) w
          | None => w
          end)).
Proof. unfold showPlaceholder. now destruct (getViewContainerById svc id). Qed.

End Placeholder.

Section ShowViewlet.
Variables (svc : Services) (env : Env).




End ShowViewlet.


Section DomSuffix.
Implicit Types (d s : Dom.t).

Lemma update_suffix d s i f :
  Dom.update (List.length d + i) f (d ++ s) = d ++ Dom.update i f s.
Proof. apply alter_app_r. Qed.

Lemma update_prefix d s r f :
  r < List.length d -> Dom.update r f (d ++ s) = Dom.update r f d ++ s.
Proof. intros H. now apply alter_app_l. Qed.

Lemma lookup_suffix d s i : (d ++ s) !! (List.length d + i) = s !! i.
Proof. rewrite lookup_app_r by lia. f_equal. lia. Qed.

Lemma parentOf_suffix d s i :
  Dom.parentOf (d ++ s) (List.length d + i) = Dom.parentOf s i.
Proof. unfold Dom.parentOf. now rewrite lookup_suffix. Qed.

Lemma appendChild_orphan d p c :
  Dom.parentOf d c = None ->
  Dom.appendChild p c d
  = Dom.update c (set_parentElement (Some p))
      (Dom.update p (fun e => set_children (children e ++ [c]) e) d).
Proof. intros H. unfold Dom.appendChild. now rewrite remove_orphan. Qed.
End DomSuffix.

Section DomEnd.
Implicit Types (d s : Dom.t).

Lemma update_end d d' e s f :
  List.length d' = List.length d ->
  Dom.update (List.length d) f (d' ++ e :: s) = d' ++ f e :: s.
Proof.
  intros H. rewrite <- H. unfold Dom.update.
  rewrite alter_app_r_alt by lia. now rewrite Nat.sub_diag.
Qed.

Lemma parentOf_end d e s : Dom.parentOf (d ++ e :: s) (List.length d) = parentElement e.
Proof. unfold Dom.parentOf. now rewrite list_lookup_middle. Qed.
End DomEnd.

Lemma with_dom_with_dom d1 d2 w : with_dom d1 (with_dom d2 w) = with_dom d1 w.
Proof. reflexivity. Qed.

Lemma createButton_run actionBar c wd w :
  actionBar < List.length (dom w) ->
  createButton actionBar c (wd, w)
  = (Ret tt,
     (wd, with_dom
            (Dom.update actionBar
               (fun e => set_children (children e ++ [List.length (dom w)]) e) (dom w)
             ++ buttonElements actionBar (List.length (dom w)) c) w)).
Proof.
  intros Hbar. unfold createButton, createElement. wnorm.
  cbn [Dom.createElement fst snd dom with_dom].
  rewrite !with_dom_with_dom.
  set (d := dom w) in *.
  (* the button *)
  rewrite !(update_end d d) by done.
  rewrite !length_app. cbn [List.length].
  (* the icon container and the icon *)
  rewrite <- !app_assoc. cbn [app].
  rewrite !update_suffix. cbn [Dom.update alter list_alter].
  rewrite !length_app. cbn [List.length].
  rewrite <- !app_assoc. cbn [app].
  rewrite !update_suffix. cbn [Dom.update alter list_alter].
  (* the icon into its container, the container into the button *)
  rewrite (appendChild_orphan _ (List.length d + 1) (List.length d + 2))
    by (now rewrite parentOf_suffix).
  rewrite !update_suffix. cbn [Dom.update alter list_alter].
  rewrite (appendChild_orphan _ (List.length d) (List.length d + 1))
    by (now rewrite parentOf_suffix).
  rewrite (update_end d d) by done.
  rewrite !update_suffix. cbn [Dom.update alter list_alter].
  rewrite !(update_end d d) by done.
  (* the button into the action bar *)
  rewrite (appendChild_orphan _ actionBar (List.length d))
    by (now rewrite parentOf_end).
  rewrite update_prefix by done.
  rewrite update_end by apply length_update.
  reflexivity.
Qed.

Section ActivityBar.
Variable svc : Services.


End ActivityBar.

Section Buttons.
Variables (svc : Services) (env : Env).

End Buttons.


(** C9.  [getPinnedViewletIds] returns the array that the stored text parses
    to when that is a non-empty array; it returns the five default ids when
    nothing is stored (the text parsed is then "[]", an empty array), when
    the stored text does not parse, and when it parses to anything else than
    a non-empty array. *)
Theorem getPinnedViewletIds_cases (svc : Services) (w : World) :
  let stored := storage w !! "workbench.activity.pinnedViewlets2" in
  (forall text x l, stored = Some text -> JSON_parse svc text = Some (JArray (x :: l)) ->
                    getPinnedViewletIds svc w = x :: l)
  /\ (stored = None -> JSON_parse svc "[]" = Some (JArray []) ->
      getPinnedViewletIds svc w = defaultViewlets)
  /\ (forall text, stored = Some text -> JSON_parse svc text = None ->
                   getPinnedViewletIds svc w = defaultViewlets)
  /\ (forall text v, stored = Some text -> JSON_parse svc text = Some v ->
                     (forall x l, v ≠ JArray (x :: l)) ->
                     getPinnedViewletIds svc w = defaultViewlets)
  /\ defaultViewlets
     = map JString ["workbench.view.explorer"; "workbench.view.search"; "workbench.view.scm";
                    "workbench.view.debug"; "workbench.view.extensions"].
Proof.
  cbv zeta. unfold getPinnedViewletIds, PINNED_VIEWLETS_KEY.
  split; [|split; [|split; [|split]]].
  - intros text x l -> Hp. simpl. now rewrite Hp.
  - intros -> Hp. simpl. now rewrite Hp.
  - intros text -> Hp. simpl. now rewrite Hp.
  - intros text v -> Hp Hv. simpl. rewrite Hp.
    destruct v as [| | | |[|x l]|]; try reflexivity. now specialize (Hv x l).
  - reflexivity.
Qed.

(** The buttons of the scene are those of "search" and "explorer", in the
    order of the pinned ids, and [querySelectorAll] finds them. *)
Example mounted_buttons :
  displayedContainers Scene.services Scene.page
  = [Scene.searchContainer; Scene.explorerContainer]
  /\ querySelectorAll (dom (snd Scene.mounted)) 1 "action-item" = [4; 7]
  /\ Dom.childrenOf (dom (snd Scene.mounted)) 3 = [4; 7].
Proof. vm_compute. auto. Qed.


Lemma getPinnedViewletIds_cases_witness :
  getPinnedViewletIds Scene.services Scene.page = [JString "search"; JString "explorer"]
  /\ getPinnedViewletIds Scene.services emptyWorld = defaultViewlets.
Proof.
  destruct (getPinnedViewletIds_cases Scene.services Scene.page) as (Hparsed & _).
  destruct (getPinnedViewletIds_cases Scene.services emptyWorld) as (_ & Habsent & _).
  split.
  - apply (Hparsed Scene.pinnedText); vm_compute; reflexivity.
  - apply Habsent; vm_compute; reflexivity.
Defined.



(** ** The viewlet shown first *)

Section Restore.
Variable svc : Services.
Implicit Types (w : World).

Lemma getPinnedViewletIds_head w :
  exists first rest, getPinnedViewletIds svc w = first :: rest.
Proof.
  unfold getPinnedViewletIds.
  destruct (JSON_parse svc _) as [[| | | |[|x l]|]|]; unfold defaultViewlets; eauto.
Qed.

Lemma lastActiveViewlet_Some w id :
  lastActiveViewlet svc w = Some id
  <-> storage w !! LAST_ACTIVE_VIEWLET_KEY = Some id
      /\ id ≠ ""
      /\ exists c, In c (sidebarContainers svc) /\ vc_id c = id.
Proof.
  unfold lastActiveViewlet. cbv zeta.
  destruct (storage w !! LAST_ACTIVE_VIEWLET_KEY) as [s|] eqn:Hs; simpl.
  - destruct (String.eqb_spec s ""); simpl.
    + split; [discriminate|]. intros ([= <-] & Hne & _). done.
    + destruct (existsb _ _) eqn:Hex.
      * apply existsb_exists in Hex. destruct Hex as (c & Hin & Heq).
        apply String.eqb_eq in Heq. split.
        -- intros [= <-]. eauto.
        -- now intros (-> & _).
      * split; [discriminate|]. intros ([= <-] & _ & c & Hin & Heq).
        assert (existsb (fun container => String.eqb (vc_id container) s)
                  (sidebarContainers svc) = true); [|congruence].
        apply existsb_exists. exists c. split; [done|]. now apply String.eqb_eq.
  - split; [discriminate|]. now intros ([=] & _).
Qed.
End Restore.

(** X12.  [getPinnedViewletIds] never returns an empty array, so
    [restoreLastActiveViewlet] and [refresh] always show a viewlet: without
    a valid stored viewlet (and, for [refresh], without an active
    composite), it is the first pinned id, and their last branch, which
    would show the first sidebar container, is never taken. *)
Theorem restore_always_shows (svc : Services) (w : World) :
  exists first rest,
    getPinnedViewletIds svc w = first :: rest
    /\ firstPinnedViewlet svc w = Some first
    /\ (lastActiveViewlet svc w = None ->
        restoreLastActiveViewlet svc w = Some first
        /\ refresh svc None w = Some first)
    /\ restoreLastActiveViewlet svc w ≠ None
    /\ forall activeComposite, refresh svc activeComposite w ≠ None.
Proof.
  destruct (getPinnedViewletIds_head svc w) as (first & rest & Hp).
  exists first, rest. split; [exact Hp|].
  assert (Hf : firstPinnedViewlet svc w = Some first).
  { unfold firstPinnedViewlet. now rewrite Hp. }
  split; [exact Hf|]. unfold restoreLastActiveViewlet, refresh. split; [|split].
  - intros ->. now rewrite Hf.
  - destruct (lastActiveViewlet svc w); [done|]. now rewrite Hf.
  - intros [a|]; destruct (lastActiveViewlet svc w); try done. now rewrite Hf.
Qed.

(** X13.  The stored viewlet is shown when it is a non-empty string and the
    id of a sidebar container, and only then; it then wins over the active
    composite and the pinned ids.  Otherwise [refresh] shows the active
    composite, if there is one, without asking whether it is a sidebar
    container. *)
Theorem stored_viewlet_wins (svc : Services) (w : World) :
  (forall id,
     lastActiveViewlet svc w = Some id
     <-> storage w !! "workbench.mobileSidebar.lastActiveViewlet" = Some id
         /\ id ≠ ""
         /\ exists c, In c (sidebarContainers svc) /\ vc_id c = id)
  /\ (forall id, lastActiveViewlet svc w = Some id ->
        restoreLastActiveViewlet svc w = Some (JString id)
        /\ forall activeComposite, refresh svc activeComposite w = Some (JString id))
  /\ (lastActiveViewlet svc w = None ->
        restoreLastActiveViewlet svc w = firstPinnedViewlet svc w
        /\ refresh svc None w = firstPinnedViewlet svc w
        /\ forall activeViewletId,
             refresh svc (Some activeViewletId) w = Some (JString activeViewletId)).
Proof.
  split; [intros id; apply lastActiveViewlet_Some|].
  unfold restoreLastActiveViewlet, refresh. split.
  - intros id ->. auto.
  - intros ->. auto.
Qed.

(** ** The widget between two viewlets *)

Section WidgetAdvances.
Variables (svc : Services) (env : Env).

Lemma widgetAdvances_refl s : widgetAdvances s s.
Proof. split; [done|apply advances_refl]. Qed.

Lemma widgetAdvances_trans s1 s2 s3 :
  widgetAdvances s1 s2 -> widgetAdvances s2 s3 -> widgetAdvances s1 s3.
Proof.
  intros [A1 A2] [B1 B2]. split; [congruence|]. eapply advances_trans; eauto.
Qed.

Lemma widgetAdvances_modDom f : preserves widgetAdvances (modDom f).
Proof. intros [wd w]. split; [done|apply advances_dom]. Qed.

Lemma widgetAdvances_createElement : preserves widgetAdvances createElement.
Proof. intros [wd w]. split; [done|apply advances_dom]. Qed.

Lemma widgetAdvances_setHost o : preserves widgetAdvances (modT (with_embeddedHost o)).
Proof. intros [wd w]. split; [done|apply advances_refl]. Qed.

Lemma widgetAdvances_call ev : ev ≠ EvFire -> preserves widgetAdvances (call env ev).
Proof.
  intros Hne [wd w]. unfold call. cbn [fst snd].
  destruct (throws env (trace w) ev); (split; [done|now apply advances_event]).
Qed.

Lemma widgetAdvances_onHost {A} (m : M EmbeddedCompositeHost.St A) :
  preserves hostAdvances m -> preserves widgetAdvances (onHost m).
Proof.
  intros Hm [wd w]. unfold onHost. cbn [fst snd].
  destruct (embeddedHost wd) as [h|]; [|apply widgetAdvances_refl].
  specialize (Hm (h, w)). destruct (m (h, w)) as [r [h' w']]. now split.
Qed.

Lemma widgetAdvances_forEach {A} (f : A -> M St unit) (l : list A) :
  (forall a, preserves widgetAdvances (f a)) -> preserves widgetAdvances (forEach f l).
Proof.
  intros Hf. induction l as [|a l IH]; simpl.
  - apply preserves_ret, widgetAdvances_refl.
  - apply (preserves_bind widgetAdvances widgetAdvances_trans); [apply Hf|intros _; exact IH].
Qed.

Ltac wadvance :=
  repeat first
    [ apply (preserves_bind widgetAdvances widgetAdvances_trans); [|intros ?]
    | apply (preserves_try_catch widgetAdvances widgetAdvances_trans); [|intros ?]
    | apply (preserves_ret widgetAdvances widgetAdvances_refl)
    | apply (preserves_gets widgetAdvances widgetAdvances_refl)
    | apply widgetAdvances_modDom
    | apply widgetAdvances_createElement
    | apply widgetAdvances_setHost
    | apply widgetAdvances_call; discriminate
    | apply widgetAdvances_onHost
    | match goal with
      | |- preserves _ (match ?x with _ => _ end) => destruct x
      | |- preserves _ (if ?x then _ else _) => destruct x
      | |- preserves _ (let '(_, _) := ?x in _) => destruct x
      end ].

Lemma widgetAdvances_showPlaceholder wrapper id :
  preserves widgetAdvances (showPlaceholder svc wrapper id).
Proof. unfold showPlaceholder. wadvance. Qed.

Lemma widgetAdvances_updateActiveButton id :
  preserves widgetAdvances (updateActiveButton svc id).
Proof.
  unfold updateActiveButton. wadvance. apply widgetAdvances_forEach.
  intros [index button]. wadvance.
Qed.

Lemma widgetAdvances_mountWrapper : preserves widgetAdvances (mountWrapper env).
Proof. unfold mountWrapper. wadvance. apply hostAdvances_dispose. Qed.

Lemma widgetAdvances_renderComposite wrapper id :
  preserves widgetAdvances (renderComposite svc env wrapper id).
Proof.
  unfold renderComposite. wadvance.
  all: first [ apply hostAdvances_openComposite
             | apply hostAdvances_layout
             | apply widgetAdvances_showPlaceholder
             | intros [wd w]; unfold widgetAdvances; simpl;
               split; [reflexivity|apply advances_dom] ].
Qed.
End WidgetAdvances.

Section ShowViewletRuns.
Variables (svc : Services) (env : Env).

(** [showViewlet] of a viewlet that is not the current one. *)
Lemma showViewlet_run id s :
  currentViewletId (fst s) ≠ Some id ->
  showViewlet svc env id s
  = (wrapper <- mountWrapper env;;
     try_catch (renderComposite svc env wrapper id)
               (fun _ => showPlaceholder svc wrapper id);;
     updateActiveButton svc id;;
     fire EvFire) (remembered id s).
Proof.
  intros Hne. unfold showViewlet, bind at 1, getT, gets.
  rewrite bool_decide_eq_false_2 by exact Hne. reflexivity.
Qed.

Lemma showViewlet_current id s :
  currentViewletId (fst s) = Some id -> showViewlet svc env id s = (Ret tt, s).
Proof.
  intros H. unfold showViewlet, bind, getT, gets.
  now rewrite bool_decide_eq_true_2 by exact H.
Qed.

(** The try of [showViewlet] with its catch always returns. *)
Lemma render_returns wrapper id s :
  exists s', try_catch (renderComposite svc env wrapper id)
                       (fun _ => showPlaceholder svc wrapper id) s = (Ret tt, s').
Proof.
  unfold try_catch.
  destruct (renderComposite svc env wrapper id s) as [[[]|err] [wd1 w1]]; [eauto|].
  rewrite showPlaceholder_run. eauto.
Qed.

Lemma render_holdsOnly wrapper id wd w :
  embeddedHost wd = None ->
  holdsOnly id
    (embeddedHost (fst (snd (try_catch (renderComposite svc env wrapper id)
                               (fun _ => showPlaceholder svc wrapper id) (wd, w))))).
Proof.
  intros Hnone. unfold try_catch, renderComposite, call. wnorm.
  destruct (throws env (trace w) (EvCreateHost wrapper)).
  { rewrite showPlaceholder_run. simpl. rewrite Hnone. intros h k e [=]. }
  set (w1 := with_trace (trace w ++ [EvCreateHost wrapper]) w).
  destruct (EmbeddedCompositeHost.create wrapper Sidebar w1) as [h0 w0] eqn:Hc.
  assert (Hh0 : composites h0 = []) by (injection Hc as <- _; reflexivity).
  unfold onHost. cbn [embeddedHost with_embeddedHost fst snd].
  assert (Hopen : forall k e,
            JsMap.get k (composites
              (fst (snd (EmbeddedCompositeHost.openComposite env id (h0, w0))))) = Some e ->
            k = id).
  { intros k e Hk. destruct (decide (k = id)) as [|Hne]; [done|].
    rewrite (openComposite_other_keys env id k h0 w0 Hne), Hh0 in Hk. discriminate. }
  destruct (EmbeddedCompositeHost.openComposite env id (h0, w0)) as [r [h1 w2]].
  cbn [fst snd] in Hopen.
  destruct r as [[c|]|err].
  - cbn [embeddedHost with_embeddedHost fst snd].
    destruct (hostShrinks_layout env
                {| width := width (getBoundingClientRect env wrapper);
                   height := height (getBoundingClientRect env wrapper) |} (h1, w2))
      as (_ & _ & _ & Hsub).
    destruct (EmbeddedCompositeHost.layout env _ (h1, w2)) as [r [h2 w3]].
    cbn [fst snd] in Hsub.
    destruct r as [[]|err]; [|rewrite showPlaceholder_run]; simpl;
      intros h k e [= <-] Hk; apply (Hopen k e); now apply Hsub.
  - rewrite showPlaceholder_run. simpl. intros h k e [= <-] Hk. exact (Hopen k e Hk).
  - rewrite showPlaceholder_run. simpl. intros h k e [= <-] Hk. exact (Hopen k e Hk).
Qed.
End ShowViewletRuns.

Section Remembered.
Variables (svc : Services) (env : Env).

Lemma keepsViewlet_refl s : keepsViewlet s s.
Proof. now split. Qed.

Lemma keepsViewlet_trans s1 s2 s3 :
  keepsViewlet s1 s2 -> keepsViewlet s2 s3 -> keepsViewlet s1 s3.
Proof. intros [A1 A2] [B1 B2]. split; congruence. Qed.

Lemma keepsViewlet_advances {A} (m : M St A) :
  preserves widgetAdvances m -> preserves keepsViewlet m.
Proof. intros Hm s. destruct (Hm s) as (H1 & H2 & _). now split. Qed.

Lemma keepsViewlet_shown id :
  preserves keepsViewlet
    (wrapper <- mountWrapper env;;
     try_catch (renderComposite svc env wrapper id)
               (fun _ => showPlaceholder svc wrapper id);;
     updateActiveButton svc id;;
     fire EvFire).
Proof.
  apply (preserves_bind keepsViewlet keepsViewlet_trans);
    [apply keepsViewlet_advances, widgetAdvances_mountWrapper|intros wrapper].
  apply (preserves_bind keepsViewlet keepsViewlet_trans); [|intros _].
  { apply keepsViewlet_advances.
    apply (preserves_try_catch widgetAdvances (widgetAdvances_trans));
      [apply widgetAdvances_renderComposite|intros _; apply widgetAdvances_showPlaceholder]. }
  apply (preserves_bind keepsViewlet keepsViewlet_trans);
    [apply keepsViewlet_advances, widgetAdvances_updateActiveButton|intros _].
  intros [wd w]. now split.
Qed.
End Remembered.

(** X14.  [showViewlet] of a viewlet that is not the current one makes it the
    current one and stores it as the last active viewlet, whatever happens
    next, even if it throws.  So showing it again does nothing, and when its
    id is a non-empty id of a sidebar container, it is the viewlet that
    [restoreLastActiveViewlet] and [refresh] choose from then on. *)
Theorem showViewlet_is_remembered (svc : Services) (env : Env) (id : string)
    (wd : t) (w : World) :
  currentViewletId wd ≠ Some id ->
  let s' := snd (showViewlet svc env id (wd, w)) in
  currentViewletId (fst s') = Some id
  /\ storage (snd s') !! "workbench.mobileSidebar.lastActiveViewlet" = Some id
  /\ showViewlet svc env id s' = (Ret tt, s')
  /\ (id ≠ "" -> (exists c, In c (sidebarContainers svc) /\ vc_id c = id) ->
      restoreLastActiveViewlet svc (snd s') = Some (JString id)
      /\ forall activeComposite, refresh svc activeComposite (snd s') = Some (JString id)).
Proof.
  intros Hne. cbv zeta. rewrite showViewlet_run by exact Hne.
  destruct (keepsViewlet_shown svc env id (remembered id (wd, w))) as [H1 H2].
  set (s' := snd _) in *. cbn [remembered fst snd with_currentViewletId currentViewletId] in H1.
  assert (Hst : storage (snd s') !! LAST_ACTIVE_VIEWLET_KEY = Some id).
  { rewrite H2. simpl. apply lookup_insert_eq. }
  split; [exact H1|]. split; [exact Hst|].
  split; [now apply showViewlet_current|].
  intros Hid Hc.
  assert (Hl : lastActiveViewlet svc (snd s') = Some id).
  { apply lastActiveViewlet_Some. auto. }
  unfold restoreLastActiveViewlet, refresh. rewrite Hl. auto.
Qed.

Section Replaces.
Variables (svc : Services) (env : Env).

(** [mountWrapper] when disposing the previous host does not throw. *)
Lemma mountWrapper_returns wd w :
  (forall h t e, embeddedHost wd = Some h -> In e (JsMap.values (composites h)) ->
                 throws env t (EvSetVisible (Entry.composite e) false) = false) ->
  (forall h e, embeddedHost wd = Some h -> In e (JsMap.values (composites h)) ->
               disposalReturns env w (Entry.disposables e)) ->
  exists wrapper wd' w' evs,
    mountWrapper env (wd, w) = (Ret wrapper, (wd', w'))
    /\ embeddedHost wd' = None
    /\ added w w' evs
    /\ forall h e, embeddedHost wd = Some h -> In e (JsMap.values (composites h)) ->
         In (EvSetVisible (Entry.composite e) false) evs
         /\ (Entry.disposables e < List.length (stores w) ->
             storeDisposed w' (Entry.disposables e) = true).
Proof.
  intros Hq Hret. unfold mountWrapper, onHost. wnorm.
  cbn [embeddedHost with_embeddedHost].
  destruct (embeddedHost wd) as [h|] eqn:Hh.
  - wnorm. cbn [embeddedHost with_embeddedHost]. rewrite Hh.
    set (w0 := with_dom _ w).
    destruct (forEach_disposeEntry env (JsMap.values (composites h)) h w0
                (fun t e He => Hq h t e eq_refl He)
                (fun e He => disposalReturns_stores env w w0 _ eq_refl (Hret h e eq_refl He)))
      as (w1 & evs & Hrun & Htr & _ & _ & _ & _ & _ & Hall).
    assert (Hd : EmbeddedCompositeHost.dispose env (h, w0)
                 = (Ret tt, (with_superDisposed true (with_composites [] h), w1))).
    { unfold EmbeddedCompositeHost.dispose. norm. now rewrite Hrun. }
    rewrite Hd. unfold createElement. cbn [Dom.createElement fst snd].
    eexists _, _, _, evs. split; [reflexivity|]. split; [reflexivity|].
    split; [exact Htr|].
    intros h' e [= <-] He. destruct (Hall e He) as (T1 & T2 & _).
    split; [exact T1|]. exact T2.
  - unfold createElement. cbn [Dom.createElement fst snd].
    eexists _, _, _, []. split; [reflexivity|]. split; [exact Hh|].
    split; [unfold added; simpl; now rewrite app_nil_r|]. intros h e [=].
Qed.
End Replaces.

(** X15.  [showViewlet] of a viewlet that is not the current one, with
    nothing else running while it awaits, returns when the composites of the
    previous host take [setVisible(false)] and their disposal without
    throwing, whatever the new host and its composite do.  It has disposed
    the previous host with every composite it held, and the last thing it
    does is to fire the event of the widget, once. *)
Theorem showViewlet_replaces_host (svc : Services) (env : Env) (id : string)
    (wd : t) (w : World) :
  currentViewletId wd ≠ Some id ->
  (forall h t e, embeddedHost wd = Some h -> In e (JsMap.values (composites h)) ->
                 throws env t (EvSetVisible (Entry.composite e) false) = false) ->
  (forall h e, embeddedHost wd = Some h -> In e (JsMap.values (composites h)) ->
               disposalReturns env w (Entry.disposables e)) ->
  exists wd' w' evs,
    showViewlet svc env id (wd, w) = (Ret tt, (wd', w'))
    /\ added w w' (evs ++ [EvFire]) /\ ~ In EvFire evs
    /\ forall h e, embeddedHost wd = Some h -> In e (JsMap.values (composites h)) ->
         In (EvSetVisible (Entry.composite e) false) evs
         /\ (Entry.disposables e < List.length (stores w) ->
             storeDisposed w' (Entry.disposables e) = true).
Proof.
  intros Hne Hq Hret. rewrite showViewlet_run by exact Hne.
  unfold remembered. cbn [fst snd].
  set (wd0 := with_currentViewletId (Some id) wd).
  set (w0 := with_storage _ w).
  destruct (mountWrapper_returns env wd0 w0 Hq
              (fun h e Hh He => disposalReturns_stores env w w0 _ eq_refl (Hret h e Hh He)))
    as (wrapper & wd1 & w1 & evs1 & Hm & Hnone & Htr1 & Hold).
  destruct (widgetAdvances_mountWrapper env (wd0, w0)) as (_ & _ & _ & evs1' & Htr1' & Hnf1).
  rewrite Hm in Htr1'. cbn [fst snd] in Htr1'.
  assert (evs1' = evs1) by (unfold added in *; rewrite Htr1 in Htr1'; now apply app_inv_head in Htr1').
  subst evs1'.
  destruct (render_returns svc env wrapper id (wd1, w1)) as [[wd2 w2] Hr].
  pose proof (preserves_try_catch widgetAdvances (widgetAdvances_trans) _ _
                (widgetAdvances_renderComposite svc env wrapper id)
                (fun _ => widgetAdvances_showPlaceholder svc wrapper id) (wd1, w1)) as Hadv2.
  rewrite Hr in Hadv2. cbn [fst snd] in Hadv2.
  destruct Hadv2 as (_ & _ & Hmono2 & evs2 & Htr2 & Hnf2).
  destruct (widgetKeeps_updateActiveButton svc id (wd2, w2)) as ([] & w3 & Hu & _).
  pose proof (widgetAdvances_updateActiveButton svc id (wd2, w2)) as Hadv3.
  rewrite Hu in Hadv3. destruct Hadv3 as (_ & _ & Hmono3 & evs3 & Htr3 & Hnf3).
  cbn [fst snd] in *.
  exists wd2, (with_trace (trace w3 ++ [EvFire]) w3), (evs1 ++ evs2 ++ evs3).
  split; [|split; [|split]].
  - unfold bind at 1. rewrite Hm. unfold bind at 1. rewrite Hr.
    unfold bind. rewrite Hu. reflexivity.
  - unfold added in *. simpl. rewrite Htr3, Htr2, Htr1. simpl.
    now rewrite <- !app_assoc.
  - intros Hin. apply in_app_or in Hin. destruct Hin as [H|H]; [tauto|].
    apply in_app_or in H. tauto.
  - intros h e Hh He. destruct (Hold h e Hh He) as [O1 O2].
    split; [apply in_or_app; now left|].
    intros Hv. apply Hmono3, Hmono2, O2, Hv.
Qed.

(** ** When disposing the previous host throws *)

Section Stuck.
Variables (svc : Services) (env : Env).

Lemma childrenOf_set_innerHTML r s (d : Dom.t) :
  Dom.childrenOf (Dom.set_innerHTML r s d) r = [].
Proof.
  unfold Dom.set_innerHTML, Dom.childrenOf at 1, Dom.update.
  rewrite list_lookup_alter.
  set (d1 := foldr _ _ _). rewrite decide_True by reflexivity.
  now destruct (d1 !! r).
Qed.

Lemma no_children_kept (l l' : list ElemRef) :
  (forall x, x ∉ l -> x ∉ l') -> l = [] -> l' = [].
Proof.
  intros H ->. destruct l' as [|x l']; [done|].
  exfalso. apply (H x); [apply not_elem_of_nil|left].
Qed.
End Stuck.

(** X24.  When [dispose] of the previous host throws, [showViewlet] throws
    the same before it has made a wrapper.  Stated for a previous host whose
    first entries are torn down without a throw and whose next composite
    throws on [setVisible(false)]: the content is left without a child, the
    widget keeps the previous host with its entries, and the viewlet is the
    current one already, so that showing it again, as a click on its button
    does, makes no call and changes nothing. *)
Theorem showViewlet_stuck_when_dispose_throws (svc : Services) (env : Env) (id : string)
    (wd : MobileSidebarWidget.t) (w : World) (h : EmbeddedCompositeHost.t)
    (before after : list Entry.t) (e : Entry.t) :
  currentViewletId wd ≠ Some id ->
  embeddedHost wd = Some h ->
  JsMap.values (composites h) = before ++ e :: after ->
  (forall t e', In e' before ->
                throws env t (EvSetVisible (Entry.composite e') false) = false) ->
  (forall e', In e' before -> disposalReturns env w (Entry.disposables e')) ->
  (forall t, throws env t (EvSetVisible (Entry.composite e) false) = true) ->
  exists wd' w' evs,
    showViewlet svc env id (wd, w)
    = (Exn (Thrown (EvSetVisible (Entry.composite e) false)), (wd', w'))
    /\ added w w' (evs ++ [EvSetVisible (Entry.composite e) false])
    /\ List.length (dom w') = List.length (dom w)
    /\ Dom.childrenOf (dom w') (contentContainer wd) = []
    /\ embeddedHost wd' = Some h
    /\ currentViewletId wd' = Some id
    /\ showViewlet svc env id (wd', w') = (Ret tt, (wd', w'))
    /\ handle svc env (OnClick id) Click (wd', w') = (Ret tt, (wd', w')).
Proof.
  intros Hne Hh Hvals Hq Hret Hthrow. rewrite showViewlet_run by exact Hne.
  unfold remembered. cbn [fst snd].
  set (wd0 := with_currentViewletId (Some id) wd).
  set (w0 := with_storage _ w).
  set (w1 := with_dom (Dom.set_innerHTML (contentContainer wd) "" (dom w0)) w0).
  destruct (forEach_disposeEntry env before h w1 Hq
              (fun e' He' => disposalReturns_stores env w w1 _ eq_refl (Hret e' He')))
    as (w2 & evs & Hrun & Htr & _ & _ & _ & Hch & _ & _).
  set (ev := EvSetVisible (Entry.composite e) false) in *.
  assert (Hd : EmbeddedCompositeHost.dispose env (h, w1)
               = (Exn (Thrown ev), (h, with_trace (trace w2 ++ [ev]) w2))).
  { unfold EmbeddedCompositeHost.dispose. norm.
    rewrite Hvals, forEach_app, Hrun. simpl.
    unfold bind at 1, disposeEntry.
    unfold bind at 1.
    rewrite call_run. fold ev. rewrite Hthrow. reflexivity. }
  assert (Hlen : List.length (dom w2) = List.length (dom w)).
  { destruct (hostShrinks_dispose env (h, w1)) as (_ & L & _).
    rewrite Hd in L. cbn [fst snd] in L. simpl in L. rewrite L. unfold w1, w0. simpl.
    apply length_set_innerHTML. }
  exists (with_embeddedHost (Some h) wd0), (with_trace (trace w2 ++ [ev]) w2), evs.
  assert (Hcur : currentViewletId (with_embeddedHost (Some h) wd0) = Some id) by reflexivity.
  split; [|split; [|split; [|split; [|split; [|split; [|split]]]]]].
  - unfold mountWrapper, onHost. wnorm.
    change (embeddedHost wd0) with (embeddedHost wd). rewrite Hh. cbv beta iota.
    change (embeddedHost wd0) with (embeddedHost wd). rewrite Hh.
    change (contentContainer wd0) with (contentContainer wd). fold w1.
    rewrite Hd. reflexivity.
  - unfold added. simpl. rewrite Htr. unfold w1, w0. simpl. now rewrite app_assoc.
  - exact Hlen.
  - simpl. apply (no_children_kept (Dom.childrenOf (dom w1) (contentContainer wd))).
    + intros x. apply Hch.
    + unfold w1. simpl. apply childrenOf_set_innerHTML.
  - reflexivity.
  - exact Hcur.
  - now apply showViewlet_current.
  - unfold handle, detached. now rewrite showViewlet_current.
Qed.

(** ** The active button *)

Section ActiveButton.
Variable svc : Services.

Lemma markButton_checked vcs id index el :
  "checked" ∈ className (markButton vcs id index el)
  <-> exists c, vcs !! index = Some c /\ vc_id c = id.
Proof.
  unfold markButton. cbv zeta.
  assert (Hno : "checked" ∉ className (classList_remove "checked" el)).
  { unfold classList_remove. simpl. rewrite list_elem_of_filter. tauto. }
  destruct (vcs !! index) as [c|].
  - destruct (String.eqb_spec (vc_id c) id) as [Heq|Hne].
    + split; [eauto|]. intros _. unfold classList_add.
      rewrite bool_decide_eq_false_2 by exact Hno. simpl.
      apply elem_of_app. right. now apply list_elem_of_singleton.
    + split; [done|]. intros (c' & [= <-] & Heq). done.
  - split; [done|]. now intros (c & [=] & _).
Qed.

Lemma markButton_others vcs id index el cls :
  cls ≠ "checked" ->
  cls ∈ className (markButton vcs id index el) <-> cls ∈ className el.
Proof.
  intros Hne. unfold markButton. cbv zeta.
  assert (Hrem : cls ∈ className (classList_remove "checked" el) <-> cls ∈ className el).
  { unfold classList_remove. simpl. rewrite list_elem_of_filter. tauto. }
  assert (Hadd : cls ∈ className (classList_add "checked" (classList_remove "checked" el))
                 <-> cls ∈ className el).
  { rewrite <- Hrem. unfold classList_add. case_bool_decide; [done|]. simpl.
    rewrite elem_of_app, list_elem_of_singleton. tauto. }
  destruct (vcs !! index) as [c|]; [|exact Hrem].
  now destruct (String.eqb (vc_id c) id).
Qed.

(** The loop of [updateActiveButton], from the index [k] on. *)
Lemma forEach_markButton vcs id (l : list ElemRef) : forall k wd w,
  NoDup l ->
  exists w',
    forEach (fun '(index, button) =>
               modDom (Dom.update button (classList_remove "checked"));;
               match vcs !! index with
               | Some c =>
                   if String.eqb (vc_id c) id
                   then modDom (Dom.update button (classList_add "checked"))
                   else ret tt
               | None => ret tt
               end)
            (imap (fun index button => (k + index, button)) l) (wd, w)
    = (Ret tt, (wd, w'))
    /\ trace w' = trace w /\ stores w' = stores w /\ storage w' = storage w
    /\ (forall x, x ∉ l -> dom w' !! x = dom w !! x)
    /\ forall i b, l !! i = Some b ->
         dom w' !! b = markButton vcs id (k + i) <$> dom w !! b.
Proof.
  induction l as [|b l IH]; intros k wd w Hnd.
  - exists w. simpl. repeat split; auto. intros i b [=].
  - apply NoDup_cons in Hnd. destruct Hnd as [Hb Hnd].
    set (d1 := Dom.update b (markButton vcs id k) (dom w)).
    destruct (IH (S k) wd (with_dom d1 w) Hnd) as (w' & Hrun & Ht & Hs & Hg & Hfr & Hall).
    exists w'. split; [|split; [|split; [|split; [|split]]]]; try done.
    + rewrite imap_cons. cbn [forEach]. unfold bind at 1.
      rewrite Nat.add_0_r.
      assert (Hstep :
        (modDom (Dom.update b (classList_remove "checked"));;
         match vcs !! k with
         | Some c =>
             if String.eqb (vc_id c) id
             then modDom (Dom.update b (classList_add "checked"))
             else ret tt
         | None => ret tt
         end) (wd, w) = (Ret tt, (wd, with_dom d1 w))).
      { unfold d1, markButton, Dom.update. wnorm. cbv zeta.
        destruct (vcs !! k) as [c|]; [|reflexivity].
        destruct (String.eqb (vc_id c) id); [|reflexivity].
        wnorm. cbn [dom with_dom]. rewrite with_dom_with_dom.
        f_equal. f_equal. f_equal. now rewrite list_alter_alter_eq. }
      rewrite Hstep.
      rewrite (imap_ext _ (fun index button => (S k + index, button))) by
        (intros; simpl; f_equal; lia).
      exact Hrun.
    + intros x Hx. apply not_elem_of_cons in Hx. destruct Hx as [Hx1 Hx2].
      rewrite (Hfr x Hx2). simpl. unfold d1. rewrite lookup_update.
      case_decide; [congruence|done].
    + intros [|i] b' Hi; simpl in Hi.
      * injection Hi as <-. rewrite (Hfr b Hb). simpl. unfold d1.
        rewrite lookup_update, Nat.add_0_r. case_decide; [|done].
        now destruct (dom w !! b).
      * rewrite (Hall i b' Hi). simpl. unfold d1. rewrite lookup_update.
        case_decide as Hbb.
        { subst b'. exfalso. apply Hb. eapply list_elem_of_lookup_2; eauto. }
        f_equal. f_equal. lia.
Qed.
End ActiveButton.

(** X16.  [updateActiveButton] changes nothing but the classes of the
    buttons of the activity bar.  When these are distinct elements, the
    button of each index ends with the class [checked] if and only if the
    displayed container of that index is the viewlet, and with its other
    classes as they were. *)
Theorem updateActiveButton_checks (svc : Services) (viewletId : string)
    (wd : t) (w : World) :
  let buttons := querySelectorAll (dom w) (activityBarContainer wd) "action-item" in
  NoDup buttons ->
  exists w',
    updateActiveButton svc viewletId (wd, w) = (Ret tt, (wd, w'))
    /\ trace w' = trace w /\ stores w' = stores w /\ storage w' = storage w
    /\ (forall x, x ∉ buttons -> dom w' !! x = dom w !! x)
    /\ forall index button, buttons !! index = Some button ->
         exists el el',
           dom w !! button = Some el /\ dom w' !! button = Some el'
           /\ ("checked" ∈ className el'
               <-> exists c, displayedContainers svc w !! index = Some c
                             /\ vc_id c = viewletId)
           /\ forall cls, cls ≠ "checked" -> cls ∈ className el' <-> cls ∈ className el.
Proof.
  cbv zeta. intros Hnd.
  destruct (forEach_markButton (displayedContainers svc w) viewletId _ 0 wd w Hnd)
    as (w' & Hrun & Ht & Hs & Hg & Hfr & Hall).
  exists w'. split; [exact Hrun|]. do 4 (split; [done|]).
  intros index button Hi.
  assert (Hin : button ∈ querySelectorAll (dom w) (activityBarContainer wd) "action-item").
  { eapply list_elem_of_lookup_2; eauto. }
  unfold querySelectorAll in Hin. apply list_elem_of_In, filter_In in Hin.
  destruct Hin as [_ Hel].
  destruct (dom w !! button) as [el|] eqn:Hb; [|discriminate].
  exists el, (markButton (displayedContainers svc w) viewletId index el).
  split; [reflexivity|]. split; [rewrite (Hall index button Hi), Hb; reflexivity|].
  split; [apply markButton_checked|]. intros cls Hc. now apply markButton_others.
Qed.

(** ** Disposing the widget *)

(** X18.  [dispose] of the widget does nothing without a host.  With a
    host whose composites take [setVisible(false)] and their disposal
    without throwing, it tears down every composite of the host, as
    [dispose] of the host does, and keeps the disposed host, so that a
    second [dispose] makes no call and changes nothing. *)
Theorem widget_dispose_tears_down (env : Env) (wd : t) (w : World) :
  (forall h t e, embeddedHost wd = Some h -> In e (JsMap.values (composites h)) ->
                 throws env t (EvSetVisible (Entry.composite e) false) = false) ->
  (forall h e, embeddedHost wd = Some h -> In e (JsMap.values (composites h)) ->
               disposalReturns env w (Entry.disposables e)) ->
  exists wd' w' evs,
    MobileSidebarWidget.dispose env (wd, w) = (Ret tt, (wd', w'))
    /\ added w w' evs
    /\ embeddedHost wd'
       = option_map (fun h => with_superDisposed true (with_composites [] h))
                    (embeddedHost wd)
    /\ (embeddedHost wd = None -> wd' = wd /\ w' = w)
    /\ (forall h e, embeddedHost wd = Some h -> In e (JsMap.values (composites h)) ->
          tornDown w w' evs e)
    /\ MobileSidebarWidget.dispose env (wd', w') = (Ret tt, (wd', w')).
Proof.
  intros Hq Hret. unfold MobileSidebarWidget.dispose. wnorm.
  destruct (embeddedHost wd) as [h|] eqn:Hh.
  - destruct (forEach_disposeEntry env (JsMap.values (composites h)) h w
                (fun t e He => Hq h t e eq_refl He) (fun e He => Hret h e eq_refl He))
      as (w' & evs & Hrun & Htr & _ & _ & _ & _ & _ & Hall).
    assert (Hd : EmbeddedCompositeHost.dispose env (h, w)
                 = (Ret tt, (with_superDisposed true (with_composites [] h), w'))).
    { unfold EmbeddedCompositeHost.dispose. norm. now rewrite Hrun. }
    unfold onHost. cbn [fst snd]. rewrite Hh, Hd.
    eexists _, w', evs. split; [reflexivity|]. split; [exact Htr|].
    split; [reflexivity|]. split; [discriminate|].
    split; [intros h' e [= <-]; apply Hall|]. reflexivity.
  - exists wd, w, []. split; [reflexivity|].
    split; [unfold added; now rewrite app_nil_r|]. split; [now rewrite Hh|].
    split; [done|]. split; [intros h e [=]|].
    cbn [fst]. now rewrite Hh.
Qed.

(** ** A viewlet that renders *)

Section Reclassed.
Implicit Types (d : Dom.t).

Lemma reclassed_refl d : reclassed d d.
Proof. split; [done|]. intros x e' He. exists e'. split; [done|]. now destruct e'. Qed.





End Reclassed.

Section UpdateRuns.
Variable svc : Services.


End UpdateRuns.

Section FreshHost.
Variable env : Env.

End FreshHost.

Section Renders.
Variables (svc : Services) (env : Env).

End Renders.


(** ** The buttons in the document *)

Section ButtonTrees.
Variable svc : Services.

Lemma buttonTree_isButtonOf d actionBar b c :
  buttonTree d actionBar b c -> isButtonOf d b c.
Proof.
  intros H. specialize (H 0 ltac:(lia)). rewrite Nat.add_0_r in H. simpl in H.
  eexists. split; [exact H|]. repeat split; reflexivity.
Qed.

Lemma forEach_createButton_trees actionBar (l : list ViewContainer) : forall wd w,
  actionBar < List.length (dom w) ->
  exists w' buttons,
    forEach (createButton actionBar) l (wd, w) = (Ret tt, (wd, w'))
    /\ Dom.childrenOf (dom w') actionBar = Dom.childrenOf (dom w) actionBar ++ buttons
    /\ Forall2 (buttonTree (dom w') actionBar) buttons l
    /\ Forall (fun b => List.length (dom w) <= b) buttons
    /\ NoDup buttons
    /\ List.length (dom w') = List.length (dom w) + 3 * List.length l
    /\ (forall x, x < List.length (dom w) -> x ≠ actionBar -> dom w' !! x = dom w !! x)
    /\ className <$> dom w' !! actionBar = className <$> dom w !! actionBar
    /\ trace w' = trace w /\ stores w' = stores w /\ storage w' = storage w.
Proof.
  induction l as [|c l IH]; intros wd w Hbar.
  - exists w, []. simpl. rewrite app_nil_r.
    do 4 (split; [by auto|]). split; [constructor|]. repeat split; auto; lia.
  - set (n := List.length (dom w)).
    set (d1 := Dom.update actionBar (fun e => set_children (children e ++ [n]) e) (dom w)
               ++ buttonElements actionBar n c).
    assert (Hlen1 : List.length d1 = n + 3).
    { unfold d1. rewrite length_app, length_update. reflexivity. }
    destruct (IH wd (with_dom d1 w))
      as (w' & buttons & Hrun & Hch & Hall & Hge & Hnd & Hlen & Hfr & Hcls & Htr & Hst & Hsg).
    { cbn [dom with_dom]. lia. }
    cbn [dom with_dom] in *.
    exists w', (n :: buttons).
    split; [|split; [|split; [|split; [|split; [|split; [|split; [|split]]]]]]].
    + simpl. unfold bind at 1. rewrite createButton_run by exact Hbar. exact Hrun.
    + rewrite Hch. unfold d1, Dom.childrenOf.
      rewrite lookup_app_l by (rewrite length_update; exact Hbar).
      rewrite lookup_update. destruct (decide (actionBar = actionBar)); [|done].
      apply lookup_lt_is_Some in Hbar. destruct Hbar as [el ->]. simpl.
      now rewrite <- app_assoc.
    + constructor; [|exact Hall].
      intros j Hj. rewrite Hfr by (unfold n in *; lia).
      unfold d1. rewrite lookup_app_r by (rewrite length_update; unfold n; lia).
      rewrite length_update. f_equal. unfold n. lia.
    + constructor; [unfold n; lia|].
      eapply Forall_impl; [exact Hge|]. simpl. intros b Hb. lia.
    + apply NoDup_cons. split; [|exact Hnd]. intros Hin.
      rewrite Forall_forall in Hge. specialize (Hge n Hin). lia.
    + rewrite Hlen, Hlen1. simpl. lia.
    + intros x Hx Hne. fold n in Hx. rewrite Hfr; [|lia|done].
      unfold d1. rewrite lookup_app_l by (rewrite length_update; exact Hx).
      rewrite lookup_update. case_decide; [congruence|done].
    + rewrite Hcls. unfold d1.
      rewrite lookup_app_l by (rewrite length_update; exact Hbar).
      rewrite lookup_update. destruct (decide (actionBar = actionBar)); [|done].
      now destruct (dom w !! actionBar).
    + auto.
Qed.
End ButtonTrees.

Section ActivityBarTree.
Variable svc : Services.

(** The activity bar after [createActivityBar], element by element. *)
Lemma createActivityBar_tree wd w :
  activityBarContainer wd < List.length (dom w) ->
  let actionBar := List.length (dom w) in
  exists w' buttons el,
    createActivityBar svc (wd, w) = (Ret tt, (wd, w'))
    /\ Dom.childrenOf (dom w') (activityBarContainer wd)
       = Dom.childrenOf (dom w) (activityBarContainer wd) ++ [actionBar]
    /\ dom w' !! actionBar = Some el
    /\ className el = ["mobile-activity-actions"]
    /\ children el = buttons
    /\ Forall2 (buttonTree (dom w') actionBar) buttons (displayedContainers svc w)
    /\ Forall (fun b => actionBar < b) buttons
    /\ NoDup buttons
    /\ List.length (dom w')
       = S (List.length (dom w)) + 3 * List.length (displayedContainers svc w)
    /\ (forall x, x < List.length (dom w) -> x ≠ activityBarContainer wd ->
                  dom w' !! x = dom w !! x)
    /\ dom w' !! activityBarContainer wd
       = (fun e => set_children (children e ++ [actionBar]) e)
           <$> dom w !! activityBarContainer wd
    /\ trace w' = trace w /\ stores w' = stores w /\ storage w' = storage w.
Proof.
  intros Hbar. cbv zeta. unfold createActivityBar, createElement. wnorm.
  cbn [Dom.createElement fst snd dom with_dom].
  rewrite !with_dom_with_dom.
  set (d := dom w) in *. set (bar := activityBarContainer wd) in *.
  rewrite !(update_end d d) by done.
  rewrite (appendChild_orphan _ bar (List.length d)) by (now rewrite parentOf_end).
  rewrite update_prefix by done.
  rewrite update_end by apply length_update.
  set (d0 := Dom.update bar _ d ++ _).
  destruct (forEach_createButton_trees (List.length d) (displayedContainers svc w) wd
              (with_dom d0 w))
    as (w' & buttons & Hrun & Hch & Hall & Hge & Hnd & Hlen & Hfr & Hcls & Htr & Hst & Hsg).
  { cbn [dom with_dom]. unfold d0. rewrite length_app, length_update. simpl. lia. }
  cbn [dom with_dom] in *.
  assert (Hd0len : List.length d0 = S (List.length d)).
  { unfold d0. rewrite length_app, length_update. simpl. lia. }
  assert (Hab0 : exists el0, d0 !! List.length d = Some el0
                   /\ className el0 = ["mobile-activity-actions"]
                   /\ children el0 = [] /\ parentElement el0 = Some bar).
  { unfold d0. rewrite lookup_app_r by (rewrite length_update; lia).
    rewrite length_update, Nat.sub_diag. eexists. split; [reflexivity|]. auto. }
  destruct Hab0 as (el0 & Hel0 & Hc0 & Hk0 & Hp0).
  assert (Hab : exists el, dom w' !! List.length d = Some el).
  { apply lookup_lt_is_Some. rewrite Hlen, Hd0len. lia. }
  destruct Hab as [el Hel].
  exists w', buttons, el. split; [exact Hrun|].
  split.
  { unfold Dom.childrenOf at 1. rewrite Hfr by lia.
    unfold d0. rewrite lookup_app_l by (rewrite length_update; exact Hbar).
    rewrite lookup_update. destruct (decide (bar = bar)); [|done].
    unfold Dom.childrenOf.
    apply lookup_lt_is_Some in Hbar. destruct Hbar as [e0 ->]. reflexivity. }
  split; [exact Hel|].
  split; [rewrite Hel0, Hel in Hcls; simpl in Hcls; congruence|].
  split; [unfold Dom.childrenOf in Hch; rewrite Hel, Hel0, Hk0 in Hch; exact Hch|].
  split; [exact Hall|].
  split; [eapply Forall_impl; [exact Hge|]; simpl; intros b Hb; lia|].
  split; [exact Hnd|].
  split; [rewrite Hlen, Hd0len; reflexivity|].
  split.
  { intros x Hx Hne. rewrite Hfr by lia. unfold d0.
    rewrite lookup_app_l by (rewrite length_update; exact Hx).
    rewrite lookup_update. case_decide; [congruence|done]. }
  split.
  { rewrite Hfr by lia. unfold d0.
    rewrite lookup_app_l by (rewrite length_update; exact Hbar).
    rewrite lookup_update. now destruct (decide (bar = bar)). }
  auto.
Qed.
End ActivityBarTree.

Section QueryButtons.
Implicit Types (d : Dom.t).

Lemma append_empty (s : string) : s +:+ "" = s.
Proof.
  induction s as [|ch s IH]; [reflexivity|].
  change (String ch (s +:+ "") = String ch s). now rewrite IH.
Qed.

Lemma append_assoc (s1 s2 s3 : string) : (s1 +:+ s2) +:+ s3 = s1 +:+ (s2 +:+ s3).
Proof.
  induction s1 as [|ch s1 IH]; [reflexivity|].
  change (String ch ((s1 +:+ s2) +:+ s3) = String ch (s1 +:+ (s2 +:+ s3))).
  now rewrite IH.
Qed.

Lemma append_not_empty (s : string) ch rest : s +:+ String ch rest ≠ "".
Proof. now destruct s. Qed.

(** A text without white space is one class. *)
Lemma classesFrom_oneClass (name : string) :
  oneClass name -> forall current, current +:+ name ≠ "" ->
  classesFrom current name = [current +:+ name].
Proof.
  unfold oneClass. induction name as [|ch rest IH]; intros Hone current Hne.
  - simpl. rewrite append_empty in *.
    destruct (String.eqb_spec current ""); [done|reflexivity].
  - cbn [list_ascii_of_string forallb] in Hone.
    apply andb_prop in Hone. destruct Hone as [Hch Hrest].
    cbn [classesFrom]. unfold isSpace. apply negb_true_iff in Hch. rewrite Hch.
    rewrite IH; [now rewrite append_assoc|exact Hrest|].
    rewrite append_assoc. apply append_not_empty.
Qed.

(** The classes of the icon of a button. *)
Lemma classesOf_icon (name : string) :
  oneClass name ->
  classesOf ("codicon codicon-" +:+ name) = ["codicon"; "codicon-" +:+ name].
Proof.
  intros Hone. unfold classesOf.
  change (classesFrom "" ("codicon codicon-" +:+ name))
    with ("codicon" :: classesFrom "codicon-" name).
  now rewrite (classesFrom_oneClass name Hone "codicon-").
Qed.

Lemma descendants_button d actionBar b c fuel :
  buttonTree d actionBar b c -> descendants (S (S fuel)) d b = [b + 1; b + 2].
Proof.
  intros H.
  pose proof (H 0 ltac:(lia)) as H0. pose proof (H 1 ltac:(lia)) as H1.
  pose proof (H 2 ltac:(lia)) as H2. rewrite Nat.add_0_r in H0. simpl in H0, H1, H2.
  assert (C0 : Dom.childrenOf d b = [b + 1]) by (unfold Dom.childrenOf; now rewrite H0).
  assert (C1 : Dom.childrenOf d (b + 1) = [b + 2]) by (unfold Dom.childrenOf; now rewrite H1).
  assert (C2 : Dom.childrenOf d (b + 2) = []) by (unfold Dom.childrenOf; now rewrite H2).
  simpl descendants. rewrite C0. cbn [flat_map]. rewrite C1. cbn [flat_map].
  assert (Hleaf : descendants fuel d (b + 2) = []).
  { destruct fuel; [reflexivity|]. simpl descendants. now rewrite C2. }
  rewrite Hleaf. reflexivity.
Qed.

Lemma isButton_class d actionBar b c :
  oneClass (iconClassOf c) ->
  buttonTree d actionBar b c ->
  List.filter (fun x => match d !! x with
                        | Some e => bool_decide ("action-item" ∈ className e)
                        | None => false
                        end) [b; b + 1; b + 2] = [b].
Proof.
  intros Hone H.
  pose proof (H 0 ltac:(lia)) as H0. pose proof (H 1 ltac:(lia)) as H1.
  pose proof (H 2 ltac:(lia)) as H2. rewrite Nat.add_0_r in H0. simpl in H0, H1, H2.
  cbn [List.filter]. rewrite H0, H1, H2. cbn [className].
  rewrite (classesOf_icon _ Hone).
  rewrite bool_decide_eq_true_2 by (apply list_elem_of_singleton; reflexivity).
  rewrite bool_decide_eq_false_2.
  2:{ intros Hin. apply list_elem_of_singleton in Hin. discriminate. }
  rewrite bool_decide_eq_false_2; [reflexivity|].
  intros Hin. apply elem_of_cons in Hin. destruct Hin as [Hin|Hin]; [discriminate|].
  apply list_elem_of_singleton in Hin. discriminate.
Qed.

(** [querySelectorAll('.action-item')] on the activity bar finds the
    buttons of the action bar, in order, and nothing else. *)
Lemma querySelectorAll_buttons d bar actionBar el buttons (l : list ViewContainer) :
  Forall (fun c => oneClass (iconClassOf c)) l ->
  Dom.childrenOf d bar = [actionBar] ->
  d !! actionBar = Some el ->
  className el = ["mobile-activity-actions"] ->
  children el = buttons ->
  Forall2 (buttonTree d actionBar) buttons l ->
  (buttons ≠ [] -> 4 <= List.length d) ->
  querySelectorAll d bar "action-item" = buttons.
Proof.
  intros Hone Hbar Hel Hcls Hch Hall Hlen. unfold querySelectorAll.
  assert (Hkids : Dom.childrenOf d actionBar = buttons).
  { unfold Dom.childrenOf. now rewrite Hel. }
  destruct buttons as [|b0 buttons0].
  { apply lookup_lt_Some in Hel as Hlt.
    destruct (List.length d) as [|fuel]; [lia|].
    change (descendants (S fuel) d bar)
      with (flat_map (fun c => c :: descendants fuel d c) (Dom.childrenOf d bar)).
    rewrite Hbar. cbn [flat_map]. rewrite app_nil_r.
    assert (Hnone : descendants fuel d actionBar = []).
    { destruct fuel; [reflexivity|]. simpl descendants. now rewrite Hkids. }
    rewrite Hnone. cbn [List.filter]. rewrite Hel, Hcls.
    rewrite bool_decide_eq_false_2; [reflexivity|].
    intros Hin. apply list_elem_of_singleton in Hin. discriminate. }
  specialize (Hlen ltac:(discriminate)).
  set (buttons := b0 :: buttons0) in *. clearbody buttons.
  destruct (List.length d) as [|[|[|[|fuel]]]]; try lia.
  change (descendants (S (S (S (S fuel)))) d bar)
    with (flat_map (fun c => c :: descendants (S (S (S fuel))) d c) (Dom.childrenOf d bar)).
  rewrite Hbar. cbn [flat_map]. rewrite app_nil_r.
  change (descendants (S (S (S fuel))) d actionBar)
    with (flat_map (fun c => c :: descendants (S (S fuel)) d c)
            (Dom.childrenOf d actionBar)).
  rewrite Hkids.
  cbn [List.filter]. rewrite Hel, Hcls.
  rewrite bool_decide_eq_false_2.
  2:{ intros Hin. apply list_elem_of_singleton in Hin. discriminate. }
  clear Hch Hel Hbar Hkids. induction Hall as [|b c buttons l Hb Hall IH]; [reflexivity|].
  apply Forall_cons in Hone. destruct Hone as [Hc Hone].
  cbn [flat_map]. rewrite (descendants_button d actionBar b c fuel Hb).
  change (b :: [b + 1; b + 2] ++ ?r) with ([b; b + 1; b + 2] ++ r).
  rewrite List.filter_app, (isButton_class d actionBar b c Hc Hb), (IH Hone). reflexivity.
Qed.
End QueryButtons.

Section Constructor.
Variable svc : Services.

(** The constructor, up to the making of the activity bar. *)
Lemma create_run parent w :
  parent < List.length (dom w) ->
  let n := List.length (dom w) in
  MobileSidebarWidget.create svc parent w
  = snd (createActivityBar svc
           (newWidget n,
            with_dom (Dom.update parent (fun e => set_children (children e ++ [n]) e) (dom w)
                      ++ widgetElements parent n) w)).
Proof.
  intros Hp. cbv zeta. unfold MobileSidebarWidget.create, newWidget, widgetElements.
  cbn [Dom.createElement]. set (d := dom w) in *.
  (* the container, into the parent *)
  rewrite !(update_end d d) by done.
  rewrite (appendChild_orphan _ parent (List.length d)) by (now rewrite parentOf_end).
  rewrite update_prefix by done.
  rewrite update_end by apply length_update.
  set (d1 := Dom.update parent _ d).
  assert (Hl1 : List.length d1 = List.length d) by apply length_update.
  (* the activity bar, into the container *)
  rewrite !length_app, Hl1. cbn [List.length].
  rewrite <- !app_assoc. cbn [app].
  rewrite <- Hl1. rewrite !update_suffix. cbn [Dom.update alter list_alter].
  rewrite (appendChild_orphan _ (List.length d1) (List.length d1 + 1))
    by (now rewrite parentOf_suffix).
  rewrite (update_end d1 d1) by done.
  rewrite !update_suffix. cbn [Dom.update alter list_alter].
  (* the content, into the container *)
  rewrite !length_app. cbn [List.length].
  replace (List.length d1 + 2) with (List.length d1 + 2) by lia.
  rewrite <- !app_assoc. cbn [app].
  rewrite !update_suffix. cbn [Dom.update alter list_alter].
  rewrite (appendChild_orphan _ (List.length d1) (List.length d1 + 2))
    by (now rewrite parentOf_suffix).
  rewrite (update_end d1 d1) by done.
  rewrite !update_suffix. cbn [Dom.update alter list_alter].
  reflexivity.
Qed.
End Constructor.

Section Found.
Variable svc : Services.

Lemma markButton_listeners vcs id index el :
  listeners (markButton vcs id index el) = listeners el.
Proof.
  unfold markButton. cbv zeta. destruct (vcs !! index) as [c|]; [|reflexivity].
  destruct (String.eqb (vc_id c) id); [|reflexivity].
  unfold classList_add. now destruct (bool_decide _).
Qed.

Lemma displayedContainers_storage w w' :
  storage w' = storage w -> displayedContainers svc w' = displayedContainers svc w.
Proof.
  intros H. unfold displayedContainers, getPinnedViewletIds. now rewrite H.
Qed.

(** The activity bar made in a bar without children: what
    [querySelectorAll] finds there. *)
Lemma createActivityBar_found wd w :
  activityBarContainer wd < List.length (dom w) ->
  Dom.childrenOf (dom w) (activityBarContainer wd) = [] ->
  Forall (fun c => oneClass (iconClassOf c)) (displayedContainers svc w) ->
  exists w' buttons,
    createActivityBar svc (wd, w) = (Ret tt, (wd, w'))
    /\ Forall2 (buttonTree (dom w') (List.length (dom w))) buttons (displayedContainers svc w)
    /\ NoDup buttons
    /\ querySelectorAll (dom w') (activityBarContainer wd) "action-item" = buttons
    /\ storage w' = storage w /\ trace w' = trace w /\ stores w' = stores w
    /\ (forall x, x < List.length (dom w) -> x ≠ activityBarContainer wd ->
                  dom w' !! x = dom w !! x)
    /\ dom w' !! activityBarContainer wd
       = (fun e => set_children (children e ++ [List.length (dom w)]) e)
           <$> dom w !! activityBarContainer wd
    /\ Dom.childrenOf (dom w') (List.length (dom w)) = buttons.
Proof.
  intros Hbar Hfresh Hone.
  destruct (createActivityBar_tree svc wd w Hbar)
    as (w' & buttons & el & Hrun & Hch & Hel & Hcls & Hkids & Hall & Hgt & Hnd & Hlen
        & Hfr & Hbarel & Htr & Hst & Hsg).
  rewrite Hfresh in Hch. simpl in Hch.
  exists w', buttons. split; [exact Hrun|]. split; [exact Hall|]. split; [exact Hnd|].
  split.
  { apply (querySelectorAll_buttons _ _ (List.length (dom w)) el buttons
             (displayedContainers svc w)); auto.
    intros Hne. rewrite Hlen. apply Forall2_length in Hall.
    destruct buttons; [done|]. simpl in Hall. lia. }
  do 5 (split; [done|]). unfold Dom.childrenOf. now rewrite Hel.
Qed.
End Found.

(** X20.  In an activity bar that had no children, [createActivityBar]
    leaves the buttons it made, distinct elements in the order of the
    displayed containers, as the elements of class [action-item] that
    [querySelectorAll] finds; [focus] then focuses the button of the first
    displayed container, and nothing when no container is displayed.  The
    names of the icons are taken to be single classes, as [className] is
    the list of the classes here. *)
Theorem buttons_are_found (svc : Services) (wd : t) (w : World) :
  activityBarContainer wd < List.length (dom w) ->
  Dom.childrenOf (dom w) (activityBarContainer wd) = [] ->
  Forall (fun c => oneClass (iconClassOf c)) (displayedContainers svc w) ->
  exists w' buttons,
    createActivityBar svc (wd, w) = (Ret tt, (wd, w'))
    /\ Forall2 (isButtonOf (dom w')) buttons (displayedContainers svc w)
    /\ NoDup buttons
    /\ querySelectorAll (dom w') (activityBarContainer wd) "action-item" = buttons
    /\ focus wd w' = head buttons
    /\ (displayedContainers svc w = [] -> focus wd w' = None).
Proof.
  intros Hbar Hfresh Hone.
  destruct (createActivityBar_found svc wd w Hbar Hfresh Hone)
    as (w' & buttons & Hrun & Hall & Hnd & Hq & _).
  exists w', buttons. split; [exact Hrun|].
  split.
  { eapply Forall2_impl; [exact Hall|]. intros b c. apply buttonTree_isButtonOf. }
  split; [exact Hnd|]. split; [exact Hq|].
  unfold focus. rewrite Hq. split; [reflexivity|].
  intros Hnone. rewrite Hnone in Hall. apply Forall2_nil_inv_r in Hall. now subst.
Qed.

(** X21.  After [createActivityBar] in a bar that had no children,
    [updateActiveButton] leaves the class [checked] on exactly the buttons
    that show the viewlet when they are clicked.  The names of the icons
    are taken to be single classes. *)
Theorem active_button_of_viewlet (svc : Services) (viewletId : string)
    (wd : t) (w : World) :
  activityBarContainer wd < List.length (dom w) ->
  Dom.childrenOf (dom w) (activityBarContainer wd) = [] ->
  Forall (fun c => oneClass (iconClassOf c)) (displayedContainers svc w) ->
  exists w' buttons w'',
    createActivityBar svc (wd, w) = (Ret tt, (wd, w'))
    /\ updateActiveButton svc viewletId (wd, w') = (Ret tt, (wd, w''))
    /\ Forall2 (fun b c =>
                  exists el, dom w'' !! b = Some el
                    /\ listeners el = [OnClick (vc_id c); OnKeydown (vc_id c)]
                    /\ ("checked" ∈ className el <-> vc_id c = viewletId))
               buttons (displayedContainers svc w).
Proof.
  intros Hbar Hfresh Hone.
  destruct (createActivityBar_found svc wd w Hbar Hfresh Hone)
    as (w' & buttons & Hrun & Hall & Hnd & Hq & Hsg & _).
  destruct (forEach_markButton (displayedContainers svc w') viewletId buttons 0 wd w' Hnd)
    as (w'' & Hupd & _ & _ & _ & _ & Hmark).
  exists w', buttons, w''. split; [exact Hrun|]. split.
  { unfold updateActiveButton. wnorm. rewrite Hq. exact Hupd. }
  rewrite (displayedContainers_storage svc w w' Hsg) in Hmark.
  apply Forall2_same_length_lookup. split; [now apply Forall2_length in Hall|].
  intros i b c Hb Hc.
  pose proof (proj2 (proj1 (Forall2_same_length_lookup _ _ _) Hall) i b c Hb Hc) as Ht.
  specialize (Ht 0 ltac:(lia)). rewrite Nat.add_0_r in Ht. simpl in Ht.
  rewrite (Hmark i b Hb), Ht. eexists. split; [reflexivity|].
  split; [now rewrite markButton_listeners|].
  rewrite markButton_checked. split.
  - intros (c' & Hc' & Heq). simpl in Hc'. congruence.
  - intros Heq. eauto.
Qed.

(** X22.  The constructor makes the container of the widget, last child of
    the parent, with the activity bar and the content as its children, and
    in the activity bar the action bar with the buttons of the displayed
    containers, which are what [querySelectorAll] finds there and the first
    of which [focus] focuses; the widget has no current viewlet and no host
    yet, and nothing else of the document changes.  The names of the icons
    are taken to be single classes. *)
Theorem create_builds_widget (svc : Services) (parent : ElemRef) (w : World) :
  parent < List.length (dom w) ->
  Forall (fun c => oneClass (iconClassOf c)) (displayedContainers svc w) ->
  let n := List.length (dom w) in
  let s := MobileSidebarWidget.create svc parent w in
  let d := dom (snd s) in
  fst s = newWidget n
  /\ trace (snd s) = trace w /\ stores (snd s) = stores w /\ storage (snd s) = storage w
  /\ (forall x, x < n -> x ≠ parent -> d !! x = dom w !! x)
  /\ Dom.childrenOf d parent = Dom.childrenOf (dom w) parent ++ [n]
  /\ Dom.parentOf d n = Some parent
  /\ Dom.childrenOf d n = [n + 1; n + 2]
  /\ styleOf d n "display" = Some "flex"
  /\ styleOf d n "flex-direction" = Some "column"
  /\ Dom.parentOf d (n + 1) = Some n
  /\ Dom.childrenOf d (n + 1) = [n + 3]
  /\ Dom.parentOf d (n + 2) = Some n
  /\ Dom.childrenOf d (n + 2) = []
  /\ styleOf d (n + 2) "flex-grow" = Some "1"
  /\ styleOf d (n + 2) "flex-shrink" = Some "1"
  /\ styleOf d (n + 2) "flex-basis" = Some "0%"
  /\ exists buttons,
       Dom.childrenOf d (n + 3) = buttons
       /\ Forall2 (isButtonOf d) buttons (displayedContainers svc w)
       /\ querySelectorAll d (n + 1) "action-item" = buttons
       /\ focus (fst s) (snd s) = head buttons.
Proof.
  intros Hp Hone. cbv zeta. rewrite create_run by exact Hp.
  set (n := List.length (dom w)).
  set (d1 := Dom.update parent (fun e => set_children (children e ++ [n]) e) (dom w)).
  set (d3 := d1 ++ widgetElements parent n).
  assert (Hl1 : List.length d1 = n) by apply length_update.
  assert (Hl3 : List.length d3 = n + 3).
  { unfold d3. rewrite length_app, Hl1. reflexivity. }
  assert (Hnew : forall j, d3 !! (n + j) = widgetElements parent n !! j).
  { intros j. unfold d3. rewrite <- Hl1. apply lookup_suffix. }
  destruct (createActivityBar_found svc (newWidget n) (with_dom d3 w))
    as (w' & buttons & Hrun & Hall & Hnd & Hq & Hsg & Htr & Hst & Hfr & Hbar & Hkids).
  { cbn [activityBarContainer newWidget dom with_dom]. lia. }
  { cbn [activityBarContainer newWidget dom with_dom]. unfold Dom.childrenOf.
    now rewrite Hnew. }
  { exact Hone. }
  cbn [activityBarContainer newWidget dom with_dom] in *.
  rewrite Hl3 in *. rewrite Hrun. cbn [fst snd].
  assert (H0 : dom w' !! n = widgetElements parent n !! 0).
  { rewrite Hfr by lia. rewrite <- (Hnew 0). f_equal. lia. }
  assert (H2 : dom w' !! (n + 2) = widgetElements parent n !! 2).
  { rewrite Hfr by lia. apply Hnew. }
  rewrite Hnew in Hbar. simpl in H0, H2, Hbar.
  split; [reflexivity|]. do 3 (split; [done|]).
  split.
  { intros x Hx Hne. rewrite Hfr by lia. unfold d3. rewrite lookup_app_l by lia.
    unfold d1. rewrite lookup_update. case_decide; [congruence|done]. }
  split.
  { unfold Dom.childrenOf. rewrite Hfr by lia. unfold d3. rewrite lookup_app_l by lia.
    unfold d1. rewrite lookup_update. destruct (decide (parent = parent)); [|done].
    apply lookup_lt_is_Some in Hp. destruct Hp as [el0 ->]. reflexivity. }
  unfold Dom.parentOf at 1 2 3, Dom.childrenOf at 1 2 3, styleOf.
  rewrite H0, H2, Hbar. cbn.
  do 11 (split; [reflexivity|]).
  exists buttons. split; [|split; [|split]].
  - exact Hkids.
  - eapply Forall2_impl; [exact Hall|]. intros b c. apply buttonTree_isButtonOf.
  - exact Hq.
  - unfold focus. cbn [activityBarContainer newWidget]. now rewrite Hq.
Qed.

(** ** The theorems on the scene *)

(** "explorer" shown in the widget of the scene, with the containers of the
    scene in the sidebar. *)
Lemma showViewlet_is_remembered_witness :
  let s' := snd (showViewlet Scene.services Scene.calm "explorer" Scene.mounted) in
  currentViewletId (fst s') = Some "explorer"
  /\ restoreLastActiveViewlet Scene.services (snd s') = Some (JString "explorer").
Proof.
  destruct (showViewlet_is_remembered Scene.services Scene.calm "explorer"
              (fst Scene.mounted) (snd Scene.mounted)) as (Hcur & _ & _ & Hrestore).
  - vm_compute. discriminate.
  - split; [exact Hcur|]. apply Hrestore.
    + discriminate.
    + exists Scene.explorerContainer. split; [vm_compute; auto|reflexivity].
Defined.

(** "search" shown after "explorer": the host of "explorer" is disposed. *)
Lemma showViewlet_replaces_host_witness :
  exists wd' w' evs,
    showViewlet Scene.services Scene.calm "search" Scene.explorerShown = (Ret tt, (wd', w'))
    /\ In (EvSetVisible 1 false) evs
    /\ storeDisposed w' 0 = true.
Proof.
  destruct (showViewlet_replaces_host Scene.services Scene.calm "search"
              (fst Scene.explorerShown) (snd Scene.explorerShown))
    as (wd' & w' & evs & Hrun & _ & _ & Hold).
  - vm_compute. discriminate.
  - intros h t e _ _. reflexivity.
  - intros h e _ _ t c _. reflexivity.
  - destruct (Hold _ {| Entry.composite := 1; Entry.container := 11; Entry.disposables := 0 |}
                eq_refl) as [H1 H2].
    + vm_compute. auto.
    + exists wd', w', evs. split; [exact Hrun|].
      split; [exact H1|]. apply H2. vm_compute. lia.
Defined.

(** "broken" asked of a widget whose host holds "explorer" and "search",
    the composite of "search" throwing when it is hidden: "explorer" is torn
    down, the content stays empty, and a click on the button of "broken"
    does nothing. *)
Lemma showViewlet_stuck_when_dispose_throws_witness :
  exists wd' w',
    showViewlet Scene.services Scene.hideFails "broken" Scene.crowded
    = (Exn (Thrown (EvSetVisible 6 false)), (wd', w'))
    /\ Dom.childrenOf (dom w') 0 = []
    /\ currentViewletId wd' = Some "broken"
    /\ handle Scene.services Scene.hideFails (OnClick "broken") Click (wd', w')
       = (Ret tt, (wd', w')).
Proof.
  destruct (showViewlet_stuck_when_dispose_throws Scene.services Scene.hideFails
              "broken" (fst Scene.crowded) (snd Scene.crowded) (fst Scene.bothOpen)
              [explorerEntry] []
              {| Entry.composite := 6; Entry.container := 2; Entry.disposables := 1 |})
    as (wd' & w' & evs & Hrun & _ & _ & Hch & _ & Hcur & _ & Hclick).
  - vm_compute. discriminate.
  - reflexivity.
  - vm_compute. reflexivity.
  - intros t e' [<-|[]]. reflexivity.
  - intros e' _ t c _. reflexivity.
  - intros t. reflexivity.
  - exists wd', w'. split; [exact Hrun|]. split; [exact Hch|]. split; [exact Hcur|].
    exact Hclick.
Defined.

(** The buttons of the scene when "explorer" is the viewlet: the second
    button is the checked one. *)
Lemma updateActiveButton_checks_witness :
  exists w' el,
    updateActiveButton Scene.services "explorer" Scene.mounted
    = (Ret tt, (fst Scene.mounted, w'))
    /\ dom w' !! 7 = Some el /\ "checked" ∈ className el.
Proof.
  destruct (updateActiveButton_checks Scene.services "explorer"
              (fst Scene.mounted) (snd Scene.mounted))
    as (w' & Hrun & _ & _ & _ & _ & Hall).
  - vm_compute. apply NoDup_cons. split; [|apply NoDup_singleton].
    intros H. apply list_elem_of_singleton in H. discriminate.
  - destruct (Hall 1 7) as (el & el' & _ & Hel' & Hchecked & _).
    + vm_compute. reflexivity.
    + exists w', el'. split; [exact Hrun|]. split; [exact Hel'|].
      apply Hchecked. exists Scene.explorerContainer. split; vm_compute; reflexivity.
Defined.

(** The widget that shows "explorer", disposed. *)
Lemma widget_dispose_tears_down_witness :
  exists wd' w' evs,
    MobileSidebarWidget.dispose Scene.calm Scene.explorerShown = (Ret tt, (wd', w'))
    /\ tornDown (snd Scene.explorerShown) w' evs
         {| Entry.composite := 1; Entry.container := 11; Entry.disposables := 0 |}
    /\ MobileSidebarWidget.dispose Scene.calm (wd', w') = (Ret tt, (wd', w')).
Proof.
  destruct (widget_dispose_tears_down Scene.calm
              (fst Scene.explorerShown) (snd Scene.explorerShown))
    as (wd' & w' & evs & Hrun & _ & _ & _ & Hall & Hagain).
  - intros h t e _ _. reflexivity.
  - intros h e _ _ t c _. reflexivity.
  - exists wd', w', evs. split; [exact Hrun|]. split; [|exact Hagain].
    eapply Hall; [reflexivity|]. vm_compute. auto.
Defined.


Lemma scene_icons :
  Forall (fun c => oneClass (iconClassOf c)) (displayedContainers Scene.services Scene.page).
Proof. vm_compute. repeat constructor. Qed.

(** The buttons of "search" and "explorer" in the activity bar of the
    scene. *)
Lemma buttons_are_found_witness :
  exists w',
    createActivityBar Scene.services (Scene.widget, Scene.page) = (Ret tt, (Scene.widget, w'))
    /\ querySelectorAll (dom w') 1 "action-item" = [4; 7]
    /\ focus Scene.widget w' = Some 4.
Proof.
  destruct (buttons_are_found Scene.services Scene.widget Scene.page)
    as (w' & buttons & Hrun & _ & _ & Hq & Hf & _).
  - vm_compute. lia.
  - vm_compute. reflexivity.
  - exact scene_icons.
  - assert (Hw : w' = snd Scene.mounted).
    { assert (E : createActivityBar Scene.services (Scene.widget, Scene.page)
                  = (Ret tt, Scene.mounted)) by (vm_compute; reflexivity).
      rewrite E in Hrun. now injection Hrun as <-. }
    assert (Hb : buttons = [4; 7]).
    { rewrite <- Hq, Hw. vm_compute. reflexivity. }
    rewrite Hb in Hq, Hf. exists w'. split; [exact Hrun|]. split; [exact Hq|exact Hf].
Defined.

(** With "explorer" as the viewlet, the button of "explorer" is checked and
    that of "search" is not. *)
Lemma active_button_of_viewlet_witness :
  exists w' buttons w'',
    updateActiveButton Scene.services "explorer" (Scene.widget, w')
    = (Ret tt, (Scene.widget, w''))
    /\ Forall2 (fun b c =>
                  exists el, dom w'' !! b = Some el
                    /\ listeners el = [OnClick (vc_id c); OnKeydown (vc_id c)]
                    /\ ("checked" ∈ className el <-> vc_id c = "explorer"))
               buttons [Scene.searchContainer; Scene.explorerContainer].
Proof.
  destruct (active_button_of_viewlet Scene.services "explorer" Scene.widget Scene.page)
    as (w' & buttons & w'' & _ & Hupd & Hall).
  - vm_compute. lia.
  - vm_compute. reflexivity.
  - exact scene_icons.
  - exists w', buttons, w''. split; [exact Hupd|exact Hall].
Defined.

(** The widget constructed in the document of one element. *)
Lemma create_builds_widget_witness :
  let s := MobileSidebarWidget.create Scene.services 0 Scene.document in
  fst s = newWidget 1
  /\ Dom.childrenOf (dom (snd s)) 1 = [2; 3]
  /\ Dom.childrenOf (dom (snd s)) 2 = [4].
Proof.
  destruct (create_builds_widget Scene.services 0 Scene.document)
    as (H1 & _ & _ & _ & _ & _ & _ & H2 & _ & _ & _ & H3 & _).
  - vm_compute. lia.
  - vm_compute. repeat constructor.
  - split; [exact H1|]. split; [exact H2|exact H3].
Defined.
